(** * AltHistLearn client-side runtime: js/main.js and js/includes.js

    A shallow embedding of the two behavioural scripts of the site over a
    small model of the browser page (DOM tree with node identities, listener
    table, timers, console), followed by the properties of the fragment
    loader, the mobile menu, the scroll-spy and the visibility animator. *)

From Stdlib Require Import List String ZArith Bool Lia Arith.
From Stdlib Require QArith_base.
Import ListNotations.
Open Scope string_scope.
Open Scope list_scope.

Set Implicit Arguments.

(* ================================================================== *)
(** ** The DOM *)
(* ================================================================== *)

Module Dom.

(** Inline style: the four properties the scripts assign. The empty string
    is the value of a property that was never set. *)
Record Style : Type := mkStyle {
  opacity : string;
  transform : string;
  transition : string;
  cursor : string }.

Definition noStyle : Style := mkStyle "" "" "" "".

(** An element. [nid] is the identity of the JS object: two references are
    the same object iff they carry the same [nid]. [offsetTop],
    [offsetHeight] and [clientHeight] are the integer pixel values the
    layout engine reports for the element. *)
#[warnings="-register-all"]
Inductive Node : Type := mkNode {
  nid : nat;
  tagName : string;
  attrs : list (string * string);
  classList : list string;
  style : Style;
  text : string;
  offsetTop : Z;
  offsetHeight : Z;
  clientHeight : Z;
  children : list Node }.

Definition set_classList (cl : list string) (n : Node) : Node :=
  mkNode (nid n) (tagName n) (attrs n) cl (style n) (text n)
         (offsetTop n) (offsetHeight n) (clientHeight n) (children n).

Definition set_style (s : Style) (n : Node) : Node :=
  mkNode (nid n) (tagName n) (attrs n) (classList n) s (text n)
         (offsetTop n) (offsetHeight n) (clientHeight n) (children n).

Definition set_children (k : list Node) (n : Node) : Node :=
  mkNode (nid n) (tagName n) (attrs n) (classList n) (style n) (text n)
         (offsetTop n) (offsetHeight n) (clientHeight n) k.

(** All child nodes of [n] replaced: its own text becomes [tx], its child
    elements become [k]. *)
Definition set_content (tx : string) (k : list Node) (n : Node) : Node :=
  mkNode (nid n) (tagName n) (attrs n) (classList n) (style n) tx
         (offsetTop n) (offsetHeight n) (clientHeight n) k.

Definition set_opacity (v : string) (n : Node) : Node :=
  set_style (mkStyle v (transform (style n)) (transition (style n)) (cursor (style n))) n.
Definition set_transform (v : string) (n : Node) : Node :=
  set_style (mkStyle (opacity (style n)) v (transition (style n)) (cursor (style n))) n.
Definition set_transition (v : string) (n : Node) : Node :=
  set_style (mkStyle (opacity (style n)) (transform (style n)) v (cursor (style n))) n.
Definition set_cursor (v : string) (n : Node) : Node :=
  set_style (mkStyle (opacity (style n)) (transform (style n)) (transition (style n)) v) n.

(** [element.getAttribute(a)]: the first attribute named [a], or null. *)
Fixpoint assoc (a : string) (l : list (string * string)) : option string :=
  match l with
  | [] => None
  | (k, v) :: l' => if String.eqb k a then Some v else assoc a l'
  end.

Definition getAttribute (a : string) (n : Node) : option string :=
  assoc a (attrs n).

(** *** DOMTokenList *)

Definition contains (c : string) (cl : list string) : bool :=
  existsb (String.eqb c) cl.

Definition remove (c : string) (cl : list string) : list string :=
  filter (fun x => negb (String.eqb c x)) cl.

Definition add (c : string) (cl : list string) : list string :=
  if contains c cl then cl else cl ++ [c].

Definition toggle (c : string) (cl : list string) : list string :=
  if contains c cl then remove c cl else cl ++ [c].

Definition classList_remove (c : string) (n : Node) : Node :=
  set_classList (remove c (classList n)) n.
Definition classList_add (c : string) (n : Node) : Node :=
  set_classList (add c (classList n)) n.
Definition classList_toggle (c : string) (n : Node) : Node :=
  set_classList (toggle c (classList n)) n.
Definition classList_contains (c : string) (n : Node) : bool :=
  contains c (classList n).

(** *** Selectors

    The subset of CSS the scripts use: a compound selector is an optional
    tag, an optional class and an optional attribute test; a complex
    selector is a compound, possibly under a descendant combinator; a
    selector is a comma-separated list of complex selectors. *)

Inductive AttrTest : Type :=
| AttrPresent (a : string)            (* [a]      *)
| AttrEquals (a v : string)           (* [a="v"]  *)
| AttrPrefix (a v : string).          (* [a^="v"] *)

Record Compound : Type := mkCompound {
  c_tag : option string;
  c_class : option string;
  c_attr : option AttrTest }.

Inductive Complex : Type :=
| Simple (c : Compound)
| Descendant (anc c : Compound).

Definition Selector : Type := list Complex.

Definition attr_ok (t : AttrTest) (n : Node) : bool :=
  match t with
  | AttrPresent a => match getAttribute a n with Some _ => true | None => false end
  | AttrEquals a v =>
      match getAttribute a n with Some w => String.eqb w v | None => false end
  | AttrPrefix a v =>
      match getAttribute a n with Some w => String.prefix v w | None => false end
  end.

Definition opt_ok {A} (o : option A) (p : A -> bool) : bool :=
  match o with Some a => p a | None => true end.

Definition compound_matches (c : Compound) (n : Node) : bool :=
  opt_ok (c_tag c) (fun t => String.eqb t (tagName n))
  && opt_ok (c_class c) (fun k => classList_contains k n)
  && opt_ok (c_attr c) (fun t => attr_ok t n).

(** [ancs] are the ancestors of [n], nearest first. *)
Definition complex_matches (x : Complex) (ancs : list Node) (n : Node) : bool :=
  match x with
  | Simple c => compound_matches c n
  | Descendant a c => compound_matches c n && existsb (compound_matches a) ancs
  end.

Definition matches (sel : Selector) (ancs : list Node) (n : Node) : bool :=
  existsb (fun x => complex_matches x ancs n) sel.

(** The elements of the subtree of [n] that match [sel], in document
    (pre-)order. *)
Fixpoint select (sel : Selector) (ancs : list Node) (n : Node) : list Node :=
  match n with
  | mkNode _ _ _ _ _ _ _ _ _ kids =>
      (if matches sel ancs n then [n] else [])
      ++ flat_map (select sel (n :: ancs)) kids
  end.

(** [element.querySelectorAll(sel)] searches the descendants only. *)
Definition select_within (sel : Selector) (n : Node) : list Node :=
  flat_map (select sel [n]) (children n).

(** All elements of a subtree, in document order. *)
Fixpoint subtree (n : Node) : list Node :=
  match n with
  | mkNode _ _ _ _ _ _ _ _ _ kids => n :: flat_map subtree kids
  end.

(** [element.textContent]: the text of the element and of its descendants. *)
Definition textContent (n : Node) : string :=
  String.concat "" (map text (subtree n)).

(** The first result a function gives along a list. *)
Fixpoint first_some {A B} (f : A -> option B) (l : list A) : option B :=
  match l with
  | [] => None
  | a :: l' =>
      match f a with
      | Some b => Some b
      | None => first_some f l'
      end
  end.

(** The path from the element with identity [i] up to the root of [n]:
    the element itself first, then its ancestors, nearest first. *)
Fixpoint path_to (i : nat) (ancs : list Node) (n : Node) : option (list Node) :=
  match n with
  | mkNode j _ _ _ _ _ _ _ _ kids =>
      if Nat.eqb j i then Some (n :: ancs)
      else first_some (path_to i (n :: ancs)) kids
  end.

(** The element with identity [i] in the tree under [n]. *)
Definition element (i : nat) (n : Node) : option Node :=
  match path_to i [] n with
  | Some (x :: _) => Some x
  | _ => None
  end.

(** [element.closest(c)]: the element itself or its nearest ancestor
    matching the compound selector. *)
Definition closest (c : Compound) (path : list Node) : option Node :=
  find (compound_matches c) path.

(** Apply [f] to the element with identity [i], wherever it sits in the
    tree. The children are rewritten first, so that a replacement of the
    children by [f] is not traversed again. *)
Fixpoint update (i : nat) (f : Node -> Node) (n : Node) : Node :=
  match n with
  | mkNode j tg at_ cl st tx ot oh ch kids =>
      let n' := mkNode j tg at_ cl st tx ot oh ch (map (update i f) kids) in
      if Nat.eqb j i then f n' else n'
  end.

(** Apply [g] at every element of the tree, children first. *)
Fixpoint rewrite (g : Node -> Node) (n : Node) : Node :=
  match n with
  | mkNode j tg at_ cl st tx ot oh ch kids =>
      g (mkNode j tg at_ cl st tx ot oh ch (map (rewrite g) kids))
  end.

(** Object identities are pairwise distinct. *)
Fixpoint nodupb (l : list nat) : bool :=
  match l with
  | [] => true
  | i :: l' => negb (existsb (Nat.eqb i) l') && nodupb l'
  end.

Definition unique_ids (n : Node) : bool :=
  nodupb (map nid (subtree n)).

End Dom.

(* ================================================================== *)
(** ** The page: JS values, closures, the state and its monad *)
(* ================================================================== *)

Module Js.
Import Dom.

Inductive JsError : Type :=
| TypeError (msg : string)
| ReferenceError (msg : string)
| NetworkError (msg : string).

(** How a piece of JS code completes. *)
Inductive Completion (A : Type) : Type :=
| Normal (a : A)
| Throw (e : JsError).
Arguments Normal {A} a.
Arguments Throw {A} e.

(** The body text of a response is represented by what the HTML parser
    builds from it when it is assigned to [innerHTML]: the text at top
    level, and the elements, to each of which the parser gives a new
    identity. *)
Record Html : Type := mkHtml {
  h_text : string;
  h_nodes : list Node }.

(** Markup without text at top level. *)
Definition fragment (l : list Node) : Html := mkHtml "" l.

Inductive Body : Type :=
| BodyText (html : Html)
| BodyError (e : JsError).

Record Response : Type := mkResponse {
  status : Z;
  body : Body }.

(** [response.ok] *)
Definition ok (r : Response) : bool :=
  (200 <=? status r)%Z && (status r <=? 299)%Z.

Inductive FetchOutcome : Type :=
| Rejected (e : JsError)
| Resolved (r : Response).

(** What the event loop delivers to the page. *)
Inductive Event : Type :=
| DOMContentLoaded
| Scroll (y : Z)                          (* the window scrolled to offset y *)
| Click (target : nat)                    (* a click on the element [target] *)
| KeyDown (key : string)
| Intersect (entries : list (nat * bool)) (* (target, isIntersecting) *)
| FetchSettled (url : string) (o : FetchOutcome)
| Elapse (ms : Z).                        (* time passes; due timers fire *)

(** The function values of the two scripts, with the references their
    closures capture. *)
Inductive Handler : Type :=
| MenuInit                                   (* main.js 2-20   *)
| HamburgerClick (hamburger navMenu : nat)   (* main.js 7-10   *)
| NavLinkClick (hamburger navMenu : nat)     (* main.js 14-17  *)
| ScrollSpy                                  (* main.js 37-59  *)
| LearnMoreInit                              (* main.js 62-74  *)
| LearnMoreClick                             (* main.js 66-72  *)
| TimelineInit                               (* main.js 77-98  *)
| TimelineClick                              (* main.js 81-92  *)
| AnimateInit                                (* main.js 116-125 *)
| EscapeKey                                  (* main.js 128-138 *)
| IncludesInit                               (* includes.js 2-21 *)
| Debounced (cell : nat) (func : Handler) (wait : Z). (* main.js 143-150 *)

Inductive Target : Type :=
| TDocument
| TWindow
| TElement (i : nat).

Record Listener : Type := mkListener {
  l_target : Target;
  l_type : string;
  l_handler : Handler }.

Inductive TimerAction : Type :=
| ResetScale (this : nat)                          (* main.js 86-88 *)
| Later (cell : nat) (func : Handler) (args : Event). (* main.js 144-147 *)

Record Timer : Type := mkTimer {
  t_id : nat;
  t_due : Z;
  t_action : TimerAction }.

Inductive LogEntry : Type :=
| Log (msg : string)
| Warn (msg : string) (e : JsError)
| Uncaught (e : JsError).

(** A call of [loadHTML] suspended at [await fetch(url)]. *)
Record Request : Type := mkRequest {
  r_url : string;
  r_target : Selector }.

Record Page : Type := mkPage {
  dom : Node;                      (* the document's root element *)
  detached : list Node;            (* elements removed from the document *)
  listeners : list Listener;
  hasIntersectionObserver : bool;  (* is [IntersectionObserver] defined? *)
  observer : option (list nat);    (* the constant [observer]: its targets *)
  console : list LogEntry;
  alerts : list string;
  timers : list Timer;
  nextTimer : nat;
  cells : list (nat * option nat); (* the [timeout] variable of each debounce closure *)
  now : Z;
  pageYOffset : Z;
  requests : list Request }.

Definition with_dom (d : Node) (dt : list Node) (p : Page) : Page :=
  mkPage d dt (listeners p) (hasIntersectionObserver p) (observer p)
         (console p) (alerts p) (timers p) (nextTimer p) (cells p) (now p)
         (pageYOffset p) (requests p).
Definition with_listeners (l : list Listener) (p : Page) : Page :=
  mkPage (dom p) (detached p) l (hasIntersectionObserver p) (observer p)
         (console p) (alerts p) (timers p) (nextTimer p) (cells p) (now p)
         (pageYOffset p) (requests p).
Definition with_observer (o : option (list nat)) (p : Page) : Page :=
  mkPage (dom p) (detached p) (listeners p) (hasIntersectionObserver p) o
         (console p) (alerts p) (timers p) (nextTimer p) (cells p) (now p)
         (pageYOffset p) (requests p).
Definition with_console (c : list LogEntry) (p : Page) : Page :=
  mkPage (dom p) (detached p) (listeners p) (hasIntersectionObserver p)
         (observer p) c (alerts p) (timers p) (nextTimer p) (cells p) (now p)
         (pageYOffset p) (requests p).
Definition with_alerts (a : list string) (p : Page) : Page :=
  mkPage (dom p) (detached p) (listeners p) (hasIntersectionObserver p)
         (observer p) (console p) a (timers p) (nextTimer p) (cells p) (now p)
         (pageYOffset p) (requests p).
Definition with_timers (t : list Timer) (nx : nat) (p : Page) : Page :=
  mkPage (dom p) (detached p) (listeners p) (hasIntersectionObserver p)
         (observer p) (console p) (alerts p) t nx (cells p) (now p)
         (pageYOffset p) (requests p).
Definition with_cells (c : list (nat * option nat)) (p : Page) : Page :=
  mkPage (dom p) (detached p) (listeners p) (hasIntersectionObserver p)
         (observer p) (console p) (alerts p) (timers p) (nextTimer p) c (now p)
         (pageYOffset p) (requests p).
Definition with_now (t : Z) (p : Page) : Page :=
  mkPage (dom p) (detached p) (listeners p) (hasIntersectionObserver p)
         (observer p) (console p) (alerts p) (timers p) (nextTimer p) (cells p) t
         (pageYOffset p) (requests p).
Definition with_pageYOffset (y : Z) (p : Page) : Page :=
  mkPage (dom p) (detached p) (listeners p) (hasIntersectionObserver p)
         (observer p) (console p) (alerts p) (timers p) (nextTimer p) (cells p)
         (now p) y (requests p).
Definition with_requests (r : list Request) (p : Page) : Page :=
  mkPage (dom p) (detached p) (listeners p) (hasIntersectionObserver p)
         (observer p) (console p) (alerts p) (timers p) (nextTimer p) (cells p)
         (now p) (pageYOffset p) r.

(** *** State and exception monad

    A thrown error keeps the state reached so far: what a handler wrote
    before it threw stays written. *)
Definition M (A : Type) : Type := Page -> Completion A * Page.

Definition ret {A} (a : A) : M A := fun p => (Normal a, p).
Definition throw {A} (e : JsError) : M A := fun p => (Throw e, p).
Definition bind {A B} (m : M A) (k : A -> M B) : M B :=
  fun p => match m p with
           | (Normal a, p') => k a p'
           | (Throw e, p') => (Throw e, p')
           end.
Definition get : M Page := fun p => (Normal p, p).
Definition modify (f : Page -> Page) : M unit := fun p => (Normal tt, f p).

(** [try { m } catch (error) { h error }] *)
Definition try_catch {A} (m : M A) (h : JsError -> M A) : M A :=
  fun p => match m p with
           | (Normal a, p') => (Normal a, p')
           | (Throw e, p') => h e p'
           end.

Declare Scope js_scope.
Delimit Scope js_scope with js.
Notation "x <- c1 ;; c2" := (bind c1 (fun x => c2))
  (at level 61, c1 at next level, right associativity) : js_scope.
Notation "c1 ;; c2" := (bind c1 (fun _ => c2))
  (at level 61, right associativity) : js_scope.
Open Scope js_scope.

(** [list.forEach(f)] *)
Fixpoint forEach {A} (l : list A) (f : A -> M unit) : M unit :=
  match l with
  | [] => ret tt
  | a :: l' => f a ;; forEach l' f
  end.

(** A [forEach] whose callback assigns a variable of the enclosing scope:
    the variable is threaded through the iterations. *)
Fixpoint forEach_var {A V} (l : list A) (v : V) (f : V -> A -> M V) : M V :=
  match l with
  | [] => ret v
  | a :: l' => v' <- f v a ;; forEach_var l' v' f
  end.

(** Reading a property of [o]: a [TypeError] when [o] is null. *)
Definition prop {A B} (o : option A) (name : string) (f : A -> B) : M B :=
  match o with
  | Some a => ret (f a)
  | None => throw (TypeError ("Cannot read properties of null (reading '" ++ name ++ "')")%string)
  end.

End Js.

(* ================================================================== *)
(** ** Browser primitives *)
(* ================================================================== *)

Module Browser.
Import Dom Js.

(** [document.querySelectorAll(sel)]: a static list, in document order. *)
Definition querySelectorAll (sel : Selector) : M (list Node) :=
  p <- get ;; ret (select sel [] (dom p)).

(** [document.querySelector(sel)]: the first match, or null. *)
Definition querySelector (sel : Selector) : M (option Node) :=
  l <- querySelectorAll sel ;; ret (hd_error l).

(** A write through a reference: it reaches the object whether it is in
    the document or was removed from it. *)
Definition updateElement (i : nat) (f : Node -> Node) : M unit :=
  modify (fun p => with_dom (update i f (dom p)) (map (update i f) (detached p)) p).

(** The object a reference denotes, and its chain of ancestors. *)
Definition path_of (i : nat) (p : Page) : list Node :=
  match path_to i [] (dom p) with
  | Some l => l
  | None =>
      match flat_map (fun d => match path_to i [] d with Some l => [l] | None => [] end)
                     (detached p) with
      | l :: _ => l
      | [] => []
      end
  end.

(** [target.innerHTML = html]: every child node of the target, its text
    included, is replaced by what the parser built; the former child
    elements leave the document. *)
Definition set_innerHTML (target : Node) (html : Html) : M unit :=
  modify (fun p =>
    with_dom (update (nid target) (set_content (h_text html) (h_nodes html)) (dom p))
             (map (update (nid target) (set_content (h_text html) (h_nodes html)))
                  (detached p)
              ++ children target) p).

Definition addEventListener (t : Target) (ty : string) (h : Handler) : M unit :=
  modify (fun p => with_listeners (listeners p ++ [mkListener t ty h]) p).

Definition console_log (msg : string) : M unit :=
  modify (fun p => with_console (console p ++ [Log msg]) p).

Definition console_warn (msg : string) (e : JsError) : M unit :=
  modify (fun p => with_console (console p ++ [Warn msg e]) p).

Definition alert (msg : string) : M unit :=
  modify (fun p => with_alerts (alerts p ++ [msg]) p).

Definition setTimeout (a : TimerAction) (wait : Z) : M nat :=
  p <- get ;;
  modify (with_timers (timers p ++ [mkTimer (nextTimer p) (now p + wait)%Z a])
                      (S (nextTimer p))) ;;
  ret (nextTimer p).

(** [clearTimeout(id)]; [None] stands for [undefined], which clears nothing. *)
Definition clearTimeout (id : option nat) : M unit :=
  match id with
  | None => ret tt
  | Some i =>
      modify (fun p => with_timers (filter (fun t => negb (Nat.eqb (t_id t) i)) (timers p))
                                   (nextTimer p) p)
  end.

Fixpoint cell_lookup (c : nat) (l : list (nat * option nat)) : option nat :=
  match l with
  | [] => None
  | (k, v) :: l' => if Nat.eqb k c then v else cell_lookup c l'
  end.

Definition read_cell (c : nat) : M (option nat) :=
  p <- get ;; ret (cell_lookup c (cells p)).

Definition write_cell (c : nat) (v : option nat) : M unit :=
  modify (fun p => with_cells ((c, v) :: cells p) p).

(** [let timeout;] in a new closure: a variable nobody else holds. *)
Definition new_cell : M nat :=
  p <- get ;;
  let c := S (fold_right Nat.max 0%nat (map fst (cells p))) in
  write_cell c None ;;
  ret c.

(** [new IntersectionObserver(callback, options)] *)
Definition new_IntersectionObserver : M unit :=
  p <- get ;;
  if hasIntersectionObserver p
  then modify (with_observer (Some []))
  else throw (ReferenceError "IntersectionObserver is not defined").

(** [observer.observe(el)]; observing a target twice keeps one entry. *)
Definition observe (i : nat) : M unit :=
  p <- get ;;
  match observer p with
  | Some l =>
      if existsb (Nat.eqb i) l then ret tt
      else modify (with_observer (Some (l ++ [i])))
  | None => throw (ReferenceError "Cannot access 'observer' before initialization")
  end.

(** [fetch(url)] followed by [await]: the call is parked until the
    event loop settles the request. *)
Definition start_fetch (url : string) (target : Selector) : M unit :=
  modify (fun p => with_requests (requests p ++ [mkRequest url target]) p).

End Browser.

(* ================================================================== *)
(** ** js/main.js *)
(* ================================================================== *)

Module MainJs.
Import Dom Js Browser.

Definition by_class (c : string) : Compound := mkCompound None (Some c) None.
Definition by_tag (t : string) : Compound := mkCompound (Some t) None None.

(** The selectors of the script. Tag names are kept in lower case. *)
Definition sel_hamburger : Selector := [Simple (by_class "hamburger")].
Definition sel_navMenu : Selector := [Simple (by_class "nav-menu")].
Definition sel_navMenu_a : Selector :=
  [Descendant (by_class "nav-menu") (by_tag "a")].
Definition sel_header : Selector := [Simple (by_class "header")].
Definition sel_section_id : Selector :=
  [Simple (mkCompound (Some "section") None (Some (AttrPresent "id")))].
Definition sel_navMenu_hash : Selector :=
  [Descendant (by_class "nav-menu")
              (mkCompound (Some "a") None (Some (AttrPrefix "href" "#")))].
Definition sel_learnMore : Selector := [Simple (by_class "learn-more")].
Definition sel_timelineItem : Selector := [Simple (by_class "timeline-item")].
Definition sel_animated : Selector :=
  [Simple (by_class "scenario-card"); Simple (by_class "timeline-item");
   Simple (by_class "resource-item")].

(** A JS value that is a string or null, as it prints in a template. *)
Definition template (v : option string) : string :=
  match v with Some s => s | None => "null" end.

(** [a === b] for a string-or-null and a string. *)
Definition strict_eq (a : option string) (b : string) : bool :=
  match a with Some s => String.eqb s b | None => false end.

(** main.js 2-20 *)
Definition menuInit : M unit :=
  hamburger <- querySelector sel_hamburger ;;
  navMenu <- querySelector sel_navMenu ;;
  match hamburger, navMenu with
  | Some h, Some m =>
      addEventListener (TElement (nid h)) "click" (HamburgerClick (nid h) (nid m)) ;;
      links <- querySelectorAll sel_navMenu_a ;;
      forEach links (fun link =>
        addEventListener (TElement (nid link)) "click" (NavLinkClick (nid h) (nid m)))
  | _, _ => ret tt
  end.

(** main.js 7-10 *)
Definition hamburgerClick (hamburger navMenu : nat) : M unit :=
  updateElement hamburger (classList_toggle "active") ;;
  updateElement navMenu (classList_toggle "active").

(** main.js 14-17 *)
Definition navLinkClick (hamburger navMenu : nat) : M unit :=
  updateElement hamburger (classList_remove "active") ;;
  updateElement navMenu (classList_remove "active").

(** main.js 43-51: one iteration of the loop over the sections;
    [currentSection] is the variable of the enclosing handler. *)
Definition section_step (currentSection : option string) (section : Node)
  : M (option string) :=
  let sectionTop := offsetTop section in
  let sectionHeight := clientHeight section in
  header <- querySelector sel_header ;;
  headerHeight <- prop header "offsetHeight" offsetHeight ;;
  p <- get ;;
  if (pageYOffset p >=? sectionTop - headerHeight - 100)%Z
  then ret (getAttribute "id" section)
  else ret currentSection.

(** main.js 53-58: one iteration of the loop over the links. *)
Definition link_step (currentSection : option string) (link : Node) : M unit :=
  updateElement (nid link) (classList_remove "active") ;;
  if strict_eq (getAttribute "href" link) ("#" ++ template currentSection)%string
  then updateElement (nid link) (classList_add "active")
  else ret tt.

(** main.js 37-59 *)
Definition scrollSpy : M unit :=
  sections <- querySelectorAll sel_section_id ;;
  navLinks <- querySelectorAll sel_navMenu_hash ;;
  currentSection <- forEach_var sections (Some "") section_step ;;
  forEach navLinks (link_step currentSection).

(** main.js 62-74 *)
Definition learnMoreInit : M unit :=
  learnMoreButtons <- querySelectorAll sel_learnMore ;;
  forEach learnMoreButtons (fun button =>
    addEventListener (TElement (nid button)) "click" LearnMoreClick).

(** The characters a string literal cannot hold as they are: the double
    quote and the line feed of [\n]. Text outside ASCII is held as the
    UTF-8 bytes of the source file. *)
Definition quote : string := String (Ascii.ascii_of_nat 34) EmptyString.
Definition newline : string := String (Ascii.ascii_of_nat 10) EmptyString.

(** main.js 71: the template literal of the alert. *)
Definition learnMoreMessage (title : string) : string :=
  ("Learning more about: " ++ quote ++ title ++ quote ++ newline ++ newline
   ++ "This feature would normally open a detailed page with:" ++ newline
   ++ "• Historical context" ++ newline
   ++ "• Key figures involved" ++ newline
   ++ "• Timeline of events" ++ newline
   ++ "• Alternative outcomes" ++ newline
   ++ "• Interactive elements")%string.

(** main.js 66-72 *)
Definition learnMoreClick (this : Target) : M unit :=
  match this with
  | TElement i =>
      p <- get ;;
      let card := closest (by_class "scenario-card") (path_of i p) in
      h3 <- prop card "querySelector" (fun c => hd_error (select_within [Simple (by_tag "h3")] c)) ;;
      title <- prop h3 "textContent" textContent ;;
      alert (learnMoreMessage title)
  | _ => throw (TypeError "this.closest is not a function")
  end.

(** main.js 77-98 *)
Definition timelineInit : M unit :=
  timelineItems <- querySelectorAll sel_timelineItem ;;
  forEach timelineItems (fun item =>
    addEventListener (TElement (nid item)) "click" TimelineClick ;;
    updateElement (nid item) (set_cursor "pointer") ;;
    updateElement (nid item) (set_transition "transform 0.2s ease")).

(** main.js 81-92 *)
Definition timelineClick (this : Target) : M unit :=
  match this with
  | TElement i =>
      p <- get ;;
      let h4 := match path_of i p with
                | self :: _ => hd_error (select_within [Simple (by_tag "h4")] self)
                | [] => None
                end in
      title <- prop h4 "textContent" textContent ;;
      updateElement i (set_transform "scale(1.02)") ;;
      setTimeout (ResetScale i) 200 ;;
      console_log ("Timeline event clicked: " ++ title)%string
  | _ => throw (TypeError "this.querySelector is not a function")
  end.

(** main.js 101-104. Which elements intersect, and when, is decided by
    the browser from these options; the event loop delivers the entries. *)
Record ObserverOptions : Type := mkObserverOptions {
  threshold : QArith_base.Q;
  rootMargin : string }.

Definition observerOptions : ObserverOptions :=
  mkObserverOptions (QArith_base.Qmake 1 10) "0px 0px -50px 0px".

(** main.js 106-113: the callback given to the observer. *)
Definition observerCallback (entries : list (nat * bool)) : M unit :=
  forEach entries (fun entry =>
    if snd entry
    then updateElement (fst entry) (set_opacity "1") ;;
         updateElement (fst entry) (set_transform "translateY(0)")
    else ret tt).

(** main.js 116-125 *)
Definition animateInit : M unit :=
  animatedElements <- querySelectorAll sel_animated ;;
  forEach animatedElements (fun el =>
    updateElement (nid el) (set_opacity "0") ;;
    updateElement (nid el) (set_transform "translateY(20px)") ;;
    updateElement (nid el) (set_transition "opacity 0.6s ease, transform 0.6s ease") ;;
    observe (nid el)).

(** main.js 128-138 *)
Definition escapeKey (e : Event) : M unit :=
  match e with
  | KeyDown key =>
      if String.eqb key "Escape" then
        navMenu <- querySelector sel_navMenu ;;
        hamburger <- querySelector sel_hamburger ;;
        match navMenu with
        | Some m =>
            if classList_contains "active" m then
              updateElement (nid m) (classList_remove "active") ;;
              h <- prop hamburger "classList" nid ;;
              updateElement h (classList_remove "active")
            else ret tt
        | None => ret tt
        end
      else ret tt
  | _ => ret tt
  end.

(** main.js 143-150: the function [debounce(func, wait)] returns; [cell]
    is its [timeout] variable. *)
Definition executedFunction (cell : nat) (func : Handler) (wait : Z) (args : Event)
  : M unit :=
  t <- read_cell cell ;;
  clearTimeout t ;;
  id <- setTimeout (Later cell func args) wait ;;
  write_cell cell (Some id).

(** main.js 141-151: [debounce] allocates the [timeout] variable. *)
Definition debounce (func : Handler) (wait : Z) : M Handler :=
  timeout <- new_cell ;;
  ret (Debounced timeout func wait).

(** The script itself, top to bottom. *)
Definition main_js : M unit :=
  addEventListener TDocument "DOMContentLoaded" MenuInit ;;
  addEventListener TWindow "scroll" ScrollSpy ;;
  addEventListener TDocument "DOMContentLoaded" LearnMoreInit ;;
  addEventListener TDocument "DOMContentLoaded" TimelineInit ;;
  new_IntersectionObserver ;;
  addEventListener TDocument "DOMContentLoaded" AnimateInit ;;
  addEventListener TDocument "keydown" EscapeKey ;;
  console_log "🏛️ Welcome to AltHistLearn - Exploring Alternative History!" ;;
  console_log "📚 This educational platform helps you discover how different choices could have shaped our world." ;;
  console_log "🔍 Explore scenarios, timelines, and learning resources to expand your historical knowledge.".

End MainJs.

(* ================================================================== *)
(** ** js/includes.js *)
(* ================================================================== *)

Module IncludesJs.
Import Dom Js Browser.

(** ['[data-include="name"]'] *)
Definition sel_include (name : string) : Selector :=
  [Simple (mkCompound None None (Some (AttrEquals "data-include" name)))].

(** [await promise]: the value, or the rejection thrown at the await. *)
Definition await_fetch (o : FetchOutcome) : M Response :=
  match o with
  | Resolved r => ret r
  | Rejected e => throw e
  end.

Definition await_text (r : Response) : M Html :=
  match body r with
  | BodyText html => ret html
  | BodyError e => throw e
  end.

(** includes.js 5-16, from the call to the first [await]. *)
Definition loadHTML (url : string) (targetSelector : Selector) : M unit :=
  start_fetch url targetSelector.

(** includes.js 5-16, from the settlement of [fetch(url)] to the end.
    The completion is that of the promise [loadHTML] returned. *)
Definition loadHTML_resume (url : string) (targetSelector : Selector)
           (o : FetchOutcome) : M unit :=
  try_catch
    (response <- await_fetch o ;;
     html <- await_text response ;;
     targetElement <- querySelector targetSelector ;;
     match targetElement with
     | Some t => set_innerHTML t html
     | None => ret tt
     end)
    (fun error => console_warn ("Could not load " ++ url ++ ":")%string error).

(** includes.js 2-21 *)
Definition includesInit : M unit :=
  loadHTML "../includes/header.html" (sel_include "header") ;;
  loadHTML "../includes/footer.html" (sel_include "footer").

Definition includes_js : M unit :=
  addEventListener TDocument "DOMContentLoaded" IncludesInit.

End IncludesJs.

(* ================================================================== *)
(** ** The event loop *)
(* ================================================================== *)

Module Loop.
Import Dom Js Browser MainJs IncludesJs.

(** Calling a function value with [this] and the event object. *)
Definition invoke (h : Handler) (this : Target) (e : Event) : M unit :=
  match h with
  | MenuInit => menuInit
  | HamburgerClick hb nm => hamburgerClick hb nm
  | NavLinkClick hb nm => navLinkClick hb nm
  | ScrollSpy => scrollSpy
  | LearnMoreInit => learnMoreInit
  | LearnMoreClick => learnMoreClick this
  | TimelineInit => timelineInit
  | TimelineClick => timelineClick this
  | AnimateInit => animateInit
  | EscapeKey => escapeKey e
  | IncludesInit => includesInit
  | Debounced cell func wait => executedFunction cell func wait e
  end.

(** main.js 86-88 and 144-147: the two timer callbacks. *)
Definition run_timer (a : TimerAction) : M unit :=
  match a with
  | ResetScale this => updateElement this (set_transform "scale(1)")
  | Later cell func args =>
      t <- read_cell cell ;;
      clearTimeout t ;;
      invoke func TWindow args
  end.

(** What the event loop ran, and how it completed. *)
Inductive Job : Type :=
| JListener (h : Handler)
| JObserver
| JLoadHTML (url : string)
| JTimer (a : TimerAction)
| JScript (name : string).

Record Run : Type := mkRun {
  job : Job;
  result : Completion unit }.

(** One callback runs to completion; an error it throws is reported on
    the console and does not reach the next callback. *)
Definition run_job (j : Job) (m : M unit) (p : Page) : Page * list Run :=
  match m p with
  | (Normal _, p') => (p', [mkRun j (Normal tt)])
  | (Throw e, p') => (with_console (console p' ++ [Uncaught e]) p', [mkRun j (Throw e)])
  end.

Definition target_eqb (a b : Target) : bool :=
  match a, b with
  | TDocument, TDocument => true
  | TWindow, TWindow => true
  | TElement i, TElement j => Nat.eqb i j
  | _, _ => false
  end.

(** The listeners an event of type [ty] reaches along its propagation
    path, in the order they run. *)
Definition listeners_on (path : list Target) (ty : string) (p : Page) : list Listener :=
  flat_map (fun t =>
    filter (fun l => target_eqb (l_target l) t && String.eqb (l_type l) ty) (listeners p))
    path.

Fixpoint run_listeners (ls : list Listener) (e : Event) (p : Page) : Page * list Run :=
  match ls with
  | [] => (p, [])
  | l :: ls' =>
      let (p1, r1) := run_job (JListener (l_handler l))
                              (invoke (l_handler l) (l_target l) e) p in
      let (p2, r2) := run_listeners ls' e p1 in
      (p2, r1 ++ r2)
  end.

Definition dispatch (path : list Target) (ty : string) (e : Event) (p : Page)
  : Page * list Run :=
  run_listeners (listeners_on path ty p) e p.

(** The pending timer that fires next: the earliest due one, the oldest
    among equals, if it is due by [limit]. *)
Fixpoint earliest (ts : list Timer) : option Timer :=
  match ts with
  | [] => None
  | t :: ts' =>
      match earliest ts' with
      | Some u => if (t_due u <? t_due t)%Z then Some u else Some t
      | None => Some t
      end
  end.

Definition next_due (limit : Z) (p : Page) : option Timer :=
  match earliest (timers p) with
  | Some t => if (t_due t <=? limit)%Z then Some t else None
  | None => None
  end.

(** Fire the timers due by [limit], at most [fuel] of them. *)
Fixpoint run_timers (fuel : nat) (limit : Z) (p : Page) : Page * list Run :=
  match fuel with
  | O => (p, [])
  | S fuel' =>
      match next_due limit p with
      | None => (p, [])
      | Some t =>
          let p0 := with_now (Z.max (now p) (t_due t))
                      (with_timers (filter (fun u => negb (Nat.eqb (t_id u) (t_id t))) (timers p))
                                   (nextTimer p) p) in
          let (p1, r1) := run_job (JTimer (t_action t)) (run_timer (t_action t)) p0 in
          let (p2, r2) := run_timers fuel' limit p1 in
          (p2, r1 ++ r2)
      end
  end.

Fixpoint take_request (url : string) (rs : list Request) : option (Request * list Request) :=
  match rs with
  | [] => None
  | r :: rs' =>
      if String.eqb (r_url r) url then Some (r, rs')
      else match take_request url rs' with
           | Some (q, rest) => Some (q, r :: rest)
           | None => None
           end
  end.

(** The entries the browser reports: those of observed targets. *)
Definition observed_entries (entries : list (nat * bool)) (p : Page) : list (nat * bool) :=
  match observer p with
  | Some l => filter (fun e => existsb (Nat.eqb (fst e)) l) entries
  | None => []
  end.

(** One turn of the event loop. *)
Definition step (e : Event) (p : Page) : Page * list Run :=
  match e with
  | DOMContentLoaded => dispatch [TDocument; TWindow] "DOMContentLoaded" e p
  | Scroll y => dispatch [TDocument; TWindow] "scroll" e (with_pageYOffset y p)
  | Click t =>
      match path_to t [] (dom p) with
      | Some path =>
          dispatch (map (fun n => TElement (nid n)) path ++ [TDocument; TWindow]) "click" e p
      | None => (p, [])
      end
  | KeyDown _ => dispatch [TDocument; TWindow] "keydown" e p
  | Intersect entries =>
      match observed_entries entries p with
      | [] => (p, [])
      | es => run_job JObserver (observerCallback es) p
      end
  | FetchSettled url o =>
      match take_request url (requests p) with
      | Some (r, rest) =>
          run_job (JLoadHTML url) (loadHTML_resume (r_url r) (r_target r) o)
                  (with_requests rest p)
      | None => (p, [])
      end
  | Elapse ms =>
      let limit := (now p + Z.max 0 ms)%Z in
      let (p', rs) := run_timers (List.length (timers p)) limit p in
      (with_now limit p', rs)
  end.

(** A sequence of turns, with everything that ran. *)
Fixpoint run (es : list Event) (p : Page) : Page * list Run :=
  match es with
  | [] => (p, [])
  | e :: es' =>
      let (p1, r1) := step e p in
      let (p2, r2) := run es' p1 in
      (p2, r1 ++ r2)
  end.

(** Evaluating a script: an error thrown at top level ends it there. *)
Definition load_script (name : string) (script : M unit) (p : Page) : Page * list Run :=
  run_job (JScript name) script p.

(** A page as the parser leaves it, before any script ran. *)
Definition fresh_page (root : Node) (io : bool) : Page :=
  mkPage root [] [] io None [] [] [] 0 [] 0%Z 0%Z [].

(** A page that loads main.js only, as index.html does. *)
Definition boot_main (root : Node) (io : bool) : Page :=
  fst (load_script "js/main.js" main_js (fresh_page root io)).

(** A page that loads includes.js and then main.js. *)
Definition boot_both (root : Node) (io : bool) : Page :=
  fst (load_script "js/main.js" main_js
         (fst (load_script "js/includes.js" includes_js (fresh_page root io)))).

End Loop.

(* ================================================================== *)
(** ** Sample documents *)
(* ================================================================== *)

Module Pages.
Import Dom Js.

Definition el (i : nat) (tag : string) (cls : list string)
           (at_ : list (string * string)) (kids : list Node) : Node :=
  mkNode i tag at_ cls noStyle "" 0 0 0 kids.

Definition box (i : nat) (tag : string) (cls : list string)
           (at_ : list (string * string)) (top height : Z) (kids : list Node) : Node :=
  mkNode i tag at_ cls noStyle "" top height height kids.

Definition titled (i : nat) (tag : string) (title : string) : Node :=
  mkNode i tag [] [] noStyle title 0 0 0 [].

(** includes/header.html as the component guide gives it: a fixed bar 70
    pixels high with three section links and the hamburger. *)
Definition header_html : Html :=
  fragment
    [box 10 "header" ["header"] [] 0 70
       [el 11 "nav" ["navbar"] []
          [el 12 "ul" ["nav-menu"] []
             [el 13 "li" [] [] [el 14 "a" [] [("href", "#home")] []];
              el 15 "li" [] [] [el 16 "a" [] [("href", "#scenarios")] []];
              el 17 "li" [] [] [el 18 "a" [] [("href", "#timeline")] []]];
           el 19 "div" ["hamburger"] [] [el 20 "span" ["bar"] [] []]]]].

(** Three sections with tops 0, 500 and 1000; the second holds a scenario
    card, the third a timeline item. *)
Definition sections : list Node :=
  [box 30 "section" ["hero"] [("id", "home")] 0 500 [];
   box 31 "section" [] [("id", "scenarios")] 500 500
     [el 40 "div" ["scenario-card"] []
        [titled 41 "h3" "What if Rome Never Fell?";
         el 42 "button" ["learn-more"] [] []]];
   box 32 "section" [] [("id", "timeline")] 1000 500
     [el 50 "div" ["timeline-item"] [] [titled 51 "h4" "1066"]]].

(** A page with the header in its own markup. *)
Definition index_page : Node :=
  el 1 "body" [] [] (h_nodes header_html ++ sections).

(** A page that receives header and footer from includes.js; [fallback]
    is what the author put into the header placeholder. *)
Definition scenario_page_with (fallback : list Node) : Node :=
  el 1 "body" [] []
     ([el 2 "div" [] [("data-include", "header")] fallback]
      ++ sections
      ++ [el 3 "div" [] [("data-include", "footer")] []]).

Definition scenario_page : Node := scenario_page_with [].

Definition static_fallback : list Node := [titled 4 "p" "AltHistLearn"].

(** The body of a 404 answer. *)
Definition not_found_html : Html := fragment [titled 90 "h1" "404 Not Found"].

(** The same markup with the menu already open. *)
Definition open_menu : Node -> Node :=
  rewrite (fun n => if (Nat.eqb (nid n) 12 || Nat.eqb (nid n) 19)%bool
                    then classList_add "active" n else n).

(** The header fragment authored with the menu open. *)
Definition open_header_html : Html :=
  mkHtml (h_text header_html) (map open_menu (h_nodes header_html)).

(** A page whose sections start below a banner and whose menu has two
    links to the first section and a bare "#" link. *)
Definition twin_links_page : Node :=
  el 1 "body" [] []
     [box 10 "header" ["header"] [] 0 70
        [el 12 "ul" ["nav-menu"] []
           [el 14 "a" [] [("href", "#home")] [];
            el 16 "a" [] [("href", "#home")] [];
            el 18 "a" [] [("href", "#")] []]];
      box 25 "div" ["banner"] [] 0 400 [];
      box 30 "section" [] [("id", "home")] 400 500 [];
      box 31 "section" [] [("id", "more")] 900 500 []].

(** An open menu panel on a page without the hamburger. *)
Definition panel_only_page : Node :=
  el 1 "body" [] []
     [box 10 "header" ["header"] [] 0 70
        [el 12 "ul" ["nav-menu"; "active"] []
           [el 14 "a" [] [("href", "#home")] []]]].

End Pages.

(* ================================================================== *)
(** ** Facts about the DOM *)
(* ================================================================== *)

Module DomFacts.
Import Dom.

(** Induction over a tree, with the hypothesis on every child. *)
Lemma Node_tree_ind (P : Node -> Prop) :
  (forall j tg at_ cl st tx ot oh ch kids,
      Forall P kids -> P (mkNode j tg at_ cl st tx ot oh ch kids)) ->
  forall n, P n.
Proof.
  intros step.
  fix IH 1.
  intros [j tg at_ cl st tx ot oh ch kids].
  apply step.
  induction kids as [|k kids IHk]; constructor.
  - apply IH.
  - exact IHk.
Qed.

Lemma nodupb_NoDup l : nodupb l = true <-> NoDup l.
Proof.
  induction l as [|i l IH]; simpl.
  - split; [constructor | reflexivity].
  - rewrite andb_true_iff, negb_true_iff, IH. split.
    + intros [Hn Hd]. constructor; [|exact Hd].
      intros Hin. assert (existsb (Nat.eqb i) l = true) as E.
      { apply existsb_exists. exists i. split; [exact Hin | apply Nat.eqb_refl]. }
      congruence.
    + intros Hd. inversion Hd as [|? ? Hni Hd']; subst. split; [|exact Hd'].
      destruct (existsb (Nat.eqb i) l) eqn:E; [|reflexivity].
      apply existsb_exists in E. destruct E as [x [Hx Hix]].
      apply Nat.eqb_eq in Hix. subst x. contradiction.
Qed.

(** *** Local functions: those that leave identity, attributes and children alone *)

Record local (g : Node -> Node) : Prop := mkLocal {
  local_nid : forall n, nid (g n) = nid n;
  local_tag : forall n, tagName (g n) = tagName n;
  local_attrs : forall n, attrs (g n) = attrs n;
  local_children : forall n, children (g n) = children n;
  local_set_children : forall k n, g (set_children k n) = set_children k (g n) }.

Lemma local_id : local (fun n => n).
Proof. constructor; reflexivity. Qed.

Lemma local_compose g1 g2 : local g1 -> local g2 -> local (fun n => g2 (g1 n)).
Proof.
  intros [a1 b1 c1 d1 e1] [a2 b2 c2 d2 e2]. constructor; intros.
  - rewrite a2. apply a1.
  - rewrite b2. apply b1.
  - rewrite c2. apply c1.
  - rewrite d2. apply d1.
  - rewrite e1. apply e2.
Qed.

Lemma local_set_classList (h : list string -> list string) :
  local (fun n => set_classList (h (classList n)) n).
Proof. constructor; intros; try reflexivity; destruct n; reflexivity. Qed.

Lemma local_set_style (h : Style -> Style) :
  local (fun n => set_style (h (style n)) n).
Proof. constructor; intros; try reflexivity; destruct n; reflexivity. Qed.

Lemma local_classList_remove c : local (classList_remove c).
Proof. apply (local_set_classList (remove c)). Qed.
Lemma local_classList_add c : local (classList_add c).
Proof. apply (local_set_classList (add c)). Qed.
Lemma local_classList_toggle c : local (classList_toggle c).
Proof. apply (local_set_classList (toggle c)). Qed.
Lemma local_set_opacity v : local (set_opacity v).
Proof. apply (local_set_style (fun s => mkStyle v (transform s) (transition s) (cursor s))). Qed.
Lemma local_set_transform v : local (set_transform v).
Proof. apply (local_set_style (fun s => mkStyle (opacity s) v (transition s) (cursor s))). Qed.
Lemma local_set_transition v : local (set_transition v).
Proof. apply (local_set_style (fun s => mkStyle (opacity s) (transform s) v (cursor s))). Qed.
Lemma local_set_cursor v : local (set_cursor v).
Proof. apply (local_set_style (fun s => mkStyle (opacity s) (transform s) (transition s) v)). Qed.

(** The conditional function an [update] applies everywhere. *)
Definition at_id (i : nat) (f : Node -> Node) (n : Node) : Node :=
  if Nat.eqb (nid n) i then f n else n.

Lemma local_at_id i f : local f -> local (at_id i f).
Proof.
  intros [a b c d e]. unfold at_id. constructor; intros.
  - destruct (Nat.eqb (nid n) i); auto.
  - destruct (Nat.eqb (nid n) i); auto.
  - destruct (Nat.eqb (nid n) i); auto.
  - destruct (Nat.eqb (nid n) i); auto.
  - destruct n; simpl. destruct (Nat.eqb nid0 i); auto.
Qed.

Create HintDb dom.
#[export] Hint Resolve local_id local_compose local_classList_remove
  local_classList_add local_classList_toggle local_set_opacity
  local_set_transform local_set_transition local_set_cursor local_at_id : dom.

Lemma update_rewrite i f n : update i f n = rewrite (at_id i f) n.
Proof.
  induction n as [j tg at_ cl st tx ot oh ch kids IH] using Node_tree_ind.
  simpl. unfold at_id at 1. simpl.
  assert (map (update i f) kids = map (rewrite (at_id i f)) kids) as E.
  { induction IH as [|k kids Hk _ IHf]; simpl; [reflexivity|]. now rewrite Hk, IHf. }
  rewrite E. reflexivity.
Qed.

Lemma rewrite_unfold g n :
  rewrite g n = g (set_children (map (rewrite g) (children n)) n).
Proof. destruct n; reflexivity. Qed.

Lemma rewrite_local g n : local g ->
  rewrite g n = set_children (map (rewrite g) (children n)) (g n).
Proof. intros L. rewrite rewrite_unfold. apply (local_set_children L). Qed.

Lemma children_set_children k n : children (set_children k n) = k.
Proof. reflexivity. Qed.

Lemma set_children_twice k m n : set_children k (set_children m n) = set_children k n.
Proof. reflexivity. Qed.

Lemma rewrite_rewrite g1 g2 n : local g1 ->
  rewrite g2 (rewrite g1 n) = rewrite (fun x => g2 (g1 x)) n.
Proof.
  intros L1.
  induction n as [j tg at_ cl st tx ot oh ch kids IH] using Node_tree_ind.
  set (n0 := mkNode j tg at_ cl st tx ot oh ch kids).
  assert (map (rewrite g2) (map (rewrite g1) kids)
          = map (rewrite (fun x => g2 (g1 x))) kids) as Ek.
  { rewrite map_map.
    induction IH as [|k kids' Hk _ IHf]; simpl; [reflexivity|]. now rewrite Hk, IHf. }
  transitivity (g2 (set_children (map (rewrite g2) (map (rewrite g1) kids)) (g1 n0))).
  - rewrite (rewrite_local n0 L1). rewrite rewrite_unfold.
    rewrite children_set_children, set_children_twice. reflexivity.
  - rewrite Ek. rewrite (rewrite_unfold (fun x => g2 (g1 x))).
    rewrite (local_set_children L1). reflexivity.
Qed.

Lemma rewrite_id n : rewrite (fun x => x) n = n.
Proof.
  induction n as [j tg at_ cl st tx ot oh ch kids IH] using Node_tree_ind.
  simpl. f_equal.
  induction IH as [|k kids Hk _ IHf]; simpl; [reflexivity|]. now rewrite Hk, IHf.
Qed.

Lemma rewrite_ext g1 g2 n : (forall x, g1 x = g2 x) -> rewrite g1 n = rewrite g2 n.
Proof.
  intros E.
  induction n as [j tg at_ cl st tx ot oh ch kids IH] using Node_tree_ind.
  simpl. rewrite E. f_equal. f_equal.
  induction IH as [|k kids Hk _ IHf]; simpl; [reflexivity|]. now rewrite Hk, IHf.
Qed.

(** *** Subsequences *)

Inductive subseq {A : Type} : list A -> list A -> Prop :=
| subseq_nil : subseq [] []
| subseq_skip : forall x l1 l2, subseq l1 l2 -> subseq l1 (x :: l2)
| subseq_keep : forall x l1 l2, subseq l1 l2 -> subseq (x :: l1) (x :: l2).

Lemma subseq_refl {A} (l : list A) : subseq l l.
Proof. induction l; constructor; assumption. Qed.

Lemma subseq_nil_l {A} (l : list A) : subseq [] l.
Proof. induction l; constructor; assumption. Qed.

Lemma subseq_app {A} (a a' b b' : list A) :
  subseq a a' -> subseq b b' -> subseq (a ++ b) (a' ++ b').
Proof. intros Ha Hb. induction Ha; simpl; try constructor; assumption. Qed.

Lemma subseq_In {A} (l1 l2 : list A) x : subseq l1 l2 -> In x l1 -> In x l2.
Proof.
  intros H. induction H; simpl; intros Hin; auto.
  destruct Hin; auto.
Qed.

Lemma subseq_map {A B} (f : A -> B) l1 l2 : subseq l1 l2 -> subseq (map f l1) (map f l2).
Proof. intros H. induction H; simpl; constructor; assumption. Qed.

Lemma subseq_NoDup {A} (l1 l2 : list A) : subseq l1 l2 -> NoDup l2 -> NoDup l1.
Proof.
  intros H. induction H; intros Hd.
  - constructor.
  - inversion Hd; subst. auto.
  - inversion Hd; subst. constructor; auto.
    intros Hin. eapply subseq_In in Hin; eauto.
Qed.

Lemma subseq_flat_map {A B} (f g : A -> list B) l :
  Forall (fun a => subseq (f a) (g a)) l -> subseq (flat_map f l) (flat_map g l).
Proof.
  intros H. induction H; simpl; [constructor|]. apply subseq_app; assumption.
Qed.

(** *** Selection *)

Lemma subtree_unfold n : subtree n = n :: flat_map subtree (children n).
Proof. destruct n; reflexivity. Qed.

Lemma select_unfold sel ancs n :
  select sel ancs n =
  (if matches sel ancs n then [n] else []) ++ flat_map (select sel (n :: ancs)) (children n).
Proof. destruct n; reflexivity. Qed.

Lemma select_subseq sel n : forall ancs, subseq (select sel ancs n) (subtree n).
Proof.
  induction n as [j tg at_ cl st tx ot oh ch kids IH] using Node_tree_ind.
  intros ancs. rewrite select_unfold, subtree_unfold. cbn [children].
  set (n0 := mkNode j tg at_ cl st tx ot oh ch kids).
  assert (subseq (flat_map (select sel (n0 :: ancs)) kids) (flat_map subtree kids)) as Hk.
  { apply subseq_flat_map. eapply Forall_impl; [|exact IH]. intros k Hk. apply Hk. }
  destruct (matches sel ancs n0); simpl; constructor; exact Hk.
Qed.

Lemma select_NoDup sel ancs n :
  unique_ids n = true -> NoDup (map nid (select sel ancs n)).
Proof.
  unfold unique_ids. rewrite nodupb_NoDup. intros H.
  eapply subseq_NoDup; [|exact H]. apply subseq_map, select_subseq.
Qed.

Lemma select_In_subtree sel ancs n x : In x (select sel ancs n) -> In x (subtree n).
Proof. apply subseq_In, select_subseq. Qed.

(** Matching looks at the tag, the classes and the attributes only. *)
Lemma compound_matches_ext c x y :
  tagName x = tagName y -> classList x = classList y -> attrs x = attrs y ->
  compound_matches c x = compound_matches c y.
Proof.
  intros Ht Hc Ha. unfold compound_matches, classList_contains, opt_ok.
  rewrite Ht, Hc.
  destruct (c_attr c) as [[a|a v|a v]|]; simpl; unfold getAttribute; rewrite ?Ha; reflexivity.
Qed.

Definition compounds (x : Complex) : list Compound :=
  match x with
  | Simple c => [c]
  | Descendant a c => [a; c]
  end.

(** [g] does not change what the selector sees. *)
Definition stable (sel : Selector) (g : Node -> Node) : Prop :=
  forall c x, In c (flat_map compounds sel) -> compound_matches c (g x) = compound_matches c x.

Lemma compound_matches_rewrite c g n : local g ->
  compound_matches c (rewrite g n) = compound_matches c (g n).
Proof.
  intros L. rewrite (rewrite_local n L). apply compound_matches_ext; reflexivity.
Qed.

Lemma matches_rewrite sel g ancs n : local g -> stable sel g ->
  matches sel (map (rewrite g) ancs) (rewrite g n) = matches sel ancs n.
Proof.
  intros L S. unfold matches.
  induction sel as [|x sel IH]; simpl; [reflexivity|].
  rewrite IH by (intros c y Hc; apply S; simpl; apply in_or_app; right; exact Hc).
  f_equal.
  assert (forall c, In c (compounds x) -> forall y,
             compound_matches c (rewrite g y) = compound_matches c y) as Hx.
  { intros c Hc y. rewrite compound_matches_rewrite by exact L.
    apply S. simpl. apply in_or_app. left. exact Hc. }
  destruct x as [c|a c]; simpl.
  - apply Hx. left; reflexivity.
  - rewrite (Hx c) by (right; left; reflexivity). f_equal.
    assert (In a (compounds (Descendant a c))) as Ha by (left; reflexivity).
    clear IH. induction ancs as [|y ancs IHa]; simpl; [reflexivity|].
    rewrite (Hx a Ha). now rewrite IHa.
Qed.

Lemma children_rewrite g n : local g ->
  children (rewrite g n) = map (rewrite g) (children n).
Proof. intros L. rewrite (rewrite_local n L). reflexivity. Qed.

Lemma select_rewrite sel g n : local g -> stable sel g ->
  forall ancs,
    select sel (map (rewrite g) ancs) (rewrite g n) = map (rewrite g) (select sel ancs n).
Proof.
  intros L S.
  induction n as [j tg at_ cl st tx ot oh ch kids IH] using Node_tree_ind.
  intros ancs. set (n0 := mkNode j tg at_ cl st tx ot oh ch kids) in *.
  rewrite select_unfold. rewrite matches_rewrite by assumption.
  rewrite (select_unfold sel ancs n0). rewrite map_app. f_equal.
  - destruct (matches sel ancs n0); reflexivity.
  - rewrite children_rewrite by exact L.
    cbn [children n0]. rewrite flat_map_concat_map, map_map.
    rewrite flat_map_concat_map, concat_map, map_map. f_equal.
    rewrite Forall_forall in IH.
    apply map_ext_in. intros k Hk. apply (IH k Hk (n0 :: ancs)).
Qed.

Lemma subtree_rewrite g n : local g ->
  subtree (rewrite g n) = map (rewrite g) (subtree n).
Proof.
  intros L.
  induction n as [j tg at_ cl st tx ot oh ch kids IH] using Node_tree_ind.
  set (n0 := mkNode j tg at_ cl st tx ot oh ch kids) in *.
  rewrite subtree_unfold. rewrite (subtree_unfold n0). simpl map. f_equal.
  rewrite children_rewrite by exact L. cbn [children n0].
  rewrite flat_map_concat_map, map_map.
  rewrite flat_map_concat_map, concat_map, map_map. f_equal.
  rewrite Forall_forall in IH. apply map_ext_in. exact IH.
Qed.

(** The elements of a rewritten tree are the rewritten elements. *)
Lemma in_subtree_rewrite g n x : local g ->
  In x (subtree (rewrite g n)) ->
  exists x0, In x0 (subtree n) /\ x = rewrite g x0.
Proof.
  intros L. rewrite subtree_rewrite by exact L. intros H.
  apply in_map_iff in H. destruct H as [x0 [E H]]. exists x0. auto.
Qed.

Lemma nid_rewrite g n : local g -> nid (rewrite g n) = nid n.
Proof. intros L. rewrite (rewrite_local n L). simpl. apply (local_nid L). Qed.

Lemma attrs_rewrite g n : local g -> attrs (rewrite g n) = attrs n.
Proof. intros L. rewrite (rewrite_local n L). simpl. apply (local_attrs L). Qed.

Lemma classList_rewrite g n : local g -> classList (rewrite g n) = classList (g n).
Proof. intros L. rewrite (rewrite_local n L). reflexivity. Qed.

Lemma style_rewrite g n : local g -> style (rewrite g n) = style (g n).
Proof. intros L. rewrite (rewrite_local n L). reflexivity. Qed.

Lemma unique_ids_rewrite g n : local g -> unique_ids (rewrite g n) = unique_ids n.
Proof.
  intros L. unfold unique_ids. rewrite subtree_rewrite by exact L.
  rewrite map_map. f_equal. apply map_ext. intros x. apply nid_rewrite, L.
Qed.

End DomFacts.

(* ================================================================== *)
(** ** Equations of the monad and of the queries *)
(* ================================================================== *)

Module MonadFacts.
Import Dom Js Browser.

Lemma bind_normal {A B} (m : M A) (k : A -> M B) p a p' :
  m p = (Normal a, p') -> bind m k p = k a p'.
Proof. intros E. unfold bind. rewrite E. reflexivity. Qed.

Lemma bind_throw {A B} (m : M A) (k : A -> M B) p e p' :
  m p = (Throw e, p') -> bind m k p = (Throw e, p').
Proof. intros E. unfold bind. rewrite E. reflexivity. Qed.

Arguments bind_normal {A B m} k {p a p'} _.
Arguments bind_throw {A B m} k {p e p'} _.

Lemma get_eq p : get p = (Normal p, p).
Proof. reflexivity. Qed.

Lemma ret_eq {A} (a : A) p : ret a p = (Normal a, p).
Proof. reflexivity. Qed.

Lemma modify_eq f p : modify f p = (Normal tt, f p).
Proof. reflexivity. Qed.

Lemma querySelectorAll_eq sel p :
  querySelectorAll sel p = (Normal (select sel [] (dom p)), p).
Proof. reflexivity. Qed.

Lemma querySelector_eq sel p :
  querySelector sel p = (Normal (hd_error (select sel [] (dom p))), p).
Proof. reflexivity. Qed.

Lemma prop_some {A B} (a : A) name (f : A -> B) p :
  prop (Some a) name f p = (Normal (f a), p).
Proof. reflexivity. Qed.

Lemma prop_none {A B} name (f : A -> B) p :
  prop None name f p =
  (Throw (TypeError ("Cannot read properties of null (reading '" ++ name ++ "')")%string), p).
Proof. reflexivity. Qed.

End MonadFacts.

(* ================================================================== *)
(** ** Facts about writes through references *)
(* ================================================================== *)

Module PageFacts.
Import Dom Js Browser DomFacts.

(** The page after [g] was applied to every element, attached or not. *)
Definition update_page (g : Node -> Node) (p : Page) : Page :=
  with_dom (rewrite g (dom p)) (map (rewrite g) (detached p)) p.

Lemma updateElement_eq i f p :
  updateElement i f p = (Normal tt, update_page (at_id i f) p).
Proof.
  unfold updateElement, modify, update_page. do 2 f_equal.
  - apply update_rewrite.
  - apply map_ext. intros. apply update_rewrite.
Qed.

Lemma update_page_compose g1 g2 p : local g1 ->
  update_page g2 (update_page g1 p) = update_page (fun x => g2 (g1 x)) p.
Proof.
  intros L. unfold update_page, with_dom. simpl. f_equal.
  - apply rewrite_rewrite, L.
  - rewrite map_map. apply map_ext. intros. apply rewrite_rewrite, L.
Qed.

Lemma update_page_id p : update_page (fun x => x) p = p.
Proof.
  unfold update_page, with_dom. destruct p; simpl. f_equal.
  - apply rewrite_id.
  - rewrite <- (map_id detached0) at 2. apply map_ext. intros. apply rewrite_id.
Qed.

Lemma update_page_ext g1 g2 p : (forall x, g1 x = g2 x) -> update_page g1 p = update_page g2 p.
Proof.
  intros E. unfold update_page. f_equal.
  - apply rewrite_ext, E.
  - apply map_ext. intros. apply rewrite_ext, E.
Qed.

(** A series of writes, first to last. *)
Fixpoint compose_at (us : list (nat * (Node -> Node))) : Node -> Node :=
  match us with
  | [] => fun x => x
  | (i, f) :: us' => fun x => compose_at us' (at_id i f x)
  end.

Definition all_local (us : list (nat * (Node -> Node))) : Prop :=
  Forall (fun u => local (snd u)) us.

Lemma compose_at_local us : all_local us -> local (compose_at us).
Proof.
  induction us as [|[i f] us IH]; intros H; simpl.
  - apply local_id.
  - inversion H; subst. apply (@local_compose (at_id i f) (compose_at us)).
    + apply local_at_id. assumption.
    + apply IH. assumption.
Qed.

Lemma compose_at_app us vs x :
  compose_at (us ++ vs) x = compose_at vs (compose_at us x).
Proof.
  revert x. induction us as [|[i f] us IH]; intros x; simpl; [reflexivity|]. apply IH.
Qed.

Lemma compose_at_miss us x :
  ~ In (nid x) (map fst us) -> compose_at us x = x.
Proof.
  revert x. induction us as [|[i f] us IH]; intros x Hn; simpl; [reflexivity|].
  simpl in Hn. unfold at_id.
  destruct (Nat.eqb (nid x) i) eqn:E.
  - apply Nat.eqb_eq in E. exfalso. apply Hn. left. symmetry. exact E.
  - apply IH. intros Hin. apply Hn. right. exact Hin.
Qed.

Lemma compose_at_hit us i f x :
  all_local us -> NoDup (map fst us) -> In (i, f) us -> nid x = i ->
  compose_at us x = f x.
Proof.
  revert x. induction us as [|[j g] us IH]; intros x HL Hd Hin Hx; simpl.
  - destruct Hin.
  - inversion HL as [|? ? Lg HL']; subst. inversion Hd as [|? ? Hnj Hd']; subst.
    simpl in Lg. unfold at_id. destruct (Nat.eqb (nid x) j) eqn:E.
    + apply Nat.eqb_eq in E. destruct Hin as [Hin|Hin].
      * assert (g = f) as -> by congruence.
        apply compose_at_miss. rewrite (local_nid Lg), E. exact Hnj.
      * exfalso. apply Hnj. rewrite <- E.
        apply (in_map fst) in Hin. exact Hin.
    + destruct Hin as [Hin|Hin].
      * assert (j = nid x) as Ej by congruence.
        rewrite Ej, Nat.eqb_refl in E. discriminate.
      * apply IH; auto.
Qed.

(** *** Class tokens *)

Lemma contains_remove_same c cl : contains c (remove c cl) = false.
Proof.
  unfold contains, remove. induction cl as [|x cl IH]; simpl; [reflexivity|].
  destruct (String.eqb c x) eqn:E; simpl; [exact IH|]. rewrite E. exact IH.
Qed.

Lemma contains_remove_other k c cl :
  String.eqb k c = false -> contains k (remove c cl) = contains k cl.
Proof.
  intros Hk. unfold contains, remove. induction cl as [|x cl IH]; simpl; [reflexivity|].
  destruct (String.eqb c x) eqn:E; simpl.
  - apply String.eqb_eq in E. subst x. rewrite Hk. exact IH.
  - now rewrite IH.
Qed.

Lemma contains_app k a b : contains k (a ++ b) = contains k a || contains k b.
Proof. unfold contains. apply existsb_app. Qed.

Lemma contains_add_same c cl : contains c (add c cl) = true.
Proof.
  unfold add. destruct (contains c cl) eqn:E; [exact E|].
  rewrite contains_app. simpl. rewrite String.eqb_refl. apply orb_true_r.
Qed.

Lemma contains_add_other k c cl :
  String.eqb k c = false -> contains k (add c cl) = contains k cl.
Proof.
  intros Hk. unfold add. destruct (contains c cl); [reflexivity|].
  rewrite contains_app. simpl. rewrite Hk. simpl. apply orb_false_r.
Qed.


Lemma remove_idem c cl : remove c (remove c cl) = remove c cl.
Proof.
  unfold remove. induction cl as [|x cl IH]; simpl; [reflexivity|].
  destruct (String.eqb c x) eqn:E; simpl; [exact IH|]. rewrite E. simpl. now rewrite IH.
Qed.

Lemma remove_absent c cl : contains c cl = false -> remove c cl = cl.
Proof.
  unfold contains, remove. induction cl as [|x cl IH]; simpl; [reflexivity|].
  intros H. apply orb_false_iff in H. destruct H as [H1 H2].
  rewrite H1. simpl. now rewrite IH.
Qed.

(** *** What leaves a selector's view unchanged *)

Lemma stable_style sel (h : Style -> Style) :
  stable sel (fun n => set_style (h (style n)) n).
Proof. intros c x _. apply compound_matches_ext; reflexivity. Qed.

Lemma stable_at_id sel i f : stable sel f -> stable sel (at_id i f).
Proof.
  intros S c x Hc. unfold at_id. destruct (Nat.eqb (nid x) i); [|reflexivity].
  apply S, Hc.
Qed.

Lemma stable_compose sel g1 g2 : stable sel g1 -> stable sel g2 ->
  stable sel (fun x => g2 (g1 x)).
Proof. intros S1 S2 c x Hc. rewrite (S2 c _ Hc). apply S1, Hc. Qed.

Lemma stable_compose_at sel us :
  Forall (fun u => stable sel (snd u)) us -> stable sel (compose_at us).
Proof.
  induction us as [|[i f] us IH]; intros H; simpl.
  - intros c x _. reflexivity.
  - inversion H; subst.
    apply (@stable_compose sel (at_id i f) (compose_at us)).
    + apply stable_at_id. assumption.
    + apply IH. assumption.
Qed.

(** A selector that never mentions the class [k]. *)
Definition avoids (k : string) (sel : Selector) : Prop :=
  forall c, In c (flat_map compounds sel) ->
            match c_class c with Some k' => String.eqb k' k = false | None => True end.

Lemma stable_classes sel k (h : list string -> list string) :
  avoids k sel ->
  (forall k' cl, String.eqb k' k = false -> contains k' (h cl) = contains k' cl) ->
  stable sel (fun n => set_classList (h (classList n)) n).
Proof.
  intros Ha Hh c x Hc. specialize (Ha c Hc).
  unfold compound_matches, classList_contains, opt_ok. simpl.
  destruct (c_class c) as [k'|].
  - rewrite (Hh k' _ Ha).
    destruct (c_attr c) as [[a|a v|a v]|]; reflexivity.
  - destruct (c_attr c) as [[a|a v|a v]|]; reflexivity.
Qed.

Lemma stable_remove sel k : avoids k sel -> stable sel (classList_remove k).
Proof.
  intros Ha. apply (@stable_classes sel k (remove k) Ha).
  intros. now apply contains_remove_other.
Qed.

Lemma stable_add sel k : avoids k sel -> stable sel (classList_add k).
Proof.
  intros Ha. apply (@stable_classes sel k (add k) Ha).
  intros. now apply contains_add_other.
Qed.

End PageFacts.

(* ================================================================== *)
(** ** The scroll-spy handler *)
(* ================================================================== *)

Module ScrollSpyFacts.
Import Dom Js Browser MainJs DomFacts MonadFacts PageFacts.

(** The activation test of main.js 48. *)
Definition passed (y headerHeight : Z) (section : Node) : bool :=
  (y >=? offsetTop section - headerHeight - 100)%Z.

(** The last element of a list that satisfies [f]. *)
Fixpoint last_such {A} (f : A -> bool) (l : list A) : option A :=
  match l with
  | [] => None
  | x :: l' =>
      match last_such f l' with
      | Some y => Some y
      | None => if f x then Some x else None
      end
  end.

Lemma last_such_Some {A} (f : A -> bool) l s :
  last_such f l = Some s <->
  exists before after, l = before ++ s :: after /\ f s = true /\
                       Forall (fun t => f t = false) after.
Proof.
  induction l as [|x l IH]; simpl.
  - split; [discriminate|]. intros [b [a [E _]]]. destruct b; discriminate.
  - destruct (last_such f l) as [y|] eqn:El.
    + split.
      * intros E. apply IH in E. destruct E as [b [a [E1 E2]]].
        exists (x :: b), a. subst l. split; [reflexivity|exact E2].
      * intros [b [a [E1 [E2 E3]]]]. destruct b as [|x' b]; simpl in E1.
        -- injection E1 as -> ->.
           assert (last_such f a = None) as Hn.
           { clear -E3. induction E3 as [|t a Ht _ IHa]; simpl; [reflexivity|].
             rewrite IHa, Ht. reflexivity. }
           congruence.
        -- injection E1 as -> ->. apply IH. exists b, a. auto.
    + assert (Forall (fun t => f t = false) l) as Hall.
      { clear -El. induction l as [|t l IHl]; [constructor|]. simpl in El.
        destruct (last_such f l); [discriminate|].
        destruct (f t) eqn:Ft; [discriminate|]. constructor; auto. }
      destruct (f x) eqn:Fx.
      * split.
        -- intros E. injection E as ->. exists [], l. auto.
        -- intros [b [a [E1 [E2 E3]]]]. destruct b as [|x' b]; simpl in E1.
           ++ injection E1 as -> ->. reflexivity.
           ++ injection E1 as -> ->. exfalso.
              rewrite Forall_forall in Hall.
              assert (f s = false) as Hs by (apply Hall, in_or_app; right; left; reflexivity).
              congruence.
      * split; [discriminate|].
        intros [b [a [E1 [E2 E3]]]]. destruct b as [|x' b]; simpl in E1.
        -- injection E1 as -> ->. congruence.
        -- injection E1 as -> ->. exfalso.
           rewrite Forall_forall in Hall.
           assert (f s = false) as Hs by (apply Hall, in_or_app; right; left; reflexivity).
           congruence.
Qed.

Lemma last_such_None {A} (f : A -> bool) l :
  last_such f l = None <-> Forall (fun t => f t = false) l.
Proof.
  induction l as [|x l IH]; simpl.
  - split; [constructor|reflexivity].
  - destruct (last_such f l) as [y|].
    + split; [discriminate|]. intros H. inversion H; subst.
      destruct IH as [_ IH]. specialize (IH H3). discriminate.
    + destruct (f x) eqn:Fx.
      * split; [discriminate|]. intros H. inversion H; subst. congruence.
      * split; [|reflexivity]. intros _. constructor; [exact Fx|]. now apply IH.
Qed.

(** The value [currentSection] holds after the loop over the sections. *)
Definition current_id (start : option string) (s : option Node) : option string :=
  match s with
  | Some section => getAttribute "id" section
  | None => start
  end.

(** main.js 43-51 with the header in the document: the loop reads and
    writes nothing but [currentSection]. *)
Lemma section_step_eq p h start s :
  hd_error (select sel_header [] (dom p)) = Some h ->
  section_step start s p =
  (Normal (if passed (pageYOffset p) (offsetHeight h) s
           then getAttribute "id" s else start), p).
Proof.
  intros Hh. unfold section_step.
  rewrite (bind_normal _ (querySelector_eq _ _)), Hh.
  rewrite (bind_normal _ (prop_some _ _ _ _)).
  rewrite (bind_normal _ (get_eq _)).
  unfold passed. destruct (_ >=? _)%Z; reflexivity.
Qed.

Lemma section_loop p h sections : forall start,
  hd_error (select sel_header [] (dom p)) = Some h ->
  forEach_var sections start section_step p =
  (Normal (current_id start
             (last_such (passed (pageYOffset p) (offsetHeight h)) sections)), p).
Proof.
  induction sections as [|s sections IH]; intros start Hh; simpl.
  - reflexivity.
  - rewrite (bind_normal _ (@section_step_eq p h start s Hh)).
    rewrite IH by exact Hh.
    destruct (last_such (passed (pageYOffset p) (offsetHeight h)) sections) as [t|];
      simpl; [reflexivity|].
    destruct (passed (pageYOffset p) (offsetHeight h) s); reflexivity.
Qed.

(** Without a header the first section already fails. *)
Lemma section_loop_no_header p s sections start :
  hd_error (select sel_header [] (dom p)) = None ->
  forEach_var (s :: sections) start section_step p =
  (Throw (TypeError "Cannot read properties of null (reading 'offsetHeight')"), p).
Proof.
  intros Hh. simpl. apply bind_throw. unfold section_step.
  rewrite (bind_normal _ (querySelector_eq _ _)), Hh.
  apply bind_throw. reflexivity.
Qed.

(** What main.js 54-57 does to one link. *)
Definition mark (target : string) (link : Node) : Node -> Node :=
  if strict_eq (getAttribute "href" link) target
  then fun x => classList_add "active" (classList_remove "active" x)
  else classList_remove "active".

Definition link_updates (target : string) (links : list Node) : list (nat * (Node -> Node)) :=
  map (fun l => (nid l, mark target l)) links.

Lemma mark_local target link : local (mark target link).
Proof.
  unfold mark. destruct (strict_eq _ _).
  - apply (@local_compose (classList_remove "active") (classList_add "active")); auto with dom.
  - auto with dom.
Qed.

Lemma link_updates_local target links : all_local (link_updates target links).
Proof.
  unfold all_local, link_updates. rewrite Forall_map. apply Forall_forall.
  intros l _. apply mark_local.
Qed.

Lemma at_id_twice i f1 f2 x : local f1 ->
  at_id i f2 (at_id i f1 x) = at_id i (fun y => f2 (f1 y)) x.
Proof.
  intros L. unfold at_id. destruct (Nat.eqb (nid x) i) eqn:E.
  - rewrite (local_nid L), E. reflexivity.
  - rewrite E. reflexivity.
Qed.

Lemma link_step_eq cur link p :
  link_step cur link p =
  (Normal tt, update_page (at_id (nid link) (mark ("#" ++ template cur) link)) p).
Proof.
  unfold link_step, mark. rewrite (bind_normal _ (updateElement_eq _ _ _)).
  destruct (strict_eq (getAttribute "href" link) ("#" ++ template cur)).
  - rewrite updateElement_eq. f_equal.
    rewrite update_page_compose by auto with dom.
    apply update_page_ext. intros x. apply at_id_twice. auto with dom.
  - reflexivity.
Qed.

(** main.js 53-58: the loop over the links is a series of writes. *)
Lemma link_loop cur links : forall p,
  forEach links (link_step cur) p =
  (Normal tt, update_page (compose_at (link_updates ("#" ++ template cur) links)) p).
Proof.
  induction links as [|l links IH]; intros p; simpl.
  - unfold ret. now rewrite update_page_id.
  - rewrite (bind_normal _ (link_step_eq _ _ _)). rewrite IH. f_equal.
    apply update_page_compose. apply local_at_id, mark_local.
Qed.

Definition sections_of (p : Page) : list Node := select sel_section_id [] (dom p).
Definition links_of (p : Page) : list Node := select sel_navMenu_hash [] (dom p).
Definition header_of (p : Page) : option Node := hd_error (select sel_header [] (dom p)).

(** The value of [currentSection] when the loop of main.js 43-51 ends. *)
Definition currentSection (p : Page) : Completion (option string) :=
  fst (forEach_var (sections_of p) (Some "") section_step p).

(** What the handler computes when the header is there. *)
Definition current_target (p : Page) (h : Node) : string :=
  ("#" ++ template (current_id (Some "")
            (last_such (passed (pageYOffset p) (offsetHeight h)) (sections_of p))))%string.

Lemma scrollSpy_header p h :
  header_of p = Some h ->
  scrollSpy p =
  (Normal tt, update_page (compose_at (link_updates (current_target p h) (links_of p))) p).
Proof.
  intros Hh. unfold scrollSpy.
  rewrite (bind_normal _ (querySelectorAll_eq _ _)).
  rewrite (bind_normal _ (querySelectorAll_eq _ _)).
  rewrite (bind_normal _ (@section_loop p h _ (Some "") Hh)).
  apply link_loop.
Qed.

Lemma scrollSpy_no_sections p :
  sections_of p = [] ->
  scrollSpy p = (Normal tt, update_page (compose_at (link_updates "#" (links_of p))) p).
Proof.
  intros Hs. unfold scrollSpy.
  rewrite (bind_normal _ (querySelectorAll_eq _ _)).
  rewrite (bind_normal _ (querySelectorAll_eq _ _)).
  unfold sections_of in Hs. rewrite Hs. simpl forEach_var.
  rewrite (bind_normal _ (ret_eq _ _)).
  apply link_loop.
Qed.

Lemma scrollSpy_no_header p s rest :
  header_of p = None -> sections_of p = s :: rest ->
  scrollSpy p =
  (Throw (TypeError "Cannot read properties of null (reading 'offsetHeight')"), p).
Proof.
  intros Hh Hs. unfold scrollSpy.
  rewrite (bind_normal _ (querySelectorAll_eq _ _)).
  rewrite (bind_normal _ (querySelectorAll_eq _ _)).
  unfold sections_of in Hs. rewrite Hs.
  apply bind_throw. apply section_loop_no_header. exact Hh.
Qed.

Lemma avoids_active_hash : avoids "active" sel_navMenu_hash.
Proof.
  intros c Hc. simpl in Hc. destruct Hc as [<-|[<-|[]]]; simpl; auto.
Qed.

Lemma mark_stable target link : stable sel_navMenu_hash (mark target link).
Proof.
  unfold mark. destruct (strict_eq _ _).
  - apply (@stable_compose _ (classList_remove "active") (classList_add "active")).
    + apply stable_remove, avoids_active_hash.
    + apply stable_add, avoids_active_hash.
  - apply stable_remove, avoids_active_hash.
Qed.

Lemma mark_active target link x :
  classList_contains "active" (mark target link x)
  = strict_eq (getAttribute "href" link) target.
Proof.
  unfold mark, classList_contains. destruct (strict_eq _ _); simpl.
  - apply contains_add_same.
  - apply contains_remove_same.
Qed.

(** The links after the loop of main.js 53-58: the same links, each
    carrying "active" exactly when its href is the target. *)
Lemma marked_links target p :
  unique_ids (dom p) = true ->
  let p' := update_page (compose_at (link_updates target (links_of p))) p in
  map nid (links_of p') = map nid (links_of p) /\
  map (getAttribute "href") (links_of p') = map (getAttribute "href") (links_of p) /\
  forall l, In l (links_of p') ->
            classList_contains "active" l = strict_eq (getAttribute "href" l) target.
Proof.
  intros Hu p'. set (G := compose_at (link_updates target (links_of p))).
  assert (local G) as LG by apply compose_at_local, link_updates_local.
  assert (stable sel_navMenu_hash G) as SG.
  { apply stable_compose_at. unfold link_updates. rewrite Forall_map.
    apply Forall_forall. intros l _. apply mark_stable. }
  assert (links_of p' = map (rewrite G) (links_of p)) as E.
  { unfold links_of, p', update_page. simpl.
    apply (@select_rewrite sel_navMenu_hash G (dom p) LG SG []). }
  rewrite E, !map_map. repeat split.
  - apply map_ext. intros. now apply nid_rewrite.
  - apply map_ext. intros. unfold getAttribute. now rewrite attrs_rewrite.
  - intros l' Hl'. apply in_map_iff in Hl'. destruct Hl' as [l [<- Hl]].
    unfold classList_contains, getAttribute.
    rewrite classList_rewrite, attrs_rewrite by exact LG.
    assert (G l = mark target l l) as EG.
    { apply compose_at_hit with (i := nid l).
      - apply link_updates_local.
      - unfold link_updates. rewrite map_map. simpl.
        apply select_NoDup, Hu.
      - unfold link_updates. apply in_map_iff. exists l. auto.
      - reflexivity. }
    rewrite EG. apply mark_active.
Qed.

(** Among elements with pairwise distinct keys at most one has a given key. *)
Lemma filter_key_NoDup {A} (key : A -> option string) (v : string) (l : list A) :
  NoDup (map key l) ->
  (List.length (filter (fun x => strict_eq (key x) v) l) <= 1)%nat.
Proof.
  induction l as [|x l IH]; simpl; intros Hd; [lia|].
  inversion Hd as [|? ? Hn Hd']; subst. specialize (IH Hd').
  destruct (strict_eq (key x) v) eqn:E; [|exact IH].
  assert (filter (fun y => strict_eq (key y) v) l = []) as ->; [|simpl; lia].
  clear IH Hd Hd'. induction l as [|y l IHl]; simpl; [reflexivity|].
  destruct (strict_eq (key y) v) eqn:Ey.
  - exfalso. apply Hn. simpl. left.
    unfold strict_eq in E, Ey.
    destruct (key x) as [a|]; [|discriminate]. destruct (key y) as [b|]; [|discriminate].
    apply String.eqb_eq in E, Ey. congruence.
  - apply IHl. intros Hin. apply Hn. right. exact Hin.
Qed.

End ScrollSpyFacts.

(* ================================================================== *)
(** ** Properties of the scroll-spy *)
(* ================================================================== *)

Module ScrollSpyProps.
Import Dom Js Browser MainJs Loop Pages DomFacts MonadFacts PageFacts ScrollSpyFacts.

(** The index page after both phases of start-up, scrolled to [y]. *)
Definition index_at (y : Z) : Page :=
  with_pageYOffset y (fst (step DOMContentLoaded (boot_main index_page true))).

Definition the_header : Node :=
  match header_of (index_at 0) with Some h => h | None => el 0 "" [] [] [] end.

(** C2. On a scroll recomputation (header in the document, its height read
    from the page at that moment) [currentSection] ends as the id of the
    last section, in document order, with
    [pageYOffset >= offsetTop - headerHeight - 100]. With three sections at
    tops 0, 500 and 1000 and a header 70 high, offset 600 gives the second
    section and offset 900 the third. *)
Theorem scrollspy_last_passed_section (p : Page) (h : Node) :
  header_of p = Some h ->
  (forall before s after,
      sections_of p = before ++ s :: after ->
      passed (pageYOffset p) (offsetHeight h) s = true ->
      Forall (fun t => passed (pageYOffset p) (offsetHeight h) t = false) after ->
      currentSection p = Normal (getAttribute "id" s))
  /\ (forall s1 s2 s3,
      sections_of p = [s1; s2; s3] ->
      offsetTop s1 = 0%Z -> offsetTop s2 = 500%Z -> offsetTop s3 = 1000%Z ->
      offsetHeight h = 70%Z ->
      (pageYOffset p = 600%Z -> currentSection p = Normal (getAttribute "id" s2))
      /\ (pageYOffset p = 900%Z -> currentSection p = Normal (getAttribute "id" s3))).
Proof.
  intros Hh.
  assert (forall before s after,
      sections_of p = before ++ s :: after ->
      passed (pageYOffset p) (offsetHeight h) s = true ->
      Forall (fun t => passed (pageYOffset p) (offsetHeight h) t = false) after ->
      currentSection p = Normal (getAttribute "id" s)) as General.
  { intros before s after Hs Hp Ha.
    unfold currentSection. rewrite (@section_loop p h _ (Some "") Hh). simpl.
    assert (last_such (passed (pageYOffset p) (offsetHeight h)) (sections_of p) = Some s) as ->.
    { apply last_such_Some. exists before, after. auto. }
    reflexivity. }
  split; [exact General|].
  intros s1 s2 s3 Hs T1 T2 T3 HH. split; intros Hy.
  - apply (General [s1] s2 [s3]); [exact Hs| |].
    + unfold passed. rewrite Hy, T2, HH. reflexivity.
    + constructor; [|constructor]. unfold passed. rewrite Hy, T3, HH. reflexivity.
  - apply (General [s1; s2] s3 []); [exact Hs| |constructor].
    unfold passed. rewrite Hy, T3, HH. reflexivity.
Qed.

Lemma scrollspy_last_passed_section_witness :
  header_of (index_at 600) = Some the_header
  /\ currentSection (index_at 600) = Normal (Some "scenarios")
  /\ currentSection (index_at 900) = Normal (Some "timeline")
  /\ map (fun l => (getAttribute "href" l, classList l))
         (links_of (fst (step (Scroll 600) (index_at 0))))
     = [(Some "#home", []); (Some "#scenarios", ["active"]); (Some "#timeline", [])]
  /\ map (fun l => (getAttribute "href" l, classList l))
         (links_of (fst (step (Scroll 900) (index_at 0))))
     = [(Some "#home", []); (Some "#scenarios", []); (Some "#timeline", ["active"])].
Proof.
  assert (forall y, header_of (index_at y) = Some the_header) as Hh
      by (intros y; vm_compute; reflexivity).
  assert (forall y, exists s1 s2 s3,
             sections_of (index_at y) = [s1; s2; s3]
             /\ offsetTop s1 = 0%Z /\ offsetTop s2 = 500%Z /\ offsetTop s3 = 1000%Z
             /\ getAttribute "id" s2 = Some "scenarios"
             /\ getAttribute "id" s3 = Some "timeline") as Hs.
  { intros y. eexists _, _, _. split; [vm_compute; reflexivity|].
    split; [reflexivity|]. split; [reflexivity|]. split; [reflexivity|].
    split; vm_compute; reflexivity. }
  assert (offsetHeight the_header = 70%Z) as H70 by (vm_compute; reflexivity).
  split; [apply Hh|].
  split.
  - destruct (Hs 600%Z) as [s1 [s2 [s3 [E [T1 [T2 [T3 [I2 _]]]]]]]].
    destruct (@scrollspy_last_passed_section (index_at 600) the_header (Hh _)) as [_ Ex].
    destruct (Ex s1 s2 s3 E T1 T2 T3 H70) as [E600 _].
    rewrite <- I2. exact (E600 eq_refl).
  - split.
    + destruct (Hs 900%Z) as [s1 [s2 [s3 [E [T1 [T2 [T3 [_ I3]]]]]]]].
      destruct (@scrollspy_last_passed_section (index_at 900) the_header (Hh _)) as [_ Ex].
      destruct (Ex s1 s2 s3 E T1 T2 T3 H70) as [_ E900].
      rewrite <- I3. exact (E900 eq_refl).
    + split; vm_compute; reflexivity.
Defined.

(** A page started from [root] by main.js alone, scrolled to [y]. *)
Definition started_at (root : Node) (y : Z) : Page :=
  with_pageYOffset y (fst (step DOMContentLoaded (boot_main root true))).

Definition active_links (p : Page) : list Node :=
  filter (classList_contains "active") (links_of p).

(** C8 as stated fails: with two links to one section both are marked, and
    above the first section a bare "#" link is marked. *)
Lemma at_most_one_active_counterexample :
  List.length (active_links (fst (step (Scroll 300) (started_at twin_links_page 0)))) = 2%nat
  /\ Forall (fun s => passed 0 70 s = false) (sections_of (started_at twin_links_page 0))
  /\ map (getAttribute "href")
         (active_links (fst (step (Scroll 0) (started_at twin_links_page 0)))) = [Some "#"].
Proof.
  split; [vm_compute; reflexivity|].
  split; [|vm_compute; reflexivity].
  repeat constructor.
Qed.

(** C8, amended. After a scroll recomputation with the header in the
    document, a link of the menu with a "#..." href carries "active" exactly
    when its href is "#" followed by [currentSection]. So at most one link
    is active when the hrefs are pairwise distinct, and no link is active
    when no section passes the threshold and no link has the bare href
    "#". *)
Theorem scrollspy_active_links (p : Page) (h : Node) :
  unique_ids (dom p) = true ->
  header_of p = Some h ->
  let p' := snd (scrollSpy p) in
  fst (scrollSpy p) = Normal tt
  /\ (forall l, In l (links_of p') ->
        classList_contains "active" l
        = strict_eq (getAttribute "href" l) (current_target p h))
  /\ (NoDup (map (getAttribute "href") (links_of p')) ->
      (List.length (active_links p') <= 1)%nat)
  /\ (Forall (fun s => passed (pageYOffset p) (offsetHeight h) s = false) (sections_of p) ->
      ~ In (Some "#") (map (getAttribute "href") (links_of p')) ->
      active_links p' = []).
Proof.
  intros Hu Hh p'. unfold p'. rewrite (@scrollSpy_header p h Hh). simpl.
  destruct (@marked_links (current_target p h) p Hu) as [_ [_ Hm]].
  set (q := update_page _ p) in *.
  assert (active_links q
          = filter (fun l => strict_eq (getAttribute "href" l) (current_target p h))
                   (links_of q)) as Ef.
  { unfold active_links. apply filter_ext_in. exact Hm. }
  split; [reflexivity|]. split; [exact Hm|]. split.
  - intros Hd. rewrite Ef. apply filter_key_NoDup. exact Hd.
  - intros Hnone Hbare. rewrite Ef.
    assert (current_target p h = "#") as ->.
    { unfold current_target. apply last_such_None in Hnone. rewrite Hnone. reflexivity. }
    assert (forall l, In l (links_of q) -> strict_eq (getAttribute "href" l) "#" = false) as Hf.
    { intros l Hl. destruct (strict_eq (getAttribute "href" l) "#") eqn:E; [|reflexivity].
      exfalso. apply Hbare. apply in_map_iff. exists l. split; [|exact Hl].
      unfold strict_eq in E. destruct (getAttribute "href" l) as [a|]; [|discriminate].
      apply String.eqb_eq in E. now subst a. }
    clear -Hf. induction (links_of q) as [|l ls IH]; simpl; [reflexivity|].
    rewrite (Hf l) by (left; reflexivity). apply IH. intros l' Hl'. apply Hf. right. exact Hl'.
Qed.

Lemma scrollspy_active_links_witness :
  (List.length (active_links (snd (scrollSpy (index_at 600)))) <= 1)%nat
  /\ active_links (snd (scrollSpy (index_at (-200)))) = [].
Proof.
  split.
  - destruct (@scrollspy_active_links (index_at 600) the_header eq_refl eq_refl)
      as [_ [_ [Hone _]]].
    apply Hone. vm_compute.
    repeat constructor; simpl; intuition discriminate.
  - destruct (@scrollspy_active_links (index_at (-200)) the_header eq_refl eq_refl)
      as [_ [_ [_ Hnone]]].
    apply Hnone.
    + vm_compute. repeat constructor.
    + vm_compute. intuition discriminate.
Defined.

(** C5 fails on the code: on a page whose header comes from includes.js, a
    scroll before the fragment arrives finds sections but no header, and
    the handler throws at the first section. *)
Theorem scrollspy_throws_before_header_arrives :
  header_of (fst (step DOMContentLoaded (boot_both scenario_page true))) = None
  /\ snd (step (Scroll 0) (fst (step DOMContentLoaded (boot_both scenario_page true))))
     = [mkRun (JListener ScrollSpy)
              (Throw (TypeError "Cannot read properties of null (reading 'offsetHeight')"))].
Proof. split; vm_compute; reflexivity. Qed.

End ScrollSpyProps.

(* ================================================================== *)
(** ** The fragment loader *)
(* ================================================================== *)

Module LoaderFacts.
Import Dom Js Browser IncludesJs DomFacts MonadFacts.

Lemma path_to_unfold i ancs n :
  path_to i ancs n =
  if Nat.eqb (nid n) i then Some (n :: ancs)
  else first_some (path_to i (n :: ancs)) (children n).
Proof. destruct n; reflexivity. Qed.

Lemma update_unfold i f n :
  update i f n =
  let n' := set_children (map (update i f) (children n)) n in
  if Nat.eqb (nid n) i then f n' else n'.
Proof. destruct n; reflexivity. Qed.

(** Whether an identity occurs in a tree does not depend on the ancestors
    the search carries along. *)
Lemma path_to_None_ancs i n : forall a a',
  path_to i a n = None -> path_to i a' n = None.
Proof.
  induction n as [j tg at_ cl st tx ot oh ch kids IH] using Node_tree_ind.
  intros a a'. rewrite !path_to_unfold. cbn [nid children].
  destruct (Nat.eqb j i); [discriminate|].
  set (n0 := mkNode j tg at_ cl st tx ot oh ch kids). clearbody n0.
  induction IH as [|k kids' Hk _ IHk]; simpl; [reflexivity|].
  destruct (path_to i (n0 :: a) k) eqn:E; [discriminate|].
  rewrite (Hk (n0 :: a) (n0 :: a') E). exact IHk.
Qed.

(** A write to an identity that is not in the tree changes nothing. *)
Lemma update_absent i f n : forall a,
  path_to i a n = None -> update i f n = n.
Proof.
  induction n as [j tg at_ cl st tx ot oh ch kids IH] using Node_tree_ind.
  intros a. rewrite path_to_unfold, update_unfold. cbn [nid children].
  destruct (Nat.eqb j i); [discriminate|]. intros Hk. cbv zeta.
  unfold set_children. cbn. f_equal.
  set (n0 := mkNode j tg at_ cl st tx ot oh ch kids) in Hk. clearbody n0.
  induction IH as [|k kids' Hk' _ IHk]; simpl; [reflexivity|].
  simpl in Hk. destruct (path_to i (n0 :: a) k) eqn:E; [discriminate|].
  rewrite (Hk' _ E). f_equal. apply IHk. exact Hk.
Qed.

(** After [x.innerHTML = html] the element found under the identity of
    [x] is [x] with the new text and children. *)
Lemma path_to_set_content i tv html n : forall a x r,
  path_to i a n = Some (x :: r) ->
  forall a', exists r',
    path_to i a' (update i (set_content tv html) n) = Some (set_content tv html x :: r').
Proof.
  induction n as [j tg at_ cl st tx ot oh ch kids IH] using Node_tree_ind.
  intros a x r. rewrite path_to_unfold, update_unfold. cbn [nid children]. cbv zeta.
  set (n0 := mkNode j tg at_ cl st tx ot oh ch kids).
  destruct (Nat.eqb j i) eqn:Ej.
  - intros E a'. injection E as <- <-. exists a'.
    rewrite path_to_unfold. subst n0. cbn [nid set_children set_content]. rewrite Ej.
    reflexivity.
  - intros E a'. rewrite path_to_unfold.
    set (n1 := set_children (map (update i (set_content tv html)) kids) n0).
    assert (nid n1 = j) as -> by reflexivity.
    assert (children n1 = map (update i (set_content tv html)) kids) as -> by reflexivity.
    rewrite Ej.
    clearbody n0 n1.
    induction IH as [|k kids' Hk _ IHk]; simpl in *; [discriminate|].
    destruct (path_to i (n0 :: a) k) as [l|] eqn:Ek.
    + injection E as ->. destruct (Hk _ _ _ Ek (n1 :: a')) as [r' Hr']. rewrite Hr'.
      exists r'. reflexivity.
    + rewrite (@update_absent i (set_content tv html) k (n0 :: a) Ek).
      rewrite (@path_to_None_ancs i k (n0 :: a) (n1 :: a') Ek). apply IHk. exact E.
Qed.

Lemma path_to_shape i n : forall a l,
  path_to i a n = Some l -> exists x r, l = x :: r /\ nid x = i.
Proof.
  induction n as [j tg at_ cl st tx ot oh ch kids IH] using Node_tree_ind.
  intros a l. rewrite path_to_unfold. cbn [nid children].
  set (n0 := mkNode j tg at_ cl st tx ot oh ch kids).
  destruct (Nat.eqb j i) eqn:Ej.
  - intros E. injection E as <-. exists n0, a. split; [reflexivity|].
    apply Nat.eqb_eq in Ej. exact Ej.
  - clearbody n0. induction IH as [|k kids' Hk _ IHk]; simpl; [discriminate|].
    destruct (path_to i (n0 :: a) k) as [l'|] eqn:Ek.
    + intros E. injection E as <-. eapply Hk. exact Ek.
    + exact IHk.
Qed.

(** An element of the tree is found under its identity. *)
Lemma path_to_found x n : In x (subtree n) -> forall a, path_to (nid x) a n <> None.
Proof.
  induction n as [j tg at_ cl st tx ot oh ch kids IH] using Node_tree_ind.
  intros Hin a. rewrite subtree_unfold in Hin. rewrite path_to_unfold.
  cbn [nid children] in *.
  set (n0 := mkNode j tg at_ cl st tx ot oh ch kids) in *.
  destruct (Nat.eqb j (nid x)) eqn:Ej; [discriminate|].
  destruct Hin as [Hin|Hin].
  - subst x. simpl in Ej. rewrite Nat.eqb_refl in Ej. discriminate.
  - clearbody n0. induction IH as [|k kids' Hk _ IHk]; simpl in *; [destruct Hin|].
    destruct (path_to (nid x) (n0 :: a) k) eqn:Ek; [discriminate|].
    apply in_app_or in Hin. destruct Hin as [Hin|Hin].
    + exfalso. exact (Hk Hin (n0 :: a) Ek).
    + apply IHk. exact Hin.
Qed.

Lemma element_found sel n x :
  hd_error (select sel [] n) = Some x -> exists x0, element (nid x) n = Some x0.
Proof.
  intros Hx.
  assert (In x (subtree n)) as Hin.
  { apply (@select_In_subtree sel [] n x).
    destruct (select sel [] n) as [|y l]; [discriminate|].
    injection Hx as ->. left. reflexivity. }
  unfold element. destruct (path_to (nid x) [] n) as [l|] eqn:E.
  - destruct (@path_to_shape (nid x) n [] l E) as [x0 [r [-> _]]]. exists x0. reflexivity.
  - exfalso. exact (@path_to_found x n Hin [] E).
Qed.

Lemma element_set_content i tx html n x :
  element i n = Some x ->
  element i (update i (set_content tx html) n) = Some (set_content tx html x).
Proof.
  unfold element. destruct (path_to i [] n) as [[|y r]|] eqn:E; try discriminate.
  intros Hx. injection Hx as Hx. subst y.
  destruct (@path_to_set_content i tx html n [] x r E []) as [r' ->]. reflexivity.
Qed.

(** [textContent] level by level. *)
Lemma append_empty_r (x : string) : (x ++ "")%string = x.
Proof. induction x as [|c x IH]; simpl; [reflexivity|now rewrite IH]. Qed.

Lemma append_assoc (x y z : string) : ((x ++ y) ++ z)%string = (x ++ (y ++ z))%string.
Proof. induction x as [|c x IH]; simpl; [reflexivity|now rewrite IH]. Qed.

Lemma concat_empty_cons x xs :
  String.concat "" (x :: xs) = (x ++ String.concat "" xs)%string.
Proof. destruct xs; simpl; [now rewrite append_empty_r|reflexivity]. Qed.

Lemma concat_empty_app xs ys :
  String.concat "" (xs ++ ys) = (String.concat "" xs ++ String.concat "" ys)%string.
Proof.
  induction xs as [|x xs IH]; [reflexivity|].
  change ((x :: xs) ++ ys) with (x :: (xs ++ ys)).
  now rewrite !concat_empty_cons, IH, append_assoc.
Qed.

Lemma textContent_unfold n :
  textContent n = (text n ++ String.concat "" (map textContent (children n)))%string.
Proof.
  unfold textContent. rewrite subtree_unfold. cbn [map]. rewrite concat_empty_cons.
  f_equal. induction (children n) as [|k kids IH]; [reflexivity|].
  cbn [flat_map map]. now rewrite map_app, concat_empty_app, IH, concat_empty_cons.
Qed.

End LoaderFacts.

Module LoaderProps.
Import Dom Js Browser IncludesJs Loop Pages DomFacts MonadFacts LoaderFacts.

(** The fetch rejected, or the reading of the body did. *)
Definition fetch_fails (o : FetchOutcome) (e : JsError) : Prop :=
  o = Rejected e \/ exists st, o = Resolved (mkResponse st (BodyError e)).

(** includes.js 14 *)
Definition warning (url : string) (e : JsError) : LogEntry :=
  Warn ("Could not load " ++ url ++ ":")%string e.

Lemma loadHTML_resume_fails p url sel o e :
  fetch_fails o e ->
  loadHTML_resume url sel o p = (Normal tt, with_console (console p ++ [warning url e]) p).
Proof.
  intros [->|[st ->]]; reflexivity.
Qed.

(** C3. When the fetch of a fragment, or the reading of its body, rejects,
    the loader catches the error and logs the warning
    "Could not load <url>:" with it; the promise of [loadHTML] is fulfilled,
    so the event loop sees a normal completion; the document, the detached
    nodes, the listeners, the observer and the timers are what they were, and
    the call to [loadHTML] itself completes normally. *)
Theorem fetch_failure_is_contained
        (p : Page) (url : string) (sel : Selector) (o : FetchOutcome)
        (e : JsError) (rest : list Request) :
  fetch_fails o e ->
  take_request url (requests p) = Some (mkRequest url sel, rest) ->
  let p' := fst (step (FetchSettled url o) p) in
  loadHTML_resume url sel o p
  = (Normal tt, with_console (console p ++ [warning url e]) p)
  /\ snd (step (FetchSettled url o) p) = [mkRun (JLoadHTML url) (Normal tt)]
  /\ console p' = console p ++ [warning url e]
  /\ dom p' = dom p /\ detached p' = detached p
  /\ listeners p' = listeners p /\ observer p' = observer p /\ timers p' = timers p
  /\ requests p' = rest
  /\ fst (loadHTML url sel p) = Normal tt.
Proof.
  intros Hf Ht p'. split; [now apply loadHTML_resume_fails|].
  unfold p', step. rewrite Ht. cbn [r_url r_target]. unfold run_job.
  rewrite (@loadHTML_resume_fails (with_requests rest p) url sel o e Hf).
  cbn. repeat split; reflexivity.
Qed.

(** The scenario page with the two loads in flight. *)
Definition loading (fallback : list Node) : Page :=
  fst (step DOMContentLoaded (boot_both (scenario_page_with fallback) true)).

Definition header_url : string := "../includes/header.html".
Definition footer_url : string := "../includes/footer.html".

Lemma fetch_failure_is_contained_witness :
  snd (step (FetchSettled header_url (Rejected (NetworkError "Failed to fetch")))
            (loading static_fallback))
  = [mkRun (JLoadHTML header_url) (Normal tt)]
  /\ console (fst (step (FetchSettled header_url (Rejected (NetworkError "Failed to fetch")))
                        (loading static_fallback)))
     = console (loading static_fallback)
       ++ [warning header_url (NetworkError "Failed to fetch")]
  /\ dom (fst (step (FetchSettled header_url (Rejected (NetworkError "Failed to fetch")))
                    (loading static_fallback)))
     = dom (loading static_fallback).
Proof.
  assert (take_request header_url (requests (loading static_fallback))
          = Some (mkRequest header_url (sel_include "header"),
                  [mkRequest footer_url (sel_include "footer")])) as Ht
      by (vm_compute; reflexivity).
  destruct (@fetch_failure_is_contained (loading static_fallback) header_url
              (sel_include "header") (Rejected (NetworkError "Failed to fetch"))
              (NetworkError "Failed to fetch")
              [mkRequest footer_url (sel_include "footer")]
              (or_introl eq_refl) Ht)
    as [_ [Hrun [Hcon [Hdom _]]]].
  exact (conj Hrun (conj Hcon Hdom)).
Defined.

(** The text of a fragment: its own, then that of its elements. *)
Definition fragment_text (html : Html) : string :=
  (h_text html ++ String.concat "" (map textContent (h_nodes html)))%string.

(** C10. Whatever the status of the response, 404 included, once the body
    was read and the target is in the document, the loader completes
    normally, logs nothing, and the response body replaces the content of
    the element under the target's identity: its text and its child
    elements are those of the body, so nothing of what the target held is
    left in it, while the element itself stays what it was.
    [response.ok] is never consulted. *)
Theorem response_body_is_injected
        (p : Page) (url : string) (sel : Selector) (st : Z) (html : Html) (t : Node) :
  hd_error (select sel [] (dom p)) = Some t ->
  let o := Resolved (mkResponse st (BodyText html)) in
  let p' := snd (loadHTML_resume url sel o p) in
  fst (loadHTML_resume url sel o p) = Normal tt
  /\ console p' = console p
  /\ exists t0 t1,
       element (nid t) (dom p) = Some t0
       /\ element (nid t) (dom p') = Some t1
       /\ t1 = set_content (h_text html) (h_nodes html) t0
       /\ text t1 = h_text html
       /\ children t1 = h_nodes html
       /\ textContent t1 = fragment_text html.
Proof.
  intros Ht o p'.
  assert (loadHTML_resume url sel o p
          = (Normal tt,
             with_dom (update (nid t) (set_content (h_text html) (h_nodes html)) (dom p))
                      (map (update (nid t) (set_content (h_text html) (h_nodes html)))
                           (detached p) ++ children t)
                      p)) as E.
  { unfold loadHTML_resume, try_catch, o. cbn [await_fetch].
    rewrite (bind_normal _ (ret_eq _ _)). cbn [await_text body].
    rewrite (bind_normal _ (ret_eq _ _)).
    rewrite (bind_normal _ (querySelector_eq _ _)), Ht. reflexivity. }
  unfold p'. rewrite E. cbn [fst snd]. split; [reflexivity|]. split; [reflexivity|].
  destruct (@element_found sel (dom p) t Ht) as [t0 Ht0].
  exists t0, (set_content (h_text html) (h_nodes html) t0).
  split; [exact Ht0|]. split.
  - cbn [dom with_dom]. apply element_set_content. exact Ht0.
  - split; [reflexivity|]. split; [reflexivity|]. split; [reflexivity|].
    rewrite textContent_unfold. reflexivity.
Qed.

(** A scenario page whose header placeholder holds a text of its own
    beside the static fallback. *)
Definition placeholder_with_text : Node :=
  el 1 "body" [] []
     ([mkNode 2 "div" [("data-include", "header")] [] noStyle "Loading navigation..." 0 0 0
              static_fallback]
      ++ sections
      ++ [el 3 "div" [] [("data-include", "footer")] []]).

Definition awaiting : Page :=
  fst (step DOMContentLoaded (boot_both placeholder_with_text true)).

Definition the_placeholder : Node :=
  mkNode 2 "div" [("data-include", "header")] [] noStyle "Loading navigation..." 0 0 0
         static_fallback.

Lemma response_body_is_injected_witness :
  ok (mkResponse 404 (BodyText not_found_html)) = false
  /\ option_map textContent (element 2 (dom awaiting))
     = Some "Loading navigation...AltHistLearn"
  /\ option_map textContent
       (element 2 (dom (snd (loadHTML_resume header_url (sel_include "header")
                               (Resolved (mkResponse 404 (BodyText not_found_html)))
                               awaiting))))
     = Some "404 Not Found"
  /\ option_map children
       (element 2 (dom (snd (loadHTML_resume header_url (sel_include "header")
                               (Resolved (mkResponse 404 (BodyText not_found_html)))
                               awaiting))))
     = Some (h_nodes not_found_html).
Proof.
  assert (hd_error (select (sel_include "header") [] (dom awaiting))
          = Some the_placeholder) as Ht by (vm_compute; reflexivity).
  assert (element 2 (dom awaiting) = Some the_placeholder) as He
      by (vm_compute; reflexivity).
  split; [reflexivity|]. split; [rewrite He; reflexivity|].
  destruct (@response_body_is_injected awaiting header_url
              (sel_include "header") 404 not_found_html the_placeholder Ht)
    as [_ [_ [t0 [t1 [H0 [H1 [_ [_ [Hc Htx]]]]]]]]].
  change (nid the_placeholder) with 2%nat in H0, H1.
  rewrite H1. cbn [option_map]. rewrite Htx, Hc. split; reflexivity.
Defined.

End LoaderProps.

(* ================================================================== *)
(** ** The mobile menu *)
(* ================================================================== *)

Module MenuFacts.
Import Dom Js Browser MainJs Loop DomFacts MonadFacts PageFacts.

Definition hamburger_of (p : Page) : option Node := hd_error (select sel_hamburger [] (dom p)).
Definition navMenu_of (p : Page) : option Node := hd_error (select sel_navMenu [] (dom p)).

Lemma addEventListener_eq t ty h p :
  addEventListener t ty h p
  = (Normal tt, with_listeners (listeners p ++ [mkListener t ty h]) p).
Proof. reflexivity. Qed.

(** A loop that only attaches listeners completes, and only the listener
    table grows. *)
Lemma attach_loop (tgt : Node -> Target) (ty : string) (h : Node -> Handler)
      (els : list Node) : forall p,
  forEach els (fun x => addEventListener (tgt x) ty (h x)) p
  = (Normal tt,
     with_listeners (listeners p ++ map (fun x => mkListener (tgt x) ty (h x)) els) p).
Proof.
  induction els as [|x els IH]; intros p; simpl.
  - unfold ret. rewrite app_nil_r. destruct p; reflexivity.
  - rewrite (bind_normal _ (addEventListener_eq _ _ _ _)). rewrite IH.
    unfold with_listeners. cbn. rewrite <- app_assoc. reflexivity.
Qed.

(** main.js 2-20 never throws: with either node missing it does nothing,
    with both it attaches the toggle and one closer per link. *)
Lemma menuInit_eq p :
  menuInit p =
  match hamburger_of p, navMenu_of p with
  | Some h, Some m =>
      (Normal tt,
       with_listeners
         (listeners p
          ++ mkListener (TElement (nid h)) "click" (HamburgerClick (nid h) (nid m))
          :: map (fun link => mkListener (TElement (nid link)) "click"
                                         (NavLinkClick (nid h) (nid m)))
                 (select sel_navMenu_a [] (dom p))) p)
  | _, _ => (Normal tt, p)
  end.
Proof.
  unfold menuInit, hamburger_of, navMenu_of.
  rewrite (bind_normal _ (querySelector_eq _ _)).
  rewrite (bind_normal _ (querySelector_eq _ _)).
  destruct (hd_error (select sel_hamburger [] (dom p))) as [h|]; [|reflexivity].
  destruct (hd_error (select sel_navMenu [] (dom p))) as [m|]; [|reflexivity].
  rewrite (bind_normal _ (addEventListener_eq _ _ _ _)).
  rewrite (bind_normal _ (querySelectorAll_eq _ _)).
  rewrite (attach_loop (fun link => TElement (nid link)) "click"
                       (fun _ => NavLinkClick (nid h) (nid m))).
  unfold with_listeners. cbn. rewrite <- app_assoc. reflexivity.
Qed.



(** main.js 128-138, case by case. *)
Lemma escapeKey_eq key p :
  escapeKey (KeyDown key) p =
  if String.eqb key "Escape" then
    match navMenu_of p with
    | Some m =>
        if classList_contains "active" m then
          match hamburger_of p with
          | Some h =>
              (Normal tt,
               update_page (fun x => at_id (nid h) (classList_remove "active")
                                       (at_id (nid m) (classList_remove "active") x)) p)
          | None =>
              (Throw (TypeError "Cannot read properties of null (reading 'classList')"),
               update_page (at_id (nid m) (classList_remove "active")) p)
          end
        else (Normal tt, p)
    | None => (Normal tt, p)
    end
  else (Normal tt, p).
Proof.
  unfold escapeKey, hamburger_of, navMenu_of.
  destruct (String.eqb key "Escape"); [|reflexivity].
  rewrite (bind_normal _ (querySelector_eq _ _)).
  rewrite (bind_normal _ (querySelector_eq _ _)).
  destruct (hd_error (select sel_navMenu [] (dom p))) as [m|]; [|reflexivity].
  destruct (classList_contains "active" m); [|reflexivity].
  rewrite (bind_normal _ (updateElement_eq _ _ _)).
  destruct (hd_error (select sel_hamburger [] (dom p))) as [h|].
  - rewrite (bind_normal _ (prop_some _ _ _ _)). rewrite updateElement_eq. f_equal.
    apply update_page_compose. auto with dom.
  - apply bind_throw. reflexivity.
Qed.

End MenuFacts.

Module MenuProps.
Import Dom Js Browser MainJs Loop Pages DomFacts MonadFacts PageFacts MenuFacts.

(** C7 fails on the code: with the menu panel in the document, open, and
    no hamburger, the Escape handler closes the panel and then reads
    [classList] of null. The attachment at DOMContentLoaded on the same
    page is the graceful no-op the claim describes. *)
Theorem escape_throws_without_hamburger :
  let p := fst (step DOMContentLoaded (boot_main panel_only_page true)) in
  hamburger_of p = None
  /\ option_map classList (navMenu_of p) = Some ["nav-menu"; "active"]
  /\ menuInit (boot_main panel_only_page true) = (Normal tt, boot_main panel_only_page true)
  /\ snd (step (KeyDown "Escape") p)
     = [mkRun (JListener EscapeKey)
              (Throw (TypeError "Cannot read properties of null (reading 'classList')"))]
  /\ option_map classList (navMenu_of (fst (step (KeyDown "Escape") p))) = Some ["nav-menu"].
Proof.
  cbv zeta.
  split; [vm_compute; reflexivity|].
  split; [vm_compute; reflexivity|].
  split; [vm_compute; reflexivity|].
  split; vm_compute; reflexivity.
Qed.

End MenuProps.

(* ================================================================== *)
(** ** The visibility animator *)
(* ================================================================== *)

Module AnimatorFacts.
Import Dom Js Browser MainJs Loop DomFacts MonadFacts PageFacts.

(** main.js 120-122: the hidden state an element is given at registration. *)
Definition hide (x : Node) : Node :=
  set_transition "opacity 0.6s ease, transform 0.6s ease"
    (set_transform "translateY(20px)" (set_opacity "0" x)).

(** main.js 109-110: the visible state an intersection gives. *)
Definition reveal (x : Node) : Node :=
  set_transform "translateY(0)" (set_opacity "1" x).

Lemma hide_local : local hide.
Proof.
  unfold hide.
  apply (@local_compose (fun x => set_transform "translateY(20px)" (set_opacity "0" x))
                        (set_transition "opacity 0.6s ease, transform 0.6s ease")).
  - apply (@local_compose (set_opacity "0") (set_transform "translateY(20px)")); auto with dom.
  - auto with dom.
Qed.

Lemma reveal_local : local reveal.
Proof.
  apply (@local_compose (set_opacity "1") (set_transform "translateY(0)")); auto with dom.
Qed.

Lemma reveal_idem x : reveal (reveal x) = reveal x.
Proof. destruct x; reflexivity. Qed.

Lemma hide_stable sel : stable sel hide.
Proof. intros c x _. apply compound_matches_ext; reflexivity. Qed.

Lemma reveal_stable sel : stable sel reveal.
Proof. intros c x _. apply compound_matches_ext; reflexivity. Qed.

(** A series of writes of one idempotent function. *)
Lemma compose_at_same f us x :
  local f -> (forall y, f (f y) = f y) ->
  Forall (fun u => snd u = f) us ->
  compose_at us x = if existsb (Nat.eqb (nid x)) (map fst us) then f x else x.
Proof.
  intros L Hi. revert x. induction us as [|[i g] us IH]; intros x Hs; simpl.
  - reflexivity.
  - inversion Hs as [|? ? Hg Hs']. simpl in Hg. subst.
    rewrite IH by exact Hs'. unfold at_id.
    destruct (Nat.eqb (nid x) i) eqn:E; simpl.
    + rewrite (local_nid L). rewrite Hi.
      destruct (existsb (Nat.eqb (nid x)) (map fst us)); reflexivity.
    + reflexivity.
Qed.

Lemma compose_at_same_idem f us x :
  local f -> (forall y, f (f y) = f y) ->
  Forall (fun u => snd u = f) us ->
  compose_at us (compose_at us x) = compose_at us x.
Proof.
  intros L Hi Hs. rewrite !(@compose_at_same f us) by assumption.
  destruct (existsb (Nat.eqb (nid x)) (map fst us)) eqn:E.
  - rewrite (local_nid L), E. apply Hi.
  - rewrite E. reflexivity.
Qed.

(** A selector without descendant combinators filters the tree. *)
Definition simple (sel : Selector) : Prop :=
  Forall (fun x => match x with Simple _ => True | Descendant _ _ => False end) sel.

Lemma matches_simple sel a a' x : simple sel -> matches sel a x = matches sel a' x.
Proof.
  intros H. unfold matches. induction H as [|c sel Hc _ IH]; simpl; [reflexivity|].
  rewrite IH. destruct c; [reflexivity|destruct Hc].
Qed.

Lemma select_simple sel n : simple sel -> forall a,
  select sel a n = filter (matches sel []) (subtree n).
Proof.
  intros Hs.
  induction n as [j tg at_ cl st tx ot oh ch kids IH] using Node_tree_ind.
  intros a. rewrite select_unfold, subtree_unfold. cbn [children].
  set (n0 := mkNode j tg at_ cl st tx ot oh ch kids). simpl filter.
  rewrite (@matches_simple sel a [] n0 Hs).
  assert (flat_map (select sel (n0 :: a)) kids
          = filter (matches sel []) (flat_map subtree kids)) as ->.
  { clearbody n0. induction IH as [|k kids' Hk _ IHk]; simpl; [reflexivity|].
    rewrite filter_app, (Hk (n0 :: a)), IHk. reflexivity. }
  destruct (matches sel [] n0); reflexivity.
Qed.

Lemma simple_animated : simple sel_animated.
Proof. repeat constructor. Qed.

(** main.js 106-113 as a series of writes. *)
Definition reveal_updates (entries : list (nat * bool)) : list (nat * (Node -> Node)) :=
  flat_map (fun e : nat * bool => if snd e then [(fst e, reveal)] else []) entries.

Lemma reveal_updates_same entries : Forall (fun u => snd u = reveal) (reveal_updates entries).
Proof.
  induction entries as [|[i b] es IH]; simpl; [constructor|].
  destruct b; simpl; [constructor; [reflexivity|exact IH]|exact IH].
Qed.

Lemma reveal_updates_ids entries i :
  In (i, true) entries -> In i (map fst (reveal_updates entries)).
Proof.
  induction entries as [|[j b] es IH]; simpl; [tauto|].
  intros [E|H].
  - injection E as -> ->. left. reflexivity.
  - destruct b; simpl; [right|]; apply IH, H.
Qed.

Lemma all_local_same f us : local f -> Forall (fun u => snd u = f) us -> all_local us.
Proof.
  intros L H. unfold all_local. eapply Forall_impl; [|exact H].
  intros u E. rewrite E. exact L.
Qed.

Lemma reveal_step_eq i p :
  (updateElement i (set_opacity "1") ;;
   updateElement i (set_transform "translateY(0)")) p
  = (Normal tt, update_page (at_id i reveal) p).
Proof.
  rewrite (bind_normal _ (updateElement_eq _ _ _)).
  rewrite updateElement_eq. f_equal.
  rewrite update_page_compose by auto with dom.
  apply update_page_ext. intros x. unfold reveal, at_id.
  destruct (Nat.eqb (nid x) i) eqn:E.
  - destruct x; simpl in *. rewrite E. reflexivity.
  - rewrite E. reflexivity.
Qed.

Lemma observerCallback_eq entries : forall p,
  observerCallback entries p
  = (Normal tt, update_page (compose_at (reveal_updates entries)) p).
Proof.
  unfold observerCallback.
  induction entries as [|[i b] es IH]; intros p; simpl.
  - unfold ret. now rewrite update_page_id.
  - destruct b; simpl.
    + rewrite (bind_normal _ (reveal_step_eq _ _)). rewrite IH. f_equal.
      apply update_page_compose. apply local_at_id, reveal_local.
    + rewrite (bind_normal _ (ret_eq _ _)). apply IH.
Qed.

(** [observer.observe(el)] on the target list. *)
Definition observe_add (i : nat) (l : list nat) : list nat :=
  if existsb (Nat.eqb i) l then l else l ++ [i].

Lemma observe_eq i p l :
  observer p = Some l ->
  observe i p = (Normal tt, with_observer (Some (observe_add i l)) p).
Proof.
  intros H. unfold observe, observe_add.
  rewrite (bind_normal _ (get_eq _)). rewrite H.
  destruct (existsb (Nat.eqb i) l); [|reflexivity].
  unfold ret. f_equal. destruct p; simpl in *. subst. reflexivity.
Qed.

Definition observe_all (ids : list nat) (l : list nat) : list nat :=
  fold_left (fun acc i => observe_add i acc) ids l.

Lemma observe_add_keeps i j l : In j l -> In j (observe_add i l).
Proof.
  unfold observe_add. destruct (existsb _ _); [auto|]. intros. apply in_or_app. auto.
Qed.

Lemma observe_add_In i l : In i (observe_add i l).
Proof.
  unfold observe_add. destruct (existsb (Nat.eqb i) l) eqn:E.
  - apply existsb_exists in E. destruct E as [x [Hx E]]. apply Nat.eqb_eq in E. now subst.
  - apply in_or_app. right. left. reflexivity.
Qed.

Lemma observe_all_keeps ids : forall l j, In j l -> In j (observe_all ids l).
Proof.
  induction ids as [|i ids IH]; intros l j H; simpl; [exact H|].
  apply IH, observe_add_keeps, H.
Qed.

Lemma observe_all_In ids : forall l i, In i ids -> In i (observe_all ids l).
Proof.
  induction ids as [|k ids IH]; intros l i H; simpl; [destruct H|].
  destruct H as [->|H].
  - apply observe_all_keeps, observe_add_In.
  - apply IH, H.
Qed.

Definition hide_updates (els : list Node) : list (nat * (Node -> Node)) :=
  map (fun e => (nid e, hide)) els.

Lemma hide_updates_same els : Forall (fun u => snd u = hide) (hide_updates els).
Proof. unfold hide_updates. rewrite Forall_map. apply Forall_forall. reflexivity. Qed.

(** main.js 119-124: the loop over the animated elements. *)
Lemma animate_loop els : forall p l,
  observer p = Some l ->
  forEach els (fun el =>
    updateElement (nid el) (set_opacity "0") ;;
    updateElement (nid el) (set_transform "translateY(20px)") ;;
    updateElement (nid el) (set_transition "opacity 0.6s ease, transform 0.6s ease") ;;
    observe (nid el)) p
  = (Normal tt,
     with_observer (Some (observe_all (map nid els) l))
                   (update_page (compose_at (hide_updates els)) p)).
Proof.
  induction els as [|e els IH]; intros p l Ho; simpl.
  - unfold ret. rewrite update_page_id. f_equal.
    destruct p; simpl in *. subst. reflexivity.
  - assert ((updateElement (nid e) (set_opacity "0") ;;
             updateElement (nid e) (set_transform "translateY(20px)") ;;
             updateElement (nid e) (set_transition "opacity 0.6s ease, transform 0.6s ease") ;;
             observe (nid e)) p
            = (Normal tt, with_observer (Some (observe_add (nid e) l))
                                        (update_page (at_id (nid e) hide) p))) as Estep.
    { rewrite (bind_normal _ (updateElement_eq _ _ _)).
      rewrite (bind_normal _ (updateElement_eq _ _ _)).
      rewrite (bind_normal _ (updateElement_eq _ _ _)).
      rewrite (@observe_eq (nid e) _ l) by exact Ho. f_equal. f_equal.
      rewrite update_page_compose by auto with dom.
      rewrite update_page_compose by auto with dom.
      apply update_page_ext. intros x. unfold hide, at_id.
      destruct (Nat.eqb (nid x) (nid e)) eqn:E.
      - destruct x; simpl in *. rewrite E. simpl. rewrite E. reflexivity.
      - rewrite E. rewrite E. reflexivity. }
    rewrite (bind_normal _ Estep).
    rewrite (IH _ (observe_add (nid e) l)) by reflexivity.
    f_equal. unfold with_observer, update_page, with_dom. cbn. f_equal.
    + apply rewrite_rewrite. apply local_at_id, hide_local.
    + rewrite map_map. apply map_ext. intros. apply rewrite_rewrite.
      apply local_at_id, hide_local.
Qed.

Lemma animateInit_eq p l :
  observer p = Some l ->
  animateInit p
  = (Normal tt,
     with_observer (Some (observe_all (map nid (select sel_animated [] (dom p))) l))
                   (update_page (compose_at (hide_updates (select sel_animated [] (dom p)))) p)).
Proof.
  intros Ho. unfold animateInit.
  rewrite (bind_normal _ (querySelectorAll_eq _ _)).
  apply animate_loop. exact Ho.
Qed.

End AnimatorFacts.

Module AnimatorProps.
Import Dom Js Browser MainJs Loop Pages DomFacts MonadFacts PageFacts AnimatorFacts.

Definition transform_of (i : nat) (p : Page) : option string :=
  option_map (fun x => transform (style x)) (element i (dom p)).

(** C6 as stated fails: the callback never calls [unobserve]. After its
    first intersection the timeline item 50 is still a target, a second
    intersection runs the callback again, and after a click on the item
    (main.js 85-88) that second intersection changes its transform. *)
Lemma one_shot_counterexample :
  let p0 := fst (step DOMContentLoaded (boot_main index_page true)) in
  let p1 := fst (step (Intersect [(50%nat, true)]) p0) in
  let p2 := fst (run [Click 50; Elapse 200] p1) in
  observer p0 = Some [40%nat; 50%nat]
  /\ observer p1 = Some [40%nat; 50%nat]
  /\ snd (step (Intersect [(50%nat, true)]) p1) = [mkRun JObserver (Normal tt)]
  /\ transform_of 50 p1 = Some "translateY(0)"
  /\ transform_of 50 p2 = Some "scale(1)"
  /\ transform_of 50 (fst (step (Intersect [(50%nat, true)]) p2)) = Some "translateY(0)".
Proof.
  cbv zeta.
  split; [vm_compute; reflexivity|].
  split; [vm_compute; reflexivity|].
  split; [vm_compute; reflexivity|].
  split; [vm_compute; reflexivity|].
  split; vm_compute; reflexivity.
Qed.

Lemma existsb_nat_In i l : In i l -> existsb (Nat.eqb i) l = true.
Proof.
  intros H. apply existsb_exists. exists i. split; [exact H|apply Nat.eqb_refl].
Qed.

Definition slow_fade : string := "opacity 0.6s ease, transform 0.6s ease".

(** C6, amended. Registration (main.js 116-125) hides every animated
    element under the 0.6 s transition and makes it a target of the
    observer. An intersection sets opacity "1" and transform
    "translateY(0)" on each intersecting target and leaves the transition
    in place. The observer keeps all its targets: nothing is unobserved.
    Delivering the same entries again runs the same writes and leaves the
    page as it is. *)
Theorem reveal_repeats_and_keeps_observing
        (p : Page) (l : list nat) (entries : list (nat * bool)) :
  observer p = Some l ->
  let p0 := snd (animateInit p) in
  let p1 := snd (observerCallback entries p0) in
  fst (animateInit p) = Normal tt
  /\ (forall x, In x (subtree (dom p0)) -> matches sel_animated [] x = true ->
        opacity (style x) = "0" /\ transform (style x) = "translateY(20px)"
        /\ transition (style x) = slow_fade
        /\ exists l0, observer p0 = Some l0 /\ In (nid x) l0)
  /\ fst (observerCallback entries p0) = Normal tt
  /\ (forall x, In x (subtree (dom p1)) -> In (nid x, true) entries ->
        opacity (style x) = "1" /\ transform (style x) = "translateY(0)")
  /\ (forall x, In x (subtree (dom p1)) -> matches sel_animated [] x = true ->
        transition (style x) = slow_fade)
  /\ observer p1 = observer p0
  /\ observerCallback entries p1 = (Normal tt, p1).
Proof.
  intros Ho p0 p1.
  set (els := select sel_animated [] (dom p)).
  set (G0 := compose_at (hide_updates els)).
  set (G1 := compose_at (reveal_updates entries)).
  assert (p0 = with_observer (Some (observe_all (map nid els) l)) (update_page G0 p)) as E0.
  { unfold p0. rewrite (@animateInit_eq p l Ho). reflexivity. }
  assert (p1 = update_page G1 p0) as E1.
  { unfold p1. rewrite observerCallback_eq. reflexivity. }
  assert (local G0) as L0
      by (apply compose_at_local, (@all_local_same hide); [apply hide_local|apply hide_updates_same]).
  assert (local G1) as L1
      by (apply compose_at_local, (@all_local_same reveal);
          [apply reveal_local|apply reveal_updates_same]).
  assert (forall x, G0 x = if existsb (Nat.eqb (nid x)) (map nid els) then hide x else x) as H0.
  { intros x. unfold G0. rewrite (@compose_at_same hide).
    - unfold hide_updates. rewrite map_map. reflexivity.
    - apply hide_local.
    - intros y. destruct y; reflexivity.
    - apply hide_updates_same. }
  assert (forall x, G1 x = if existsb (Nat.eqb (nid x)) (map fst (reveal_updates entries))
                           then reveal x else x) as H1.
  { intros x. unfold G1. apply (@compose_at_same reveal).
    - apply reveal_local.
    - apply reveal_idem.
    - apply reveal_updates_same. }
  assert (forall x, In x (subtree (dom p0)) -> matches sel_animated [] x = true ->
            opacity (style x) = "0" /\ transform (style x) = "translateY(20px)"
            /\ transition (style x) = slow_fade
            /\ exists l0, observer p0 = Some l0 /\ In (nid x) l0) as Hidden.
  { intros x Hx Hm. rewrite E0 in Hx. cbn [dom with_observer update_page with_dom] in Hx.
    destruct (@in_subtree_rewrite G0 (dom p) x L0 Hx) as [x0 [Hx0 ->]].
    assert (matches sel_animated [] x0 = true) as Hm0.
    { rewrite <- Hm. symmetry.
      apply (@matches_rewrite sel_animated G0 [] x0 L0).
      apply stable_compose_at. unfold hide_updates. rewrite Forall_map.
      apply Forall_forall. intros. apply hide_stable. }
    assert (In x0 els) as Hel.
    { unfold els. rewrite (@select_simple sel_animated (dom p) simple_animated []).
      apply filter_In. auto. }
    assert (In (nid x0) (map nid els)) as Hid by (apply in_map, Hel).
    rewrite style_rewrite, nid_rewrite by exact L0.
    rewrite H0, (existsb_nat_In _ _ Hid).
    split; [reflexivity|]. split; [reflexivity|]. split; [reflexivity|].
    exists (observe_all (map nid els) l). split; [rewrite E0; reflexivity|].
    apply observe_all_In, Hid. }
  split; [unfold p0; rewrite (@animateInit_eq p l Ho); reflexivity|].
  split; [exact Hidden|].
  split; [rewrite observerCallback_eq; reflexivity|].
  split.
  { intros x Hx Hin. rewrite E1 in Hx. cbn [dom update_page with_dom] in Hx.
    destruct (@in_subtree_rewrite G1 (dom p0) x L1 Hx) as [x1 [Hx1 ->]].
    rewrite nid_rewrite in Hin by exact L1.
    rewrite style_rewrite by exact L1.
    rewrite H1, (existsb_nat_In _ _ (reveal_updates_ids _ _ Hin)).
    split; reflexivity. }
  split.
  { intros x Hx Hm. rewrite E1 in Hx. cbn [dom update_page with_dom] in Hx.
    destruct (@in_subtree_rewrite G1 (dom p0) x L1 Hx) as [x1 [Hx1 ->]].
    assert (matches sel_animated [] x1 = true) as Hm1.
    { rewrite <- Hm. symmetry.
      apply (@matches_rewrite sel_animated G1 [] x1 L1).
      apply stable_compose_at. eapply Forall_impl; [|apply reveal_updates_same].
      intros u Eu. rewrite Eu. apply reveal_stable. }
    destruct (Hidden x1 Hx1 Hm1) as [_ [_ [Ht _]]].
    rewrite style_rewrite by exact L1. rewrite H1.
    destruct (existsb _ _); [|exact Ht]. exact Ht. }
  split; [rewrite E1; reflexivity|].
  rewrite observerCallback_eq. f_equal. rewrite E1.
  rewrite update_page_compose by exact L1.
  apply update_page_ext. intros x.
  apply (@compose_at_same_idem reveal).
  - apply reveal_local.
  - apply reveal_idem.
  - apply reveal_updates_same.
Qed.

(** The index page once main.js ran, and its timeline item after
    registration and one intersection. *)
Definition booted : Page := boot_main index_page true.
Definition item_entries : list (nat * bool) := [(50%nat, true)].
Definition revealed : Page := snd (observerCallback item_entries (snd (animateInit booted))).
Definition the_item : Node :=
  match element 50 (dom revealed) with Some x => x | None => el 0 "" [] [] [] end.

Lemma reveal_repeats_and_keeps_observing_witness :
  observer booted = Some []
  /\ (opacity (style the_item) = "1" /\ transform (style the_item) = "translateY(0)")
  /\ transition (style the_item) = slow_fade
  /\ observer revealed = observer (snd (animateInit booted))
  /\ observerCallback item_entries revealed = (Normal tt, revealed).
Proof.
  assert (observer booted = Some []) as Ho by (vm_compute; reflexivity).
  assert (In the_item (subtree (dom revealed))) as Hin
      by (vm_compute; repeat (first [left; reflexivity | right])).
  assert (In (nid the_item, true) item_entries) as Hent by (left; reflexivity).
  assert (matches sel_animated [] the_item = true) as Hm by (vm_compute; reflexivity).
  destruct (@reveal_repeats_and_keeps_observing booted [] item_entries Ho)
    as [_ [_ [_ [Hrev [Htr [Hobs Hidem]]]]]].
  split; [exact Ho|].
  split; [exact (Hrev the_item Hin Hent)|].
  split; [exact (Htr the_item Hin Hm)|].
  split; [exact Hobs|exact Hidem].
Defined.

(** C4 fails on the code. Where [IntersectionObserver] is not defined,
    main.js line 106 throws a ReferenceError at top level and the rest of
    the script never runs: of its listeners only the four registered above
    line 106 exist, and the keydown handler of line 128 is not among them.
    On the index page with the menu open, Escape closes the menu when the
    capability is there and does nothing when it is not. The animated
    elements are never hidden in that case, because the hiding code was
    never registered either. *)
Theorem missing_observer_aborts_main_js (root : Node) :
  snd (load_script "js/main.js" main_js (fresh_page root false))
  = [mkRun (JScript "js/main.js")
           (Throw (ReferenceError "IntersectionObserver is not defined"))]
  /\ listeners (boot_main root false)
     = [mkListener TDocument "DOMContentLoaded" MenuInit;
        mkListener TWindow "scroll" ScrollSpy;
        mkListener TDocument "DOMContentLoaded" LearnMoreInit;
        mkListener TDocument "DOMContentLoaded" TimelineInit]
  /\ (forall key, step (KeyDown key) (boot_main root false) = (boot_main root false, []))
  /\ (let menu_after io :=
          option_map classList
            (element 12 (dom (fst (run [DOMContentLoaded; KeyDown "Escape"]
                                       (boot_main (open_menu index_page) io))))) in
      menu_after true = Some ["nav-menu"]
      /\ menu_after false = Some ["nav-menu"; "active"])
  /\ map (fun x => opacity (style x))
         (select sel_animated []
                 (dom (fst (step DOMContentLoaded (boot_main index_page false)))))
     = [""; ""].
Proof.
  split; [reflexivity|].
  split; [reflexivity|].
  split; [intros key; reflexivity|].
  split; [cbv zeta; split; vm_compute; reflexivity|].
  vm_compute; reflexivity.
Qed.

End AnimatorProps.

(* ================================================================== *)
(** ** What handlers preserve *)
(* ================================================================== *)

Module Invariants.
Import Dom Js Browser MainJs IncludesJs Loop MonadFacts.

(** [m] maintains [I], whether it completes or throws. *)
Definition preserves {A} (I : Page -> Prop) (m : M A) : Prop :=
  forall p, I p -> I (snd (m p)).

Section Rules.
Variable I : Page -> Prop.

Lemma preserves_ret {A} (a : A) : preserves I (ret a).
Proof. intros p H. exact H. Qed.

Lemma preserves_throw {A} e : preserves I (@throw A e).
Proof. intros p H. exact H. Qed.

Lemma preserves_get : preserves I get.
Proof. intros p H. exact H. Qed.

Lemma preserves_prop {A B} (o : option A) name (f : A -> B) : preserves I (prop o name f).
Proof. intros p H. destruct o; exact H. Qed.

Lemma preserves_modify f : (forall p, I p -> I (f p)) -> preserves I (modify f).
Proof. intros Hf p H. apply Hf, H. Qed.

Lemma preserves_bind {A B} (m : M A) (k : A -> M B) :
  preserves I m -> (forall a, preserves I (k a)) -> preserves I (bind m k).
Proof.
  intros Hm Hk p H. unfold bind. specialize (Hm p H).
  destruct (m p) as [[a|e] p']; simpl in *; [apply Hk, Hm|exact Hm].
Qed.

Lemma preserves_try_catch {A} (m : M A) (h : JsError -> M A) :
  preserves I m -> (forall e, preserves I (h e)) -> preserves I (try_catch m h).
Proof.
  intros Hm Hh p H. unfold try_catch. specialize (Hm p H).
  destruct (m p) as [[a|e] p']; simpl in *; [exact Hm|apply Hh, Hm].
Qed.

Lemma preserves_forEach {A} (l : list A) (f : A -> M unit) :
  (forall a, preserves I (f a)) -> preserves I (forEach l f).
Proof.
  intros Hf. induction l as [|a l IH]; simpl.
  - apply preserves_ret.
  - apply preserves_bind; [apply Hf|intros _; exact IH].
Qed.

Lemma preserves_forEach_var {A V} (l : list A) (f : V -> A -> M V) : forall v,
  (forall v a, preserves I (f v a)) -> preserves I (forEach_var l v f).
Proof.
  induction l as [|a l IH]; intros v Hf; simpl.
  - apply preserves_ret.
  - apply preserves_bind; [apply Hf|intros v'; apply IH, Hf].
Qed.

Lemma preserves_if {A} (b : bool) (m1 m2 : M A) :
  preserves I m1 -> preserves I m2 -> preserves I (if b then m1 else m2).
Proof. destruct b; auto. Qed.

(** An invariant that looks only at what [run_job] does not touch
    survives a whole job. *)
Lemma preserves_run_job j (m : M unit) p :
  (forall q c, I q -> I (with_console c q)) ->
  preserves I m -> I p -> I (fst (run_job j m p)).
Proof.
  intros Hc Hm H. unfold run_job. specialize (Hm p H).
  destruct (m p) as [[a|e] p']; simpl in *; [exact Hm|apply Hc, Hm].
Qed.
End Rules.

(** Timers whose callback is the one of main.js 86-88. *)
Definition tame_timer (t : Timer) : Prop :=
  match t_action t with
  | ResetScale _ => True
  | Later _ _ _ => False
  end.

(** The listener table is [L] and no debounce timer is pending. *)
Definition settled (L : list Listener) (p : Page) : Prop :=
  listeners p = L /\ Forall tame_timer (timers p).

Section Settled.
Variable L : list Listener.

Ltac easy_modify :=
  apply preserves_modify; intros q [H1 H2]; split; [exact H1|exact H2].

Lemma settled_updateElement i f : preserves (settled L) (updateElement i f).
Proof. unfold updateElement. easy_modify. Qed.

Lemma settled_set_innerHTML t html : preserves (settled L) (set_innerHTML t html).
Proof. unfold set_innerHTML. easy_modify. Qed.

Lemma settled_console_log msg : preserves (settled L) (console_log msg).
Proof. unfold console_log. easy_modify. Qed.

Lemma settled_console_warn msg e : preserves (settled L) (console_warn msg e).
Proof. unfold console_warn. easy_modify. Qed.

Lemma settled_alert msg : preserves (settled L) (alert msg).
Proof. unfold alert. easy_modify. Qed.

Lemma settled_querySelector sel : preserves (settled L) (querySelector sel).
Proof. intros p H. exact H. Qed.

Lemma settled_querySelectorAll sel : preserves (settled L) (querySelectorAll sel).
Proof. intros p H. exact H. Qed.

Lemma settled_setTimeout_reset i wait : preserves (settled L) (setTimeout (ResetScale i) wait).
Proof.
  intros p [H1 H2]. split; [exact H1|]. simpl.
  apply Forall_app. split; [exact H2|]. constructor; [exact Logic.I|constructor].
Qed.

Lemma settled_scrollSpy : preserves (settled L) scrollSpy.
Proof.
  unfold scrollSpy.
  apply preserves_bind; [apply settled_querySelectorAll|intros sections].
  apply preserves_bind; [apply settled_querySelectorAll|intros links].
  apply preserves_bind.
  - apply preserves_forEach_var. intros v s. unfold section_step.
    apply preserves_bind; [apply settled_querySelector|intros h].
    apply preserves_bind; [apply preserves_prop|intros hh].
    apply preserves_bind; [apply preserves_get|intros q].
    apply preserves_if; apply preserves_ret.
  - intros cur. apply preserves_forEach. intros link. unfold link_step.
    apply preserves_bind; [apply settled_updateElement|intros _].
    apply preserves_if; [apply settled_updateElement|apply preserves_ret].
Qed.

Lemma settled_escapeKey e : preserves (settled L) (escapeKey e).
Proof.
  unfold escapeKey. destruct e; try apply preserves_ret.
  apply preserves_if; [|apply preserves_ret].
  apply preserves_bind; [apply settled_querySelector|intros m].
  apply preserves_bind; [apply settled_querySelector|intros h].
  destruct m as [m|]; [|apply preserves_ret].
  apply preserves_if; [|apply preserves_ret].
  apply preserves_bind; [apply settled_updateElement|intros _].
  apply preserves_bind; [apply preserves_prop|intros i].
  apply settled_updateElement.
Qed.

Lemma settled_learnMoreClick this : preserves (settled L) (learnMoreClick this).
Proof.
  unfold learnMoreClick. destruct this; try apply preserves_throw.
  apply preserves_bind; [apply preserves_get|intros q].
  apply preserves_bind; [apply preserves_prop|intros h3].
  apply preserves_bind; [apply preserves_prop|intros title].
  apply settled_alert.
Qed.

Lemma settled_timelineClick this : preserves (settled L) (timelineClick this).
Proof.
  unfold timelineClick. destruct this; try apply preserves_throw.
  apply preserves_bind; [apply preserves_get|intros q].
  apply preserves_bind; [apply preserves_prop|intros title].
  apply preserves_bind; [apply settled_updateElement|intros _].
  apply preserves_bind; [apply settled_setTimeout_reset|intros _].
  apply settled_console_log.
Qed.

Lemma settled_observerCallback es : preserves (settled L) (observerCallback es).
Proof.
  unfold observerCallback. apply preserves_forEach. intros [i b]. simpl.
  apply preserves_if; [|apply preserves_ret].
  apply preserves_bind; [apply settled_updateElement|intros _].
  apply settled_updateElement.
Qed.

Lemma settled_loadHTML_resume url sel o : preserves (settled L) (loadHTML_resume url sel o).
Proof.
  unfold loadHTML_resume. apply preserves_try_catch.
  - apply preserves_bind.
    { destruct o; [apply preserves_throw|apply preserves_ret]. }
    intros r. apply preserves_bind.
    { unfold await_text. destruct (body r); [apply preserves_ret|apply preserves_throw]. }
    intros html. apply preserves_bind; [apply settled_querySelector|intros t].
    destruct t; [apply settled_set_innerHTML|apply preserves_ret].
  - intros e. apply settled_console_warn.
Qed.

Lemma settled_with_console q c : settled L q -> settled L (with_console c q).
Proof. intros [H1 H2]. split; assumption. Qed.

End Settled.

End Invariants.

Module StepFacts.
Import Dom Js Browser MainJs IncludesJs Loop MonadFacts Invariants.

(** The handlers that run after start-up. *)
Definition late_handler (h : Handler) : Prop :=
  match h with
  | ScrollSpy | EscapeKey | LearnMoreClick | TimelineClick => True
  | HamburgerClick _ _ | NavLinkClick _ _ => True
  | _ => False
  end.

(** A listener is tame when only DOMContentLoaded can reach a start-up
    handler through it. *)
Definition tame_listener (l : Listener) : Prop :=
  l_type l = "DOMContentLoaded" \/ late_handler (l_handler l).

Section Steps.
Variable L : list Listener.
Hypothesis tame : Forall tame_listener L.

Lemma settled_invoke h this e :
  late_handler h -> preserves (settled L) (invoke h this e).
Proof.
  destruct h; simpl; intros H; try destruct H.
  - unfold hamburgerClick.
    apply preserves_bind; [apply settled_updateElement|intros _; apply settled_updateElement].
  - unfold navLinkClick.
    apply preserves_bind; [apply settled_updateElement|intros _; apply settled_updateElement].
  - apply settled_scrollSpy.
  - apply settled_learnMoreClick.
  - apply settled_timelineClick.
  - apply settled_escapeKey.
Qed.

Lemma settled_run_listeners ls e : forall p,
  Forall (fun l => late_handler (l_handler l)) ls ->
  settled L p -> settled L (fst (run_listeners ls e p)).
Proof.
  induction ls as [|l ls IH]; intros p Hl Hp; simpl; [exact Hp|].
  inversion Hl as [|? ? Hl1 Hl2]; subst.
  assert (settled L (fst (run_job (JListener (l_handler l))
                                  (invoke (l_handler l) (l_target l) e) p))) as H1.
  { apply preserves_run_job; [apply settled_with_console| |exact Hp].
    apply settled_invoke, Hl1. }
  destruct (run_job _ _ p) as [p1 r1]. simpl in H1.
  specialize (IH p1 Hl2 H1). destruct (run_listeners ls e p1) as [p2 r2]. exact IH.
Qed.

Lemma listeners_on_late path ty p :
  ty <> "DOMContentLoaded" -> listeners p = L ->
  Forall (fun l => late_handler (l_handler l)) (listeners_on path ty p).
Proof.
  intros Hty HL. unfold listeners_on. rewrite HL.
  apply Forall_forall. intros l Hin. apply in_flat_map in Hin.
  destruct Hin as [t [_ Hin]]. apply filter_In in Hin. destruct Hin as [Hin Hf].
  apply andb_true_iff in Hf. destruct Hf as [_ Hf]. apply String.eqb_eq in Hf.
  rewrite Forall_forall in tame. destruct (tame l Hin) as [Ht|Hh]; [|exact Hh].
  congruence.
Qed.

Lemma settled_dispatch path ty e p :
  ty <> "DOMContentLoaded" -> settled L p -> settled L (fst (dispatch path ty e p)).
Proof.
  intros Hty Hp. unfold dispatch. apply settled_run_listeners; [|exact Hp].
  apply listeners_on_late; [exact Hty|apply Hp].
Qed.

Lemma earliest_In ts t : earliest ts = Some t -> In t ts.
Proof.
  revert t. induction ts as [|u ts IH]; intros t; simpl; [discriminate|].
  destruct (earliest ts) as [v|].
  - destruct (t_due v <? t_due u)%Z; intros E; injection E as <-; auto.
  - intros E; injection E as <-; auto.
Qed.

Lemma settled_run_timers fuel limit : forall p,
  settled L p -> settled L (fst (run_timers fuel limit p)).
Proof.
  induction fuel as [|fuel IH]; intros p Hp; simpl; [exact Hp|].
  unfold next_due. destruct (earliest (timers p)) as [t|] eqn:Et; [|exact Hp].
  destruct (t_due t <=? limit)%Z; [|exact Hp].
  assert (tame_timer t) as Ht.
  { destruct Hp as [_ Hp]. rewrite Forall_forall in Hp. apply Hp, earliest_In, Et. }
  set (p0 := with_now _ _).
  assert (settled L p0) as H0.
  { destruct Hp as [H1 H2]. split; [exact H1|]. simpl.
    apply Forall_forall. intros u Hu. apply filter_In in Hu.
    rewrite Forall_forall in H2. apply H2, Hu. }
  assert (settled L (fst (run_job (JTimer (t_action t)) (run_timer (t_action t)) p0))) as H1.
  { apply preserves_run_job; [apply settled_with_console| |exact H0].
    unfold tame_timer in Ht. destruct (t_action t); [|destruct Ht].
    apply settled_updateElement. }
  destruct (run_job _ _ p0) as [p1 r1]. simpl in H1.
  specialize (IH p1 H1). destruct (run_timers fuel limit p1) as [p2 r2]. exact IH.
Qed.

(** Any turn of the event loop other than DOMContentLoaded leaves the
    listener table as it is. *)
Lemma settled_step e p :
  e <> DOMContentLoaded -> settled L p -> settled L (fst (step e p)).
Proof.
  intros He Hp. destruct e; simpl.
  - congruence.
  - apply settled_dispatch; [discriminate|]. destruct Hp; split; assumption.
  - destruct (path_to target [] (dom p)); [|exact Hp].
    apply settled_dispatch; [discriminate|exact Hp].
  - apply settled_dispatch; [discriminate|exact Hp].
  - destruct (observed_entries entries p) as [|x es]; [exact Hp|].
    apply preserves_run_job; [apply settled_with_console| |exact Hp].
    apply settled_observerCallback.
  - destruct (take_request url (requests p)) as [[r rest]|]; [|exact Hp].
    apply preserves_run_job; [apply settled_with_console| |].
    + apply settled_loadHTML_resume.
    + destruct Hp; split; assumption.
  - pose proof (@settled_run_timers (List.length (timers p)) (now p + Z.max 0 ms)%Z p Hp) as H.
    destruct (run_timers _ _ p) as [p' rs]. simpl in *.
    destruct H; split; assumption.
Qed.

Lemma settled_run es : forall p,
  ~ In DOMContentLoaded es -> settled L p -> settled L (fst (run es p)).
Proof.
  induction es as [|e es IH]; intros p Hn Hp; simpl; [exact Hp|].
  assert (settled L (fst (step e p))) as H1.
  { apply settled_step; [|exact Hp]. intros ->. apply Hn. left. reflexivity. }
  destruct (step e p) as [p1 r1]. simpl in H1.
  assert (~ In DOMContentLoaded es) as Hn' by (intros H; apply Hn; right; exact H).
  specialize (IH p1 Hn' H1). destruct (run es p1) as [p2 r2]. exact IH.
Qed.
End Steps.

End StepFacts.

Module StartupFacts.
Import Dom Js Browser MainJs IncludesJs Loop MonadFacts MenuFacts Invariants StepFacts.

(** The click listeners main.js 62-98 attach. *)
Definition card_click (l : Listener) : Prop :=
  l_type l = "click" /\ (l_handler l = LearnMoreClick \/ l_handler l = TimelineClick).

(** [m] only appends card listeners and sets no timer. *)
Definition appends {A} (m : M A) : Prop :=
  forall p, exists ls,
    listeners (snd (m p)) = listeners p ++ ls
    /\ Forall card_click ls
    /\ timers (snd (m p)) = timers p.

Lemma appends_ret {A} (a : A) : appends (ret a).
Proof. intros p. exists []. rewrite app_nil_r. repeat split; constructor. Qed.

Lemma appends_throw {A} e : appends (@throw A e).
Proof. intros p. exists []. rewrite app_nil_r. repeat split; constructor. Qed.

Lemma appends_get : appends get.
Proof. intros p. exists []. rewrite app_nil_r. repeat split; constructor. Qed.

Lemma appends_modify f :
  (forall p, listeners (f p) = listeners p /\ timers (f p) = timers p) ->
  appends (modify f).
Proof.
  intros H p. exists []. rewrite app_nil_r. simpl. destruct (H p) as [H1 H2].
  split; [exact H1|]. split; [constructor|exact H2].
Qed.

Lemma appends_bind {A B} (m : M A) (k : A -> M B) :
  appends m -> (forall a, appends (k a)) -> appends (bind m k).
Proof.
  intros Hm Hk p. unfold bind. destruct (Hm p) as [ls [H1 [H2 H3]]].
  destruct (m p) as [[a|e] p']; simpl in *.
  - destruct (Hk a p') as [ls' [K1 [K2 K3]]]. exists (ls ++ ls').
    rewrite K1, H1, app_assoc. split; [reflexivity|]. split.
    + apply Forall_app. auto.
    + congruence.
  - exists ls. auto.
Qed.

Lemma appends_forEach {A} (l : list A) (f : A -> M unit) :
  (forall a, appends (f a)) -> appends (forEach l f).
Proof.
  intros Hf. induction l as [|a l IH]; simpl.
  - apply appends_ret.
  - apply appends_bind; [apply Hf|intros _; exact IH].
Qed.

Lemma appends_addEventListener t h :
  h = LearnMoreClick \/ h = TimelineClick -> appends (addEventListener t "click" h).
Proof.
  intros Hh p. exists [mkListener t "click" h]. simpl.
  split; [reflexivity|]. split; [|reflexivity].
  constructor; [|constructor]. split; [reflexivity|exact Hh].
Qed.

Lemma appends_updateElement i f : appends (updateElement i f).
Proof. apply appends_modify. intros p. split; reflexivity. Qed.

Lemma appends_querySelectorAll sel : appends (querySelectorAll sel).
Proof. intros p. exists []. rewrite app_nil_r. repeat split; constructor. Qed.

Lemma appends_observe i : appends (observe i).
Proof.
  unfold observe. apply appends_bind; [apply appends_get|intros q].
  destruct (observer q); [|apply appends_throw].
  destruct (existsb _ _); [apply appends_ret|].
  apply appends_modify. intros p. split; reflexivity.
Qed.

Lemma appends_learnMoreInit : appends learnMoreInit.
Proof.
  unfold learnMoreInit. apply appends_bind; [apply appends_querySelectorAll|intros l].
  apply appends_forEach. intros b. apply appends_addEventListener. left. reflexivity.
Qed.

Lemma appends_timelineInit : appends timelineInit.
Proof.
  unfold timelineInit. apply appends_bind; [apply appends_querySelectorAll|intros l].
  apply appends_forEach. intros b.
  apply appends_bind; [apply appends_addEventListener; right; reflexivity|intros _].
  apply appends_bind; [apply appends_updateElement|intros _].
  apply appends_updateElement.
Qed.

Lemma appends_animateInit : appends animateInit.
Proof.
  unfold animateInit. apply appends_bind; [apply appends_querySelectorAll|intros l].
  apply appends_forEach. intros b.
  apply appends_bind; [apply appends_updateElement|intros _].
  apply appends_bind; [apply appends_updateElement|intros _].
  apply appends_bind; [apply appends_updateElement|intros _].
  apply appends_observe.
Qed.

Lemma appends_run_job {j} {m : M unit} p :
  appends m ->
  exists ls, listeners (fst (run_job j m p)) = listeners p ++ ls
             /\ Forall card_click ls
             /\ timers (fst (run_job j m p)) = timers p.
Proof.
  intros Hm. unfold run_job. destruct (Hm p) as [ls H].
  destruct (m p) as [[a|e] p']; simpl in *; exists ls; exact H.
Qed.

Lemma fst_run_listeners_cons l ls e p :
  fst (run_listeners (l :: ls) e p)
  = fst (run_listeners ls e
           (fst (run_job (JListener (l_handler l)) (invoke (l_handler l) (l_target l) e) p))).
Proof.
  simpl. destruct (run_job _ _ p) as [p1 r1]. simpl.
  destruct (run_listeners ls e p1) as [p2 r2]. reflexivity.
Qed.

(** The listeners the two scripts register while they load. *)
Definition boot_listeners : list Listener :=
  [mkListener TDocument "DOMContentLoaded" IncludesInit;
   mkListener TDocument "DOMContentLoaded" MenuInit;
   mkListener TWindow "scroll" ScrollSpy;
   mkListener TDocument "DOMContentLoaded" LearnMoreInit;
   mkListener TDocument "DOMContentLoaded" TimelineInit;
   mkListener TDocument "DOMContentLoaded" AnimateInit;
   mkListener TDocument "keydown" EscapeKey].

(** Start-up of a page that has no hamburger or no menu panel yet: beyond
    what the scripts registered while loading, only card listeners exist
    afterwards, and no timer. *)
Lemma startup_without_menu root :
  hd_error (select sel_hamburger [] root) = None
  \/ hd_error (select sel_navMenu [] root) = None ->
  exists ls,
    listeners (fst (step DOMContentLoaded (boot_both root true))) = boot_listeners ++ ls
    /\ Forall card_click ls
    /\ timers (fst (step DOMContentLoaded (boot_both root true))) = [].
Proof.
  intros Habs. unfold step, dispatch.
  assert (listeners_on [TDocument; TWindow] "DOMContentLoaded" (boot_both root true)
          = [mkListener TDocument "DOMContentLoaded" IncludesInit;
             mkListener TDocument "DOMContentLoaded" MenuInit;
             mkListener TDocument "DOMContentLoaded" LearnMoreInit;
             mkListener TDocument "DOMContentLoaded" TimelineInit;
             mkListener TDocument "DOMContentLoaded" AnimateInit]) as -> by reflexivity.
  rewrite fst_run_listeners_cons. cbn [l_handler l_target invoke].
  set (pa := fst (run_job (JListener IncludesInit) includesInit (boot_both root true))).
  assert (listeners pa = boot_listeners /\ timers pa = [] /\ dom pa = root) as [La [Ta Da]]
      by (repeat split; reflexivity).
  rewrite fst_run_listeners_cons. cbn [l_handler l_target invoke].
  assert (fst (run_job (JListener MenuInit) menuInit pa) = pa) as ->.
  { unfold run_job. rewrite menuInit_eq. unfold hamburger_of, navMenu_of. rewrite Da.
    destruct Habs as [-> | ->]; [reflexivity|].
    destruct (hd_error (select sel_hamburger [] root)); reflexivity. }
  rewrite fst_run_listeners_cons. cbn [l_handler l_target invoke].
  destruct (@appends_run_job (JListener LearnMoreInit) learnMoreInit pa appends_learnMoreInit)
    as [l1 [L1 [C1 T1]]].
  set (pb := fst (run_job (JListener LearnMoreInit) learnMoreInit pa)) in *.
  rewrite fst_run_listeners_cons. cbn [l_handler l_target invoke].
  destruct (@appends_run_job (JListener TimelineInit) timelineInit pb appends_timelineInit)
    as [l2 [L2 [C2 T2]]].
  set (pc := fst (run_job (JListener TimelineInit) timelineInit pb)) in *.
  rewrite fst_run_listeners_cons. cbn [l_handler l_target invoke].
  destruct (@appends_run_job (JListener AnimateInit) animateInit pc appends_animateInit)
    as [l3 [L3 [C3 T3]]].
  set (pd := fst (run_job (JListener AnimateInit) animateInit pc)) in *.
  cbn [run_listeners fst].
  exists (l1 ++ l2 ++ l3). split; [|split].
  - rewrite L3, L2, L1, La. rewrite <- !app_assoc. reflexivity.
  - repeat (apply Forall_app; split); assumption.
  - congruence.
Qed.

Lemma card_click_tame l : card_click l -> tame_listener l.
Proof.
  intros [_ [H|H]]; right; rewrite H; exact Logic.I.
Qed.

Lemma boot_listeners_tame : Forall tame_listener boot_listeners.
Proof.
  repeat constructor; try (left; reflexivity); right; exact Logic.I.
Qed.

End StartupFacts.

(* ================================================================== *)
(** ** Late binding: nodes that arrive from the fragment loader *)
(* ================================================================== *)

Module LateBinding.
Import Dom Js Browser MainJs IncludesJs Loop Pages DomFacts MonadFacts PageFacts.
Import ScrollSpyFacts MenuFacts Invariants StepFacts StartupFacts LoaderProps.

Definition menu_job (j : Job) : Prop :=
  match j with
  | JListener (HamburgerClick _ _) | JListener (NavLinkClick _ _) => True
  | _ => False
  end.

Definition menu_listener (l : Listener) : Prop := menu_job (JListener (l_handler l)).

Lemma jobs_run_listeners ls e : forall p,
  map job (snd (run_listeners ls e p)) = map (fun l => JListener (l_handler l)) ls.
Proof.
  induction ls as [|l ls IH]; intros p; simpl; [reflexivity|].
  unfold run_job. destruct (invoke (l_handler l) (l_target l) e p) as [[a|x] p1];
    specialize (IH p1) + specialize (IH (with_console (console p1 ++ [Uncaught x]) p1));
    destruct (run_listeners ls e _) as [p2 r2]; simpl in *; now rewrite IH.
Qed.

Lemma filter_cards_other t ty ls :
  ty <> "click" -> Forall card_click ls ->
  filter (fun l => target_eqb (l_target l) t && String.eqb (l_type l) ty) ls = [].
Proof.
  intros Hty H. induction H as [|l ls [Hc _] _ IH]; simpl; [reflexivity|].
  rewrite Hc. destruct (String.eqb "click" ty) eqn:E.
  - apply String.eqb_eq in E. congruence.
  - rewrite andb_false_r. exact IH.
Qed.

Section Reached.
Variable root : Node.
Variable es : list Event.
Hypothesis no_menu :
  hd_error (select sel_hamburger [] root) = None
  \/ hd_error (select sel_navMenu [] root) = None.
Hypothesis after_startup : ~ In DOMContentLoaded es.

(** Any state reached after start-up. *)
Definition reached : Page :=
  fst (run es (fst (step DOMContentLoaded (boot_both root true)))).

Lemma reached_listeners :
  exists ls, listeners reached = boot_listeners ++ ls /\ Forall card_click ls.
Proof.
  destruct (startup_without_menu root no_menu) as [ls [H1 [H2 H3]]].
  exists ls. split; [|exact H2].
  apply (@settled_run (boot_listeners ++ ls)).
  - apply Forall_app. split; [apply boot_listeners_tame|].
    eapply Forall_impl; [|exact H2]. apply card_click_tame.
  - exact after_startup.
  - split; [exact H1|]. rewrite H3. constructor.
Qed.

Lemma reached_no_menu_listener : Forall (fun l => ~ menu_listener l) (listeners reached).
Proof.
  destruct reached_listeners as [ls [-> Hc]]. apply Forall_app. split.
  - repeat constructor; intros H; exact H.
  - eapply Forall_impl; [|exact Hc]. intros l [_ [H|H]] Hm;
      unfold menu_listener in Hm; rewrite H in Hm; exact Hm.
Qed.

Lemma reached_click t : Forall (fun r => ~ menu_job (job r)) (snd (step (Click t) reached)).
Proof.
  unfold step. destruct (path_to t [] (dom reached)) as [path|]; [|constructor].
  unfold dispatch.
  assert (Forall (fun j => ~ menu_job j)
                 (map job (snd (run_listeners
                                  (listeners_on (map (fun n => TElement (nid n)) path
                                                 ++ [TDocument; TWindow]) "click" reached)
                                  (Click t) reached)))) as H.
  { rewrite jobs_run_listeners. rewrite Forall_map. apply Forall_forall.
    intros l Hl. unfold listeners_on in Hl. apply in_flat_map in Hl.
    destruct Hl as [tg [_ Hl]]. apply filter_In in Hl. destruct Hl as [Hl _].
    pose proof reached_no_menu_listener as Hn. rewrite Forall_forall in Hn.
    exact (Hn l Hl). }
  rewrite Forall_map in H. exact H.
Qed.

Lemma reached_scroll y :
  step (Scroll y) reached
  = run_job (JListener ScrollSpy) scrollSpy (with_pageYOffset y reached).
Proof.
  unfold step, dispatch.
  assert (listeners_on [TDocument; TWindow] "scroll" (with_pageYOffset y reached)
          = [mkListener TWindow "scroll" ScrollSpy]) as ->.
  { unfold listeners_on. cbn [listeners with_pageYOffset flat_map].
    destruct reached_listeners as [ls [-> Hc]].
    rewrite !filter_app.
    rewrite (@filter_cards_other TDocument "scroll" ls) by (discriminate || exact Hc).
    rewrite (@filter_cards_other TWindow "scroll" ls) by (discriminate || exact Hc).
    reflexivity. }
  cbn [run_listeners l_handler l_target invoke].
  destruct (run_job _ _ _) as [p1 r1]. now rewrite app_nil_r.
Qed.

Lemma reached_keydown k :
  step (KeyDown k) reached = run_job (JListener EscapeKey) (escapeKey (KeyDown k)) reached.
Proof.
  unfold step, dispatch.
  assert (listeners_on [TDocument; TWindow] "keydown" reached
          = [mkListener TDocument "keydown" EscapeKey]) as ->.
  { unfold listeners_on. cbn [flat_map].
    destruct reached_listeners as [ls [-> Hc]].
    rewrite !filter_app.
    rewrite (@filter_cards_other TDocument "keydown" ls) by (discriminate || exact Hc).
    rewrite (@filter_cards_other TWindow "keydown" ls) by (discriminate || exact Hc).
    reflexivity. }
  cbn [run_listeners l_handler l_target invoke].
  destruct (run_job _ _ _) as [p1 r1]. now rewrite app_nil_r.
Qed.
End Reached.

Definition close_menu (h m : Node) (x : Node) : Node :=
  at_id (nid h) (classList_remove "active") (at_id (nid m) (classList_remove "active") x).

Lemma close_menu_local h m : local (close_menu h m).
Proof.
  apply (@local_compose (at_id (nid m) (classList_remove "active"))
                        (at_id (nid h) (classList_remove "active"))); auto with dom.
Qed.

Lemma close_menu_closed h m x :
  nid x = nid m \/ nid x = nid h ->
  classList_contains "active" (close_menu h m x) = false.
Proof.
  intros Hx. unfold close_menu, at_id, classList_contains.
  destruct (Nat.eqb (nid x) (nid m)) eqn:Em.
  - cbn [nid classList_remove set_classList].
    destruct (Nat.eqb (nid x) (nid h)); cbn [classList classList_remove set_classList].
    + rewrite remove_idem. apply contains_remove_same.
    + apply contains_remove_same.
  - destruct Hx as [Hx|Hx].
    + rewrite Hx, Nat.eqb_refl in Em. discriminate.
    + rewrite Hx, Nat.eqb_refl. apply contains_remove_same.
Qed.

(** Which handlers look their nodes up late. Take a page that has no
    hamburger or no menu panel when DOMContentLoaded fires, and any later
    state of it, whatever the fragment loader injected meanwhile. The
    scroll-spy and the Escape handler query the document when the event
    arrives: a scroll runs main.js 37-59 on the document as it is then and,
    with the header in it, completes and marks the links of that document;
    Escape, with an open panel and a hamburger in the document, removes
    "active" from both. The click toggle and the link closers are bound
    once, at DOMContentLoaded: none was attached, so no click ever runs
    one. *)
Lemma late_nodes_get_scroll_and_escape_but_no_toggle (root : Node) (es : list Event) :
  hd_error (select sel_hamburger [] root) = None
  \/ hd_error (select sel_navMenu [] root) = None ->
  ~ In DOMContentLoaded es ->
  let p := reached root es in
  Forall (fun l => ~ menu_listener l) (listeners p)
  /\ (forall t, Forall (fun r => ~ menu_job (job r)) (snd (step (Click t) p)))
  /\ (forall y,
        step (Scroll y) p
        = run_job (JListener ScrollSpy) scrollSpy (with_pageYOffset y p))
  /\ (forall y h,
        header_of p = Some h -> unique_ids (dom p) = true ->
        snd (step (Scroll y) p) = [mkRun (JListener ScrollSpy) (Normal tt)]
        /\ forall l, In l (links_of (fst (step (Scroll y) p))) ->
             classList_contains "active" l
             = strict_eq (getAttribute "href" l) (current_target (with_pageYOffset y p) h))
  /\ (forall k,
        step (KeyDown k) p
        = run_job (JListener EscapeKey) (escapeKey (KeyDown k)) p)
  /\ (forall m h,
        navMenu_of p = Some m -> hamburger_of p = Some h ->
        classList_contains "active" m = true ->
        step (KeyDown "Escape") p
        = (update_page (close_menu h m) p, [mkRun (JListener EscapeKey) (Normal tt)])
        /\ forall x, In x (subtree (dom (fst (step (KeyDown "Escape") p)))) ->
             nid x = nid m \/ nid x = nid h ->
             classList_contains "active" x = false).
Proof.
  intros Hno Hes p.
  split; [apply (reached_no_menu_listener root es Hno Hes)|].
  split; [intros t; apply (reached_click root es Hno Hes)|].
  split; [intros y; apply (reached_scroll root es Hno Hes)|].
  split.
  { intros y h Hh Hu.
    rewrite (reached_scroll root es Hno Hes). fold p. set (q := with_pageYOffset y p).
    assert (header_of q = Some h) as Hq by exact Hh.
    unfold run_job. rewrite (@scrollSpy_header q h Hq). cbn [fst snd].
    split; [reflexivity|].
    destruct (@marked_links (current_target q h) q Hu) as [_ [_ Hm]]. exact Hm. }
  split; [intros k; apply (reached_keydown root es Hno Hes)|].
  intros m h Hm Hh Ha.
  assert (step (KeyDown "Escape") p
          = (update_page (close_menu h m) p, [mkRun (JListener EscapeKey) (Normal tt)])) as E.
  { unfold p. rewrite (reached_keydown root es Hno Hes). fold p.
    unfold run_job. rewrite escapeKey_eq. cbn [String.eqb Ascii.eqb Bool.eqb].
    rewrite Hm, Ha, Hh. reflexivity. }
  split; [exact E|].
  rewrite E. cbn [fst dom update_page with_dom]. intros x Hx Hid.
  destruct (@in_subtree_rewrite (close_menu h m) (dom p) x (close_menu_local h m) Hx)
    as [x0 [_ ->]].
  rewrite nid_rewrite in Hid by apply close_menu_local.
  unfold classList_contains. rewrite classList_rewrite by apply close_menu_local.
  apply close_menu_closed, Hid.
Qed.

(** The scenario page after its header arrived with the menu open. *)
Definition arrivals : list Event :=
  [FetchSettled header_url (Resolved (mkResponse 200 (BodyText open_header_html)))].

Definition node_of (o : option Node) : Node :=
  match o with Some x => x | None => el 0 "" [] [] [] end.

Lemma late_nodes_get_scroll_and_escape_but_no_toggle_witness :
  let p := reached scenario_page arrivals in
  option_map classList (navMenu_of p) = Some ["nav-menu"; "active"]
  /\ Forall (fun r => ~ menu_job (job r)) (snd (step (Click 19) p))
  /\ snd (step (Scroll 600) p) = [mkRun (JListener ScrollSpy) (Normal tt)]
  /\ snd (step (KeyDown "Escape") p) = [mkRun (JListener EscapeKey) (Normal tt)]
  /\ option_map classList (navMenu_of (fst (step (KeyDown "Escape") p))) = Some ["nav-menu"].
Proof.
  intros p.
  assert (hd_error (select sel_hamburger [] scenario_page) = None
          \/ hd_error (select sel_navMenu [] scenario_page) = None) as Hno
      by (left; reflexivity).
  assert (~ In DOMContentLoaded arrivals) as Hes
      by (intros [H|[]]; discriminate H).
  destruct (@late_nodes_get_scroll_and_escape_but_no_toggle scenario_page arrivals Hno Hes)
    as [_ [Hclick [_ [Hscroll [_ Hesc]]]]].
  fold p in Hclick, Hscroll, Hesc.
  assert (navMenu_of p = Some (node_of (navMenu_of p))) as Hm by (vm_compute; reflexivity).
  assert (hamburger_of p = Some (node_of (hamburger_of p))) as Hh by (vm_compute; reflexivity).
  assert (header_of p = Some (node_of (header_of p))) as Hhd by (vm_compute; reflexivity).
  assert (unique_ids (dom p) = true) as Hu by (vm_compute; reflexivity).
  assert (classList_contains "active" (node_of (navMenu_of p)) = true) as Ha
      by (vm_compute; reflexivity).
  split; [vm_compute; reflexivity|].
  split; [apply Hclick|].
  split; [apply (Hscroll 600%Z _ Hhd Hu)|].
  destruct (Hesc _ _ Hm Hh Ha) as [E _].
  split; [rewrite E; reflexivity|].
  vm_compute; reflexivity.
Defined.

(** The events of a run that come after start-up. *)
Definition later_event (e : Event) : bool :=
  match e with DOMContentLoaded => false | _ => true end.

Lemma later_events es : ~ In DOMContentLoaded (filter later_event es).
Proof. intros H. apply filter_In in H. destruct H as [_ H]. discriminate H. Qed.

Definition is_menu_handler (h : Handler) : bool :=
  match h with
  | HamburgerClick _ _ | NavLinkClick _ _ => true
  | _ => false
  end.

Definition is_menu_job (j : Job) : bool :=
  match j with JListener h => is_menu_handler h | _ => false end.

(** The click listeners of the menu that exist on a page. *)
Definition menu_listeners (p : Page) : list (Target * Handler) :=
  map (fun l => (l_target l, l_handler l))
      (filter (fun l => is_menu_handler (l_handler l)) (listeners p)).

(** A header the author put into the placeholder, with a menu of its
    own; includes.js replaces it by includes/header.html. *)
Definition fallback_header : list Node :=
  [box 110 "header" ["header"] [] 0 70
     [el 112 "ul" ["nav-menu"] [] [el 114 "a" [] [("href", "#home")] []];
      el 119 "div" ["hamburger"] [] []]].

(** The header fragment arrives. *)
Definition header_arrives (html : Html) : Event :=
  FetchSettled header_url (Resolved (mkResponse 200 (BodyText html))).

Definition marked_hrefs (p : Page) : list (option string) :=
  map (getAttribute "href") (filter (classList_contains "active") (links_of p)).

(** C1 fails on the code. A scenario page holds an empty header
    placeholder and loads includes.js and main.js. At DOMContentLoaded
    main.js 3-4 finds no hamburger, the guard of line 6 skips the
    attachment, and nothing runs it again: once the header has arrived, the
    hamburger and the closed panel are in the document and no menu
    listener exists, so a click on the hamburger runs nothing and leaves
    the page as it is, and after any further events no click on any
    element runs a menu handler. With a header of its own in the
    placeholder the listeners are attached to the nodes that the injection
    then removes: they stay bound to those, and a click on the injected
    hamburger runs nothing either. The same markup present from the start
    toggles. The scroll-spy and the Escape handler of the same script query
    the document at each event and do act on the injected nodes. *)
Theorem injected_hamburger_is_never_bound :
  let late := fst (step (header_arrives header_html) (loading [])) in
  let stale := fst (step (header_arrives header_html) (loading fallback_header)) in
  let opened := fst (step (header_arrives open_header_html) (loading [])) in
  hamburger_of (loading []) = None
  /\ menu_listeners (loading []) = []
  /\ option_map nid (hamburger_of late) = Some 19%nat
  /\ option_map classList (navMenu_of late) = Some ["nav-menu"]
  /\ menu_listeners late = []
  /\ step (Click 19) late = (late, [])
  /\ (forall es t,
        existsb (fun r => is_menu_job (job r))
                (snd (step (Click t) (reached scenario_page (filter later_event es))))
        = false)
  /\ option_map nid (hamburger_of (loading fallback_header)) = Some 119%nat
  /\ menu_listeners stale
     = [(TElement 119, HamburgerClick 119 112); (TElement 114, NavLinkClick 119 112)]
  /\ option_map nid (hamburger_of stale) = Some 19%nat
  /\ element 119 (dom stale) = None
  /\ step (Click 19) stale = (stale, [])
  /\ option_map classList (navMenu_of stale) = Some ["nav-menu"]
  /\ option_map classList
       (navMenu_of (fst (step (Click 19)
                              (fst (step DOMContentLoaded (boot_main index_page true))))))
     = Some ["nav-menu"; "active"]
  /\ snd (step (Scroll 600) late) = [mkRun (JListener ScrollSpy) (Normal tt)]
  /\ marked_hrefs (fst (step (Scroll 600) late)) = [Some "#scenarios"]
  /\ option_map classList (navMenu_of opened) = Some ["nav-menu"; "active"]
  /\ snd (step (KeyDown "Escape") opened) = [mkRun (JListener EscapeKey) (Normal tt)]
  /\ option_map classList (navMenu_of (fst (step (KeyDown "Escape") opened)))
     = Some ["nav-menu"].
Proof.
  cbv zeta.
  split; [vm_compute; reflexivity|].
  split; [vm_compute; reflexivity|].
  split; [vm_compute; reflexivity|].
  split; [vm_compute; reflexivity|].
  split; [vm_compute; reflexivity|].
  split; [vm_compute; reflexivity|].
  split.
  { intros es t.
    assert (hd_error (select sel_hamburger [] scenario_page) = None
            \/ hd_error (select sel_navMenu [] scenario_page) = None) as Hno
        by (left; reflexivity).
    pose proof (@reached_click scenario_page (filter later_event es) Hno
                  (later_events es) t) as H.
    induction H as [|r rs Hr _ IH]; [reflexivity|].
    cbn [existsb]. rewrite IH, orb_false_r.
    destruct (job r) as [h| | | |]; try reflexivity.
    destruct h; try reflexivity; exfalso; apply Hr; exact I. }
  split; [vm_compute; reflexivity|].
  split; [vm_compute; reflexivity|].
  split; [vm_compute; reflexivity|].
  split; [vm_compute; reflexivity|].
  split; [vm_compute; reflexivity|].
  split; [vm_compute; reflexivity|].
  split; [vm_compute; reflexivity|].
  split; [vm_compute; reflexivity|].
  split; [vm_compute; reflexivity|].
  split; [vm_compute; reflexivity|].
  split; vm_compute; reflexivity.
Qed.

End LateBinding.

(* ================================================================== *)
(** ** Rate limiting of the scroll handler *)
(* ================================================================== *)

Module DebounceProps.
Import Dom Js Browser MainJs Loop Pages DomFacts MonadFacts PageFacts ScrollSpyFacts.

Definition scroll_listeners (p : Page) : list Listener :=
  listeners_on [TDocument; TWindow] "scroll" p.

Lemma scrollSpy_keeps_listeners p : listeners (snd (scrollSpy p)) = listeners p.
Proof.
  destruct (header_of p) as [h|] eqn:Hh.
  - rewrite (@scrollSpy_header p h Hh). reflexivity.
  - destruct (sections_of p) as [|s rest] eqn:Hs.
    + rewrite (@scrollSpy_no_sections p Hs). reflexivity.
    + rewrite (@scrollSpy_no_header p s rest Hh Hs). reflexivity.
Qed.

(** With the handler of main.js 37 attached as it is, a burst of scroll
    events runs it once per event, however fast they follow each other. *)
Lemma burst_recomputes_each_time (ys : list Z) : forall p,
  scroll_listeners p = [mkListener TWindow "scroll" ScrollSpy] ->
  map job (snd (run (map Scroll ys) p)) = map (fun _ => JListener ScrollSpy) ys.
Proof.
  induction ys as [|y ys IH]; intros p Hp; simpl; [reflexivity|].
  unfold dispatch.
  assert (listeners_on [TDocument; TWindow] "scroll" (with_pageYOffset y p)
          = [mkListener TWindow "scroll" ScrollSpy]) as -> by exact Hp.
  cbn [run_listeners l_handler l_target invoke].
  assert (scroll_listeners (fst (run_job (JListener ScrollSpy) scrollSpy (with_pageYOffset y p)))
          = [mkListener TWindow "scroll" ScrollSpy]) as Hn.
  { unfold scroll_listeners, listeners_on in *. unfold run_job.
    pose proof (scrollSpy_keeps_listeners (with_pageYOffset y p)) as Hk.
    destruct (scrollSpy (with_pageYOffset y p)) as [[a|e] q]; cbn [fst snd] in *;
      cbn [listeners with_console]; rewrite Hk; exact Hp. }
  assert (map job (snd (run_job (JListener ScrollSpy) scrollSpy (with_pageYOffset y p)))
          = [JListener ScrollSpy]) as Hj.
  { unfold run_job. destruct (scrollSpy (with_pageYOffset y p)) as [[a|e] q]; reflexivity. }
  destruct (run_job (JListener ScrollSpy) scrollSpy (with_pageYOffset y p)) as [p1 r1].
  cbn [fst snd] in *. specialize (IH p1 Hn).
  destruct (run (map Scroll ys) p1) as [p2 r2]. cbn [snd] in *.
  rewrite app_nil_r, map_app, Hj, IH. reflexivity.
Qed.

(** main.js as it would read with the wrapper of line 141 applied:
    [window.addEventListener('scroll', debounce(handler, 100))]. *)
Definition debounced_page (root : Node) : Page :=
  fst (load_script "debounced"
         (h <- debounce ScrollSpy 100 ;; addEventListener TWindow "scroll" h)
         (fresh_page root true)).

Definition burst : list Event :=
  [Scroll 100; Elapse 10; Scroll 600; Elapse 10; Scroll 900].

Definition active_hrefs (p : Page) : list (option string) :=
  map (getAttribute "href") (filter (classList_contains "active") (links_of p)).

(** C9 fails on the code. main.js 37 attaches the raw handler; [debounce]
    (line 141) is defined and never called, so no closure and no timer
    exist. Three scroll events within 20 ms run the recomputation three
    times, each rewriting the links at once. Wrapped in
    [debounce(handler, 100)], the same burst runs it once, 100 ms after
    the last event. *)
Theorem scroll_handler_is_not_debounced :
  (forall root io,
      scroll_listeners (boot_main root io) = [mkListener TWindow "scroll" ScrollSpy]
      /\ cells (boot_main root io) = [] /\ timers (boot_main root io) = [])
  /\ snd (run burst (boot_main index_page true))
     = [mkRun (JListener ScrollSpy) (Normal tt);
        mkRun (JListener ScrollSpy) (Normal tt);
        mkRun (JListener ScrollSpy) (Normal tt)]
  /\ now (fst (run burst (boot_main index_page true))) = 20%Z
  /\ active_hrefs (fst (run [Scroll 100] (boot_main index_page true))) = [Some "#home"]
  /\ active_hrefs (fst (run [Scroll 100; Elapse 10; Scroll 600] (boot_main index_page true)))
     = [Some "#scenarios"]
  /\ active_hrefs (fst (run burst (boot_main index_page true))) = [Some "#timeline"]
  /\ snd (run (burst ++ [Elapse 99]) (debounced_page index_page))
     = [mkRun (JListener (Debounced 1 ScrollSpy 100)) (Normal tt);
        mkRun (JListener (Debounced 1 ScrollSpy 100)) (Normal tt);
        mkRun (JListener (Debounced 1 ScrollSpy 100)) (Normal tt)]
  /\ active_hrefs (fst (run (burst ++ [Elapse 99]) (debounced_page index_page))) = []
  /\ snd (run [Elapse 1] (fst (run (burst ++ [Elapse 99]) (debounced_page index_page))))
     = [mkRun (JTimer (Later 1 ScrollSpy (Scroll 900))) (Normal tt)]
  /\ active_hrefs (fst (run (burst ++ [Elapse 100]) (debounced_page index_page)))
     = [Some "#timeline"].
Proof.
  split.
  { intros root io. destruct io; (split; [reflexivity|split; reflexivity]). }
  split; [vm_compute; reflexivity|].
  split; [vm_compute; reflexivity|].
  split; [vm_compute; reflexivity|].
  split; [vm_compute; reflexivity|].
  split; [vm_compute; reflexivity|].
  split; [vm_compute; reflexivity|].
  split; [vm_compute; reflexivity|].
  split; vm_compute; reflexivity.
Qed.

End DebounceProps.

(* ================================================================== *)
(** ** More on the scroll-spy: what it leaves alone, repetition, direction *)
(* ================================================================== *)

Module ScrollSpyMore.
Import Dom Js Browser MainJs Loop Pages DomFacts MonadFacts PageFacts ScrollSpyFacts.

(** Functions that change nothing but the class list and the style. *)
Record cosmetic (g : Node -> Node) : Prop := mkCosmetic {
  cosmetic_local : local g;
  cosmetic_text : forall n, text (g n) = text n;
  cosmetic_top : forall n, offsetTop (g n) = offsetTop n;
  cosmetic_height : forall n, offsetHeight (g n) = offsetHeight n;
  cosmetic_client : forall n, clientHeight (g n) = clientHeight n }.

Lemma cosmetic_id : cosmetic (fun n => n).
Proof. constructor; auto using local_id. Qed.

Lemma cosmetic_compose g1 g2 : cosmetic g1 -> cosmetic g2 -> cosmetic (fun n => g2 (g1 n)).
Proof.
  intros [l1 a1 b1 c1 d1] [l2 a2 b2 c2 d2]. constructor; intros.
  - apply (@local_compose g1 g2); assumption.
  - rewrite a2. apply a1.
  - rewrite b2. apply b1.
  - rewrite c2. apply c1.
  - rewrite d2. apply d1.
Qed.

Lemma cosmetic_at_id i f : cosmetic f -> cosmetic (at_id i f).
Proof.
  intros [l a b c d]. constructor; [apply local_at_id, l| | | |];
    intros n; unfold at_id; destruct (Nat.eqb (nid n) i); auto.
Qed.

Lemma cosmetic_classes (h : list string -> list string) :
  cosmetic (fun n => set_classList (h (classList n)) n).
Proof. constructor; [apply local_set_classList| | | |]; reflexivity. Qed.

Lemma cosmetic_styles (h : Style -> Style) :
  cosmetic (fun n => set_style (h (style n)) n).
Proof. constructor; [apply local_set_style| | | |]; reflexivity. Qed.

Lemma cosmetic_compose_at us :
  Forall (fun u => cosmetic (snd u)) us -> cosmetic (compose_at us).
Proof.
  induction us as [|[i f] us IH]; intros H; simpl.
  - apply cosmetic_id.
  - inversion H; subst.
    apply (@cosmetic_compose (at_id i f) (compose_at us)).
    + apply cosmetic_at_id. assumption.
    + apply IH. assumption.
Qed.

Lemma mark_cosmetic target link : cosmetic (mark target link).
Proof.
  unfold mark. destruct (strict_eq _ _).
  - apply (@cosmetic_compose (classList_remove "active") (classList_add "active")).
    + apply (cosmetic_classes (remove "active")).
    + apply (cosmetic_classes (add "active")).
  - apply (cosmetic_classes (remove "active")).
Qed.

Lemma marks_cosmetic target links : cosmetic (compose_at (link_updates target links)).
Proof.
  apply cosmetic_compose_at. unfold link_updates. rewrite Forall_map.
  apply Forall_forall. intros l _. apply mark_cosmetic.
Qed.

(** The marking keeps the style and every class but "active". *)
Lemma mark_keeps target link x :
  style (mark target link x) = style x
  /\ forall k, String.eqb k "active" = false ->
               classList_contains k (mark target link x) = classList_contains k x.
Proof.
  unfold mark, classList_contains. destruct (strict_eq _ _); simpl; split; try reflexivity.
  - intros k Hk. rewrite contains_add_other, contains_remove_other by exact Hk. reflexivity.
  - intros k Hk. now apply contains_remove_other.
Qed.

Lemma marks_keep target links : forall x,
  style (compose_at (link_updates target links) x) = style x
  /\ forall k, String.eqb k "active" = false ->
               classList_contains k (compose_at (link_updates target links) x)
               = classList_contains k x.
Proof.
  induction links as [|l links IH]; intros x; simpl.
  - split; reflexivity.
  - destruct (IH (at_id (nid l) (mark target l) x)) as [Hs Hc].
    unfold at_id in *. destruct (Nat.eqb (nid x) (nid l)).
    + destruct (mark_keeps target l x) as [Ms Mc]. split.
      * rewrite Hs. exact Ms.
      * intros k Hk. rewrite (Hc k Hk). apply Mc, Hk.
    + split; assumption.
Qed.

(** Whatever happens, the handler ends on the page it started from or on
    that page with the links marked for some target. *)
Lemma scrollSpy_cases p :
  snd (scrollSpy p) = p
  \/ exists target,
       snd (scrollSpy p) = update_page (compose_at (link_updates target (links_of p))) p.
Proof.
  destruct (header_of p) as [h|] eqn:Hh.
  - right. exists (current_target p h). rewrite (@scrollSpy_header p h Hh). reflexivity.
  - destruct (sections_of p) as [|s rest] eqn:Hs.
    + right. exists "#". rewrite (@scrollSpy_no_sections p Hs). reflexivity.
    + left. rewrite (@scrollSpy_no_header p s rest Hh Hs). reflexivity.
Qed.

(** What an element shows apart from the "active" class and its children. *)
Definition own_face (x : Node) : nat * string * list (string * string) * Style * string * Z * Z :=
  (nid x, tagName x, attrs x, style x, text x, offsetTop x, offsetHeight x).

(** A scroll recomputation, completed or thrown, only ever adds or removes
    the class "active", and only on the links of the menu with a "#..."
    href: every element keeps its identity, tag, attributes, style, text
    and layout, and every class other than "active"; an element that is not
    one of those links keeps its whole class list; listeners, timers and
    observer targets are untouched. *)
Theorem scrollspy_touches_only_active_of_hash_links (p : Page) :
  let p' := snd (scrollSpy p) in
  map own_face (subtree (dom p')) = map own_face (subtree (dom p))
  /\ (forall k, String.eqb k "active" = false ->
        map (classList_contains k) (subtree (dom p'))
        = map (classList_contains k) (subtree (dom p)))
  /\ (exists g, subtree (dom p') = map g (subtree (dom p))
                /\ forall x, ~ In (nid x) (map nid (links_of p)) ->
                             classList (g x) = classList x)
  /\ listeners p' = listeners p /\ timers p' = timers p /\ observer p' = observer p.
Proof.
  intros p'. unfold p'. destruct (scrollSpy_cases p) as [->|[target ->]].
  - split; [reflexivity|]. split; [reflexivity|]. split; [|repeat split].
    exists (fun x => x). split; [now rewrite map_id|reflexivity].
  - set (G := compose_at (link_updates target (links_of p))).
    assert (cosmetic G) as CG by apply marks_cosmetic.
    pose proof (cosmetic_local CG) as LG.
    cbn [dom update_page with_dom]. rewrite (subtree_rewrite (dom p) LG).
    split; [|split; [|split; [|repeat split]]].
    + rewrite map_map. apply map_ext. intros x. unfold own_face.
      rewrite (rewrite_local x LG). cbn.
      rewrite (local_nid LG), (local_tag LG), (local_attrs LG).
      rewrite (cosmetic_text CG), (cosmetic_top CG), (cosmetic_height CG).
      destruct (marks_keep target (links_of p) x) as [Hs _]. fold G in Hs. rewrite Hs.
      reflexivity.
    + intros k Hk. rewrite map_map. apply map_ext. intros x.
      unfold classList_contains. rewrite classList_rewrite by exact LG.
      destruct (marks_keep target (links_of p) x) as [_ Hc]. apply (Hc k Hk).
    + exists (rewrite G). split; [reflexivity|]. intros x Hx.
      rewrite classList_rewrite by exact LG. unfold G.
      rewrite compose_at_miss; [reflexivity|].
      unfold link_updates. rewrite map_map. exact Hx.
Qed.

Lemma scrollspy_touches_only_active_of_hash_links_witness :
  map (classList_contains "hero") (subtree (dom (snd (scrollSpy (ScrollSpyProps.index_at 600)))))
  = map (classList_contains "hero") (subtree (dom (ScrollSpyProps.index_at 600)))
  /\ listeners (snd (scrollSpy (ScrollSpyProps.index_at 600)))
     = listeners (ScrollSpyProps.index_at 600).
Proof.
  destruct (scrollspy_touches_only_active_of_hash_links (ScrollSpyProps.index_at 600))
    as [_ [Hk [_ [Hl _]]]].
  split; [apply Hk; reflexivity|exact Hl].
Defined.

(** *** Repetition *)

Lemma remove_add_remove c cl : remove c (add c (remove c cl)) = remove c cl.
Proof.
  unfold add. rewrite contains_remove_same.
  unfold remove at 1. rewrite filter_app. cbn [filter].
  rewrite String.eqb_refl. cbn [negb]. rewrite app_nil_r. apply remove_idem.
Qed.

Lemma mark_idem target link x : mark target link (mark target link x) = mark target link x.
Proof.
  unfold mark. destruct (strict_eq _ _).
  - unfold classList_add, classList_remove, set_classList.
    cbn [nid tagName attrs classList style text offsetTop offsetHeight clientHeight children].
    rewrite remove_add_remove. reflexivity.
  - unfold classList_remove, set_classList.
    cbn [nid tagName attrs classList style text offsetTop offsetHeight clientHeight children].
    rewrite remove_idem. reflexivity.
Qed.

Lemma marks_idem target links x :
  NoDup (map nid links) ->
  compose_at (link_updates target links) (compose_at (link_updates target links) x)
  = compose_at (link_updates target links) x.
Proof.
  intros Hd. set (us := link_updates target links).
  assert (map fst us = map nid links) as Eids
      by (unfold us, link_updates; rewrite map_map; reflexivity).
  destruct (in_dec Nat.eq_dec (nid x) (map nid links)) as [Hin|Hout].
  - apply in_map_iff in Hin. destruct Hin as [l [El Hl]].
    assert (In (nid l, mark target l) us) as Hu
        by (unfold us, link_updates; apply in_map_iff; exists l; auto).
    assert (NoDup (map fst us)) as Hd' by (rewrite Eids; exact Hd).
    rewrite (@compose_at_hit us (nid l) (mark target l) x
               (link_updates_local target links) Hd' Hu (eq_sym El)).
    rewrite (@compose_at_hit us (nid l) (mark target l) (mark target l x)
               (link_updates_local target links) Hd' Hu).
    + apply mark_idem.
    + rewrite (local_nid (mark_local target l)). symmetry. exact El.
  - assert (compose_at us x = x) as E by (apply compose_at_miss; rewrite Eids; exact Hout).
    rewrite E. exact E.
Qed.

Lemma last_such_map {A} (f : A -> bool) (g : A -> A) l :
  (forall x, f (g x) = f x) ->
  last_such f (map g l) = option_map g (last_such f l).
Proof.
  intros H. induction l as [|x l IH]; simpl; [reflexivity|].
  rewrite IH. destruct (last_such f l); simpl; [reflexivity|].
  rewrite H. destruct (f x); reflexivity.
Qed.

Lemma avoids_active sel :
  Forall (fun c => c_class c <> Some "active") (flat_map compounds sel) ->
  avoids "active" sel.
Proof.
  intros H c Hc. rewrite Forall_forall in H. specialize (H c Hc).
  destruct (c_class c) as [k|]; [|exact Logic.I].
  destruct (String.eqb k "active") eqn:E; [|reflexivity].
  apply String.eqb_eq in E. congruence.
Qed.

Lemma marks_stable sel target links :
  avoids "active" sel -> stable sel (compose_at (link_updates target links)).
Proof.
  intros Ha. apply stable_compose_at. unfold link_updates. rewrite Forall_map.
  apply Forall_forall. intros l _. unfold mark. destruct (strict_eq _ _).
  - apply (@stable_compose _ (classList_remove "active") (classList_add "active")).
    + apply stable_remove, Ha.
    + apply stable_add, Ha.
  - apply stable_remove, Ha.
Qed.

(** The page the handler leaves when the header is there. *)
Lemma marked_page_queries target p :
  let G := compose_at (link_updates target (links_of p)) in
  let p' := update_page G p in
  header_of p' = option_map (rewrite G) (header_of p)
  /\ sections_of p' = map (rewrite G) (sections_of p)
  /\ links_of p' = map (rewrite G) (links_of p).
Proof.
  intros G p'.
  assert (local G) as LG by apply compose_at_local, link_updates_local.
  assert (forall sel, avoids "active" sel ->
            select sel [] (dom p') = map (rewrite G) (select sel [] (dom p))) as Hsel.
  { intros sel Ha.
    apply (@select_rewrite sel G (dom p) LG (marks_stable target (links_of p) Ha) []). }
  assert (avoids "active" sel_header) as A1
      by (apply avoids_active; repeat constructor; discriminate).
  assert (avoids "active" sel_section_id) as A2
      by (apply avoids_active; repeat constructor; discriminate).
  split; [|split].
  - unfold header_of. rewrite (Hsel _ A1). destruct (select sel_header [] (dom p)); reflexivity.
  - apply (Hsel _ A2).
  - apply (Hsel _ avoids_active_hash).
Qed.

(** A second recomputation at the same offset changes nothing: with the
    header in the document, running the handler again on the page it left
    completes and leaves that page as it is. *)
Theorem scrollspy_repeated_is_stable (p : Page) (h : Node) :
  unique_ids (dom p) = true ->
  header_of p = Some h ->
  scrollSpy (snd (scrollSpy p)) = (Normal tt, snd (scrollSpy p)).
Proof.
  intros Hu Hh. rewrite (@scrollSpy_header p h Hh). cbn [snd].
  set (target := current_target p h).
  set (G := compose_at (link_updates target (links_of p))).
  set (p' := update_page G p).
  assert (cosmetic G) as CG by apply marks_cosmetic.
  pose proof (cosmetic_local CG) as LG.
  destruct (marked_page_queries target p) as [Eh [Es El]].
  fold G in Eh, Es, El. fold p' in Eh, Es, El.
  rewrite Hh in Eh. simpl in Eh.
  rewrite (@scrollSpy_header p' (rewrite G h) Eh). f_equal.
  assert (current_target p' (rewrite G h) = target) as ->.
  { unfold target, current_target. f_equal. f_equal.
    rewrite Es.
    assert (offsetHeight (rewrite G h) = offsetHeight h) as ->
        by (rewrite (rewrite_local h LG); cbn; apply (cosmetic_height CG)).
    assert (pageYOffset p' = pageYOffset p) as -> by reflexivity.
    rewrite last_such_map.
    - destruct (last_such _ (sections_of p)) as [s|]; simpl; [|reflexivity].
      unfold getAttribute. now rewrite attrs_rewrite.
    - intros x. unfold passed. rewrite (rewrite_local x LG). cbn.
      now rewrite (cosmetic_top CG). }
  assert (link_updates target (links_of p') = link_updates target (links_of p)) as ->.
  { rewrite El. unfold link_updates. rewrite map_map. apply map_ext. intros l.
    rewrite nid_rewrite by exact LG. f_equal.
    unfold mark, getAttribute. now rewrite attrs_rewrite. }
  fold G. unfold p'. rewrite update_page_compose by exact LG.
  apply update_page_ext. intros x. apply marks_idem.
  apply select_NoDup, Hu.
Qed.

Lemma scrollspy_repeated_is_stable_witness :
  scrollSpy (snd (scrollSpy (ScrollSpyProps.index_at 600)))
  = (Normal tt, snd (scrollSpy (ScrollSpyProps.index_at 600))).
Proof.
  assert (unique_ids (dom (ScrollSpyProps.index_at 600)) = true) as Hu
      by (vm_compute; reflexivity).
  assert (header_of (ScrollSpyProps.index_at 600) = Some ScrollSpyProps.the_header) as Hh
      by (vm_compute; reflexivity).
  exact (scrollspy_repeated_is_stable (ScrollSpyProps.index_at 600) Hu Hh).
Defined.

(** *** Direction *)

Lemma last_such_app_Some {A} (f : A -> bool) b l x :
  last_such f l = Some x -> last_such f (b ++ l) = Some x.
Proof.
  intros H. induction b as [|y b IH]; simpl; [exact H|]. now rewrite IH.
Qed.

Lemma last_such_In {A} (f : A -> bool) l x : last_such f l = Some x -> In x l.
Proof.
  intros H. apply last_such_Some in H. destruct H as [b [a [-> _]]].
  apply in_or_app. right. left. reflexivity.
Qed.

(** Scrolling down never moves the highlight back: if at offset [y] the
    current section is [s], then at any offset [y' >= y] it is [s] or a
    section after [s] in document order. *)
Theorem scrollspy_never_moves_back (p : Page) (h : Node) (y y' : Z)
        (before : list Node) (s : Node) (after : list Node) :
  header_of p = Some h ->
  (y <= y')%Z ->
  sections_of p = before ++ s :: after ->
  passed y (offsetHeight h) s = true ->
  Forall (fun t => passed y (offsetHeight h) t = false) after ->
  currentSection (with_pageYOffset y p) = Normal (getAttribute "id" s)
  /\ exists s', In s' (s :: after)
                /\ currentSection (with_pageYOffset y' p) = Normal (getAttribute "id" s').
Proof.
  intros Hh Hy Hs Hp Ha.
  assert (forall z, currentSection (with_pageYOffset z p)
                    = Normal (current_id (Some "")
                                (last_such (passed z (offsetHeight h)) (sections_of p)))) as Hc.
  { intros z. unfold currentSection.
    assert (header_of (with_pageYOffset z p) = Some h) as Hz by exact Hh.
    rewrite (@section_loop (with_pageYOffset z p) h _ (Some "") Hz). reflexivity. }
  split.
  - rewrite Hc.
    assert (last_such (passed y (offsetHeight h)) (sections_of p) = Some s) as ->
        by (apply last_such_Some; exists before, after; auto).
    reflexivity.
  - assert (passed y' (offsetHeight h) s = true) as Hp'.
    { unfold passed in *. apply Z.geb_le in Hp. apply Z.geb_le. lia. }
    destruct (last_such (passed y' (offsetHeight h)) (s :: after)) as [s'|] eqn:E.
    + exists s'. split; [eapply last_such_In; exact E|].
      rewrite Hc, Hs. rewrite (last_such_app_Some _ before _ E). reflexivity.
    + apply last_such_None in E. inversion E; subst. congruence.
Qed.

Lemma scrollspy_never_moves_back_witness :
  currentSection (with_pageYOffset 600 (ScrollSpyProps.index_at 0)) = Normal (Some "scenarios")
  /\ exists s', currentSection (with_pageYOffset 900 (ScrollSpyProps.index_at 0))
                = Normal (getAttribute "id" s').
Proof.
  assert (header_of (ScrollSpyProps.index_at 0) = Some ScrollSpyProps.the_header) as Hh
      by (vm_compute; reflexivity).
  assert (exists s1 s2 s3,
             sections_of (ScrollSpyProps.index_at 0) = [s1] ++ s2 :: [s3]
             /\ passed 600 (offsetHeight ScrollSpyProps.the_header) s2 = true
             /\ passed 600 (offsetHeight ScrollSpyProps.the_header) s3 = false
             /\ getAttribute "id" s2 = Some "scenarios") as [s1 [s2 [s3 [Hs [P2 [P3 I2]]]]]].
  { eexists _, _, _. split; [vm_compute; reflexivity|].
    split; [vm_compute; reflexivity|]. split; vm_compute; reflexivity. }
  assert (600 <= 900)%Z as Hle by lia.
  destruct (@scrollspy_never_moves_back (ScrollSpyProps.index_at 0) ScrollSpyProps.the_header
              600 900 [s1] s2 [s3] Hh Hle Hs P2 (Forall_cons _ P3 (Forall_nil _)))
    as [H1 [s' [_ H2]]].
  split; [rewrite <- I2; exact H1|exists s'; exact H2].
Defined.

End ScrollSpyMore.

(* ================================================================== *)
(** ** Smooth scrolling to a section (main.js 22-34) *)
(* ================================================================== *)

Module Navigation.
Import Dom Js Browser MainJs Loop Pages DomFacts MonadFacts PageFacts ScrollSpyFacts.

(** [document.getElementById(id)]: the first element, in document order,
    whose id attribute is [id]; an empty id is the id of no element. *)
Definition getElementById (id : string) : M (option Node) :=
  p <- get ;;
  ret (if String.eqb id "" then None
       else find (fun n => strict_eq (getAttribute "id" n) id) (subtree (dom p))).

(** The argument of [window.scrollTo]. *)
Record ScrollToOptions : Type := mkScrollToOptions {
  top : Z;
  behavior : string }.

(** main.js 23-34. The result is the argument of the call to
    [window.scrollTo], when the call is made; the browser then moves the
    window there. *)
Definition scrollToSection (sectionId : string) : M (option ScrollToOptions) :=
  element <- getElementById sectionId ;;
  match element with
  | Some el =>
      header <- querySelector sel_header ;;
      headerHeight <- prop header "offsetHeight" offsetHeight ;;
      let elementPosition := (offsetTop el - headerHeight)%Z in
      ret (Some (mkScrollToOptions elementPosition "smooth"))
  | None => ret None
  end.

Lemma getElementById_eq id p :
  getElementById id p
  = (Normal (if String.eqb id "" then None
             else find (fun n => strict_eq (getAttribute "id" n) id) (subtree (dom p))), p).
Proof. reflexivity. Qed.

Lemma getElementById_pair id p r :
  fst (getElementById id p) = r -> getElementById id p = (r, p).
Proof. intros <-. reflexivity. Qed.

Lemma getElementById_id id p el :
  fst (getElementById id p) = Normal (Some el) -> getAttribute "id" el = Some id.
Proof.
  rewrite getElementById_eq. cbn [fst]. destruct (String.eqb id ""); [discriminate|].
  intros H. injection H as H. apply find_some in H. destruct H as [_ H].
  unfold strict_eq in H. destruct (getAttribute "id" el) as [v|]; [|discriminate].
  apply String.eqb_eq in H. now subst.
Qed.

Lemma scrollToSection_found sectionId p el h :
  fst (getElementById sectionId p) = Normal (Some el) ->
  header_of p = Some h ->
  scrollToSection sectionId p
  = (Normal (Some (mkScrollToOptions (offsetTop el - offsetHeight h) "smooth")), p).
Proof.
  intros H Hh. unfold scrollToSection.
  rewrite (bind_normal _ (@getElementById_pair sectionId p _ H)).
  rewrite (bind_normal _ (querySelector_eq _ _)). unfold header_of in Hh. rewrite Hh.
  rewrite (bind_normal _ (prop_some _ _ _ _)). reflexivity.
Qed.

(** The guard of line 25 covers the element only. For an id no element
    carries, the function does nothing, header or not; for an id that
    exists on a page without a header it throws a TypeError and no scroll is
    requested; otherwise it asks for [offsetTop - headerHeight]. *)
Theorem scrollToSection_outcomes (sectionId : string) (p : Page) :
  (fst (getElementById sectionId p) = Normal None ->
   scrollToSection sectionId p = (Normal None, p))
  /\ (forall el, fst (getElementById sectionId p) = Normal (Some el) ->
        header_of p = None ->
        scrollToSection sectionId p
        = (Throw (TypeError "Cannot read properties of null (reading 'offsetHeight')"), p))
  /\ (forall el h, fst (getElementById sectionId p) = Normal (Some el) ->
        header_of p = Some h ->
        scrollToSection sectionId p
        = (Normal (Some (mkScrollToOptions (offsetTop el - offsetHeight h) "smooth")), p)).
Proof.
  split; [|split].
  - intros H. unfold scrollToSection.
    rewrite (bind_normal _ (@getElementById_pair sectionId p _ H)). reflexivity.
  - intros el H Hh. unfold scrollToSection.
    rewrite (bind_normal _ (@getElementById_pair sectionId p _ H)).
    rewrite (bind_normal _ (querySelector_eq _ _)). unfold header_of in Hh. rewrite Hh.
    apply bind_throw. reflexivity.
  - intros el h H Hh. exact (@scrollToSection_found sectionId p el h H Hh).
Qed.

Lemma scrollToSection_outcomes_witness :
  scrollToSection "contact" (fresh_page scenario_page true)
  = (Normal None, fresh_page scenario_page true)
  /\ fst (scrollToSection "timeline" (fresh_page scenario_page true))
     = Throw (TypeError "Cannot read properties of null (reading 'offsetHeight')")
  /\ fst (scrollToSection "timeline" (fresh_page index_page true))
     = Normal (Some (mkScrollToOptions 930 "smooth")).
Proof.
  destruct (scrollToSection_outcomes "contact" (fresh_page scenario_page true)) as [H1 _].
  destruct (scrollToSection_outcomes "timeline" (fresh_page scenario_page true)) as [_ [H2 _]].
  destruct (scrollToSection_outcomes "timeline" (fresh_page index_page true)) as [_ [_ H3]].
  split; [apply H1; vm_compute; reflexivity|]. split.
  - rewrite (H2 (nth 2 sections (el 0 "" [] [] []))); [reflexivity| |];
      vm_compute; reflexivity.
  - rewrite (H3 (nth 2 sections (el 0 "" [] [] [])) (nth 0 (h_nodes header_html) (el 0 "" [] [] [])));
      [reflexivity| |]; vm_compute; reflexivity.
Defined.

(** Scrolling to a section makes it the current one: when the window has
    arrived at the position [scrollToSection] asked for, and every later
    section starts more than 100 pixels below the target, the scroll-spy
    computes the target's id, the id that was asked for. *)
Theorem scrolled_to_section_is_current
        (sectionId : string) (p : Page) (h : Node) (o : ScrollToOptions)
        (before : list Node) (s : Node) (after : list Node) :
  header_of p = Some h ->
  fst (getElementById sectionId p) = Normal (Some s) ->
  sections_of p = before ++ s :: after ->
  Forall (fun t => offsetTop s + 100 < offsetTop t)%Z after ->
  fst (scrollToSection sectionId p) = Normal (Some o) ->
  currentSection (with_pageYOffset (top o) p) = Normal (Some sectionId).
Proof.
  intros Hh Hel Hs Hafter Ho.
  rewrite (@scrollToSection_found sectionId p s h Hel Hh) in Ho. cbn [fst] in Ho. injection Ho as <-. cbn [top].
  unfold currentSection.
  assert (header_of (with_pageYOffset (offsetTop s - offsetHeight h) p) = Some h) as Hz
      by exact Hh.
  rewrite (@section_loop _ h _ (Some "") Hz). cbn [fst].
  assert (sections_of (with_pageYOffset (offsetTop s - offsetHeight h) p)
          = before ++ s :: after) as -> by exact Hs.
  cbn [pageYOffset with_pageYOffset].
  assert (last_such (passed (offsetTop s - offsetHeight h) (offsetHeight h))
                    (before ++ s :: after) = Some s) as ->.
  { apply last_such_Some. exists before, after. split; [reflexivity|]. split.
    - unfold passed. apply Z.geb_le. lia.
    - eapply Forall_impl; [|exact Hafter]. intros t Ht. cbv beta in Ht. unfold passed.
      destruct (offsetTop s - offsetHeight h >=? offsetTop t - offsetHeight h - 100)%Z eqn:E;
        [|reflexivity].
      apply Z.geb_le in E. lia. }
  simpl. f_equal. eapply getElementById_id. exact Hel.
Qed.

Lemma scrolled_to_section_is_current_witness :
  currentSection (with_pageYOffset 430 (fresh_page index_page true))
  = Normal (Some "scenarios").
Proof.
  assert (header_of (fresh_page index_page true)
          = Some (nth 0 (h_nodes header_html) (el 0 "" [] [] []))) as Hh by (vm_compute; reflexivity).
  assert (fst (getElementById "scenarios" (fresh_page index_page true))
          = Normal (Some (nth 1 sections (el 0 "" [] [] [])))) as Hel
      by (vm_compute; reflexivity).
  assert (sections_of (fresh_page index_page true)
          = [nth 0 sections (el 0 "" [] [] [])] ++ nth 1 sections (el 0 "" [] [] [])
            :: [nth 2 sections (el 0 "" [] [] [])]) as Hs by (vm_compute; reflexivity).
  assert (Forall (fun t => offsetTop (nth 1 sections (el 0 "" [] [] [])) + 100 < offsetTop t)%Z
                 [nth 2 sections (el 0 "" [] [] [])]) as Ha
      by (constructor; [vm_compute; reflexivity|constructor]).
  assert (fst (scrollToSection "scenarios" (fresh_page index_page true))
          = Normal (Some (mkScrollToOptions 430 "smooth"))) as Ho by (vm_compute; reflexivity).
  exact (@scrolled_to_section_is_current "scenarios" (fresh_page index_page true) _ _ _ _ _
           Hh Hel Hs Ha Ho).
Defined.

End Navigation.

(* ================================================================== *)
(** ** More on the mobile menu: what the three operations do to the classes *)
(* ================================================================== *)

Module MenuMore.
Import Dom Js Browser MainJs Loop Pages DomFacts MonadFacts PageFacts MenuFacts.

Definition is_active (x : Node) : bool := classList_contains "active" x.

(** Who is marked "active" in a document, element by element. *)
Definition active_map (p : Page) : list (nat * bool) :=
  map (fun x => (nid x, is_active x)) (subtree (dom p)).


Definition close_both (h m : nat) (x : Node) : Node :=
  at_id m (classList_remove "active") (at_id h (classList_remove "active") x).


Lemma close_both_local h m : local (close_both h m).
Proof.
  apply (@local_compose (at_id h (classList_remove "active"))
                        (at_id m (classList_remove "active"))); auto with dom.
Qed.


Lemma close_both_active h m x :
  is_active (close_both h m x)
  = if (Nat.eqb (nid x) h || Nat.eqb (nid x) m)%bool then false else is_active x.
Proof.
  unfold close_both, at_id, is_active, classList_contains.
  destruct (Nat.eqb (nid x) h) eqn:Eh.
  - cbn [nid classList_remove set_classList]. destruct (Nat.eqb (nid x) m) eqn:Em.
    + cbn [classList classList_remove set_classList orb].
      rewrite remove_idem. apply contains_remove_same.
    + cbn [classList classList_remove set_classList orb]. apply contains_remove_same.
  - destruct (Nat.eqb (nid x) m) eqn:Em.
    + cbn [classList classList_remove set_classList orb]. apply contains_remove_same.
    + reflexivity.
Qed.

Lemma active_map_update g p : local g ->
  active_map (update_page g p)
  = map (fun x => (nid x, is_active (g x))) (subtree (dom p)).
Proof.
  intros L. unfold active_map. cbn [dom update_page with_dom].
  rewrite (subtree_rewrite (dom p) L), map_map. apply map_ext. intros x.
  rewrite nid_rewrite by exact L. unfold is_active, classList_contains.
  now rewrite classList_rewrite.
Qed.


Definition closed (h m : nat) (e : nat * bool) : nat * bool :=
  (fst e, if (Nat.eqb (fst e) h || Nat.eqb (fst e) m)%bool then false else snd e).





(** The Escape handler (main.js 128-138), case by case. Any other key,
    a document without the panel, and a panel that is not "active" leave
    the page as it is, with or without a hamburger. With the panel open
    and the hamburger in the document, the handler completes and closes
    both, as a click on a menu link does. *)
Theorem escape_key_outcomes (key : string) (p : Page) :
  (key <> "Escape" -> escapeKey (KeyDown key) p = (Normal tt, p))
  /\ (navMenu_of p = None -> escapeKey (KeyDown key) p = (Normal tt, p))
  /\ (forall m, navMenu_of p = Some m -> is_active m = false ->
        escapeKey (KeyDown key) p = (Normal tt, p))
  /\ (forall h m, key = "Escape" -> hamburger_of p = Some h -> navMenu_of p = Some m ->
        is_active m = true ->
        fst (escapeKey (KeyDown key) p) = Normal tt
        /\ active_map (snd (escapeKey (KeyDown key) p))
           = map (closed (nid m) (nid h)) (active_map p)).
Proof.
  rewrite escapeKey_eq. split; [|split; [|split]].
  - intros Hk. apply String.eqb_neq in Hk. now rewrite Hk.
  - intros Hm. rewrite Hm. now destruct (String.eqb key "Escape").
  - intros m Hm Ha. rewrite Hm. unfold is_active in Ha. rewrite Ha.
    now destruct (String.eqb key "Escape").
  - intros h m -> Hh Hm Ha. rewrite String.eqb_refl, Hm, Hh.
    unfold is_active in Ha. rewrite Ha. cbn [fst snd]. split; [reflexivity|].
    fold (close_both (nid m) (nid h)).
    rewrite (active_map_update p (close_both_local (nid m) (nid h))).
    unfold active_map. rewrite map_map. apply map_ext. intros x.
    unfold closed. cbn [fst snd]. now rewrite close_both_active.
Qed.

Definition opened : Page := fresh_page (open_menu index_page) true.

Definition the_hamburger : Node :=
  nth 0 (select sel_hamburger [] (dom opened)) (el 0 "" [] [] []).

Definition the_panel : Node :=
  nth 0 (select sel_navMenu [] (dom opened)) (el 0 "" [] [] []).

Lemma escape_key_outcomes_witness :
  fst (escapeKey (KeyDown "Escape") opened) = Normal tt
  /\ active_map (snd (escapeKey (KeyDown "Escape") opened))
     = map (closed (nid the_panel) (nid the_hamburger)) (active_map opened).
Proof.
  assert (hamburger_of opened = Some the_hamburger) as Hh by (vm_compute; reflexivity).
  assert (navMenu_of opened = Some the_panel) as Hm by (vm_compute; reflexivity).
  assert (is_active the_panel = true) as Ha by (vm_compute; reflexivity).
  exact (proj2 (proj2 (proj2 (@escape_key_outcomes "Escape" opened)))
           the_hamburger the_panel eq_refl Hh Hm Ha).
Defined.


End MenuMore.

(* ================================================================== *)
(** ** The card handlers: Learn More (main.js 61-74), timeline (76-98) *)
(* ================================================================== *)

Module CardProps.
Import Dom Js Browser MainJs Loop Pages DomFacts MonadFacts PageFacts.

Definition sel_h3 : Selector := [Simple (by_tag "h3")].
Definition sel_h4 : Selector := [Simple (by_tag "h4")].

(** The click on a Learn More button raises one alert, the message of
    main.js 71 with the text of the first h3 of the nearest enclosing
    scenario card between its quotes, and changes nothing else. A button
    outside any card, or in a card without h3, makes the handler throw a
    TypeError, with no alert and the page untouched. *)
Theorem learn_more_click_outcomes (i : nat) (p : Page) :
  (closest (by_class "scenario-card") (path_of i p) = None ->
   learnMoreClick (TElement i) p
   = (Throw (TypeError "Cannot read properties of null (reading 'querySelector')"), p))
  /\ (forall card,
        closest (by_class "scenario-card") (path_of i p) = Some card ->
        hd_error (select_within sel_h3 card) = None ->
        learnMoreClick (TElement i) p
        = (Throw (TypeError "Cannot read properties of null (reading 'textContent')"), p))
  /\ (forall card h3,
        closest (by_class "scenario-card") (path_of i p) = Some card ->
        hd_error (select_within sel_h3 card) = Some h3 ->
        learnMoreClick (TElement i) p
        = (Normal tt, with_alerts (alerts p ++ [learnMoreMessage (textContent h3)]) p)).
Proof.
  unfold learnMoreClick. rewrite (bind_normal _ (get_eq _)).
  split; [|split].
  - intros ->. apply bind_throw. reflexivity.
  - intros card -> H3. rewrite (bind_normal _ (prop_some _ _ _ _)).
    fold sel_h3. rewrite H3. apply bind_throw. reflexivity.
  - intros card h3 -> H3. rewrite (bind_normal _ (prop_some _ _ _ _)).
    fold sel_h3. rewrite H3. rewrite (bind_normal _ (prop_some _ _ _ _)). reflexivity.
Qed.

(** The index page after start-up. *)
Definition started : Page := fst (step DOMContentLoaded (boot_main index_page true)).

Lemma learn_more_click_outcomes_witness :
  learnMoreClick (TElement 42) started
  = (Normal tt,
     with_alerts (alerts started ++ [learnMoreMessage "What if Rome Never Fell?"]) started)
  /\ alerts (fst (step (Click 42) started)) = [learnMoreMessage "What if Rome Never Fell?"]
  /\ fst (learnMoreClick (TElement 30) started)
     = Throw (TypeError "Cannot read properties of null (reading 'querySelector')")
  /\ fst (learnMoreClick (TElement 50) (update_page (at_id 50 (classList_add "scenario-card")) started))
     = Throw (TypeError "Cannot read properties of null (reading 'textContent')").
Proof.
  split.
  { destruct (learn_more_click_outcomes 42 started) as [_ [_ H]].
    assert (exists card h3,
               closest (by_class "scenario-card") (path_of 42 started) = Some card
               /\ hd_error (select_within sel_h3 card) = Some h3
               /\ textContent h3 = "What if Rome Never Fell?") as [card [h3 [Hc [H3 Htx]]]]
        by (do 2 eexists; split; [|split]; vm_compute; reflexivity).
    rewrite (H card h3 Hc H3), Htx. reflexivity. }
  split; [vm_compute; reflexivity|]. split.
  - destruct (learn_more_click_outcomes 30 started) as [H _].
    rewrite H; [reflexivity|vm_compute; reflexivity].
  - set (q := update_page (at_id 50 (classList_add "scenario-card")) started).
    destruct (learn_more_click_outcomes 50 q) as [_ [H _]].
    assert (exists card, closest (by_class "scenario-card") (path_of 50 q) = Some card
                         /\ hd_error (select_within sel_h3 card) = None) as [card [Hc H3]]
        by (eexists; split; vm_compute; reflexivity).
    rewrite (H card Hc H3). reflexivity.
Defined.

(** The item the handler is bound to, and its first h4. *)
Definition item_heading (i : nat) (p : Page) : option Node :=
  match path_of i p with
  | self :: _ => hd_error (select_within sel_h4 self)
  | [] => None
  end.

Definition feedback_timer (i : nat) (p : Page) : Timer :=
  mkTimer (nextTimer p) (now p + 200)%Z (ResetScale i).

Lemma timelineClick_ok i p h4 :
  item_heading i p = Some h4 ->
  timelineClick (TElement i) p
  = (Normal tt,
     with_console (console p ++ [Log ("Timeline event clicked: " ++ textContent h4)%string])
       (with_timers (timers p ++ [feedback_timer i p]) (S (nextTimer p))
          (update_page (at_id i (set_transform "scale(1.02)")) p))).
Proof.
  intros H. unfold timelineClick. rewrite (bind_normal _ (get_eq _)).
  unfold item_heading, sel_h4 in H. rewrite H.
  rewrite (bind_normal _ (prop_some _ _ _ _)).
  rewrite (bind_normal _ (updateElement_eq _ _ _)).
  reflexivity.
Qed.

(** A timeline item without h4: the click throws at line 82, before the
    visual feedback; no style is written, no timer set, nothing logged. *)
Theorem timeline_click_without_heading (i : nat) (p : Page) :
  item_heading i p = None ->
  timelineClick (TElement i) p
  = (Throw (TypeError "Cannot read properties of null (reading 'textContent')"), p).
Proof.
  intros H. unfold timelineClick. rewrite (bind_normal _ (get_eq _)).
  unfold item_heading, sel_h4 in H. rewrite H. apply bind_throw. reflexivity.
Qed.

Lemma timeline_click_without_heading_witness :
  item_heading 42 started = None
  /\ timelineClick (TElement 42) started
     = (Throw (TypeError "Cannot read properties of null (reading 'textContent')"), started).
Proof.
  assert (item_heading 42 started = None) as H by (vm_compute; reflexivity).
  split; [exact H|]. exact (@timeline_click_without_heading 42 started H).
Defined.

Lemma transform_at i v d x :
  In x (subtree (rewrite (at_id i (set_transform v)) d)) -> nid x = i ->
  transform (style x) = v.
Proof.
  intros Hx Hi.
  assert (local (at_id i (set_transform v))) as L by auto with dom.
  destruct (@in_subtree_rewrite _ d x L Hx) as [x0 [_ ->]].
  rewrite nid_rewrite in Hi by exact L. rewrite style_rewrite by exact L.
  unfold at_id. apply Nat.eqb_eq in Hi. rewrite Hi. reflexivity.
Qed.

(** The visual feedback of a timeline click (main.js 85-88), with no other
    timer pending: the click completes, logs the heading and scales the
    item to 1.02; nothing happens for the next 199 ms; at 200 ms the one
    timer fires and sets the transform to "scale(1)", whatever the item's
    transform was before the click, and no timer is left. *)
Theorem timeline_click_feedback (i : nat) (p : Page) (h4 : Node) :
  timers p = [] ->
  item_heading i p = Some h4 ->
  let p1 := snd (timelineClick (TElement i) p) in
  let p2 := fst (step (Elapse 200) p1) in
  fst (timelineClick (TElement i) p) = Normal tt
  /\ console p1 = console p ++ [Log ("Timeline event clicked: " ++ textContent h4)%string]
  /\ (forall x, In x (subtree (dom p1)) -> nid x = i -> transform (style x) = "scale(1.02)")
  /\ (forall ms, (0 <= ms < 200)%Z -> step (Elapse ms) p1 = (with_now (now p + ms)%Z p1, []))
  /\ snd (step (Elapse 200) p1) = [mkRun (JTimer (ResetScale i)) (Normal tt)]
  /\ (forall x, In x (subtree (dom p2)) -> nid x = i -> transform (style x) = "scale(1)")
  /\ timers p2 = [].
Proof.
  intros Ht Hh p1 p2.
  assert (p1 = with_console (console p ++ [Log ("Timeline event clicked: " ++ textContent h4)%string])
                 (with_timers [feedback_timer i p] (S (nextTimer p))
                    (update_page (at_id i (set_transform "scale(1.02)")) p))) as E1.
  { unfold p1. rewrite (@timelineClick_ok i p h4 Hh). cbn [snd]. rewrite Ht. reflexivity. }
  split; [rewrite (@timelineClick_ok i p h4 Hh); reflexivity|].
  split; [rewrite E1; reflexivity|].
  split.
  { intros x Hx Hi. rewrite E1 in Hx. cbn [dom with_console with_timers update_page with_dom] in Hx.
    exact (@transform_at _ _ _ x Hx Hi). }
  split.
  { intros ms [Hlo Hhi]. unfold step.
    assert (timers p1 = [feedback_timer i p]) as Et by (rewrite E1; reflexivity).
    assert (now p1 = now p) as En by (rewrite E1; reflexivity).
    rewrite Et. cbn [List.length run_timers]. unfold next_due. rewrite Et.
    cbn [earliest feedback_timer t_due]. rewrite En.
    assert ((now p + 200 <=? now p + Z.max 0 ms)%Z = false) as -> by (apply Z.leb_gt; lia).
    assert (Z.max 0 ms = ms) as -> by lia. reflexivity. }
  assert (step (Elapse 200) p1
          = (with_now (now p + 200)%Z
               (update_page (at_id i (set_transform "scale(1)"))
                  (with_now (now p + 200)%Z (with_timers [] (S (nextTimer p)) p1))),
             [mkRun (JTimer (ResetScale i)) (Normal tt)])) as E2.
  { unfold step.
    assert (timers p1 = [feedback_timer i p]) as Et by (rewrite E1; reflexivity).
    assert (now p1 = now p) as En by (rewrite E1; reflexivity).
    assert (nextTimer p1 = S (nextTimer p)) as Ex by (rewrite E1; reflexivity).
    rewrite Et. cbn [List.length run_timers]. unfold next_due. rewrite Et.
    cbn [earliest feedback_timer t_due t_id t_action filter]. rewrite En, Ex.
    assert (Z.max 0 200 = 200%Z) as -> by reflexivity.
    rewrite Z.leb_refl, Nat.eqb_refl. cbn [negb].
    change (t_action (feedback_timer i p)) with (ResetScale i).
    change (t_due (feedback_timer i p)) with (now p + 200)%Z.
    assert (Z.max (now p) (now p + 200) = (now p + 200)%Z) as -> by lia.
    unfold run_job, run_timer. rewrite updateElement_eq. reflexivity. }
  split; [rewrite E2; reflexivity|].
  split.
  { intros x Hx Hi. unfold p2 in Hx. rewrite E2 in Hx.
    cbn [fst dom with_now update_page with_dom] in Hx.
    exact (@transform_at _ _ _ x Hx Hi). }
  unfold p2. rewrite E2. reflexivity.
Qed.

Lemma timeline_click_feedback_witness :
  AnimatorProps.transform_of 50 (snd (timelineClick (TElement 50) started)) = Some "scale(1.02)"
  /\ step (Elapse 199) (snd (timelineClick (TElement 50) started))
     = (with_now 199 (snd (timelineClick (TElement 50) started)), [])
  /\ AnimatorProps.transform_of 50
       (fst (step (Elapse 200) (snd (timelineClick (TElement 50) started)))) = Some "scale(1)".
Proof.
  assert (timers started = []) as Ht by (vm_compute; reflexivity).
  assert (item_heading 50 started = Some (titled 51 "h4" "1066")) as Hh
      by (vm_compute; reflexivity).
  destruct (@timeline_click_feedback 50 started _ Ht Hh) as [_ [_ [_ [Hwait _]]]].
  split; [vm_compute; reflexivity|]. split.
  - assert (0 <= 199 < 200)%Z as Hms by lia. exact (Hwait 199%Z Hms).
  - vm_compute; reflexivity.
Defined.

End CardProps.

(* ================================================================== *)
(** ** Start-up: the DOMContentLoaded handlers together *)
(* ================================================================== *)

Module StartupProps.
Import Dom Js Browser MainJs IncludesJs Loop Pages DomFacts MonadFacts PageFacts.
Import MenuFacts AnimatorFacts.

(** main.js 95-96: the style a timeline item is given. *)
Definition tl_style (x : Node) : Node :=
  set_transition "transform 0.2s ease" (set_cursor "pointer" x).

Lemma tl_style_local : local tl_style.
Proof.
  apply (@local_compose (set_cursor "pointer") (set_transition "transform 0.2s ease"));
    auto with dom.
Qed.

Lemma tl_style_stable sel : stable sel tl_style.
Proof. intros c x _. apply compound_matches_ext; reflexivity. Qed.

Definition tl_updates (items : list Node) : list (nat * (Node -> Node)) :=
  map (fun e => (nid e, tl_style)) items.

Lemma tl_updates_same items : Forall (fun u => snd u = tl_style) (tl_updates items).
Proof. unfold tl_updates. rewrite Forall_map. apply Forall_forall. reflexivity. Qed.

Definition click_on (h : Handler) (x : Node) : Listener :=
  mkListener (TElement (nid x)) "click" h.

Lemma timeline_loop items : forall p,
  forEach items (fun item =>
    addEventListener (TElement (nid item)) "click" TimelineClick ;;
    updateElement (nid item) (set_cursor "pointer") ;;
    updateElement (nid item) (set_transition "transform 0.2s ease")) p
  = (Normal tt,
     with_listeners (listeners p ++ map (click_on TimelineClick) items)
                    (update_page (compose_at (tl_updates items)) p)).
Proof.
  induction items as [|e items IH]; intros p; simpl.
  - unfold ret. rewrite update_page_id, app_nil_r. destruct p; reflexivity.
  - assert ((addEventListener (TElement (nid e)) "click" TimelineClick ;;
             updateElement (nid e) (set_cursor "pointer") ;;
             updateElement (nid e) (set_transition "transform 0.2s ease")) p
            = (Normal tt,
               with_listeners (listeners p ++ [click_on TimelineClick e])
                              (update_page (at_id (nid e) tl_style) p))) as Estep.
    { rewrite (bind_normal _ (addEventListener_eq _ _ _ _)).
      rewrite (bind_normal _ (updateElement_eq _ _ _)).
      rewrite updateElement_eq. f_equal.
      rewrite update_page_compose by auto with dom.
      unfold with_listeners, update_page, with_dom. cbn. f_equal.
      - apply rewrite_ext. intros x. unfold tl_style, at_id.
        destruct (Nat.eqb (nid x) (nid e)) eqn:E.
        + destruct x; simpl in *. rewrite E. reflexivity.
        + rewrite E. reflexivity.
      - apply map_ext. intros d. apply rewrite_ext. intros x. unfold tl_style, at_id.
        destruct (Nat.eqb (nid x) (nid e)) eqn:E.
        + destruct x; simpl in *. rewrite E. reflexivity.
        + rewrite E. reflexivity. }
    rewrite (bind_normal _ Estep). rewrite IH. f_equal.
    unfold with_listeners, update_page, with_dom. cbn. f_equal.
    + apply rewrite_rewrite. apply local_at_id, tl_style_local.
    + rewrite map_map. apply map_ext. intros. apply rewrite_rewrite.
      apply local_at_id, tl_style_local.
    + rewrite <- app_assoc. reflexivity.
Qed.

Lemma timelineInit_eq p :
  timelineInit p
  = (Normal tt,
     with_listeners
       (listeners p ++ map (click_on TimelineClick) (select sel_timelineItem [] (dom p)))
       (update_page (compose_at (tl_updates (select sel_timelineItem [] (dom p)))) p)).
Proof.
  unfold timelineInit. rewrite (bind_normal _ (querySelectorAll_eq _ _)).
  apply timeline_loop.
Qed.

Lemma learnMoreInit_eq p :
  learnMoreInit p
  = (Normal tt,
     with_listeners
       (listeners p ++ map (click_on LearnMoreClick) (select sel_learnMore [] (dom p))) p).
Proof.
  unfold learnMoreInit. rewrite (bind_normal _ (querySelectorAll_eq _ _)).
  apply (attach_loop (fun x => TElement (nid x)) "click" (fun _ => LearnMoreClick)).
Qed.

Lemma run_listeners_cons l ls e p :
  run_listeners (l :: ls) e p
  = let (p1, r1) := run_job (JListener (l_handler l)) (invoke (l_handler l) (l_target l) e) p in
    let (p2, r2) := run_listeners ls e p1 in
    (p2, r1 ++ r2).
Proof. reflexivity. Qed.

Lemma run_job_normal j (m : M unit) p q :
  m p = (Normal tt, q) -> run_job j m p = (q, [mkRun j (Normal tt)]).
Proof. intros E. unfold run_job. rewrite E. reflexivity. Qed.

(** The page after the menu handler: the same document and observer. *)
Lemma menuInit_frame p :
  exists ls, menuInit p = (Normal tt, with_listeners (listeners p ++ ls) p).
Proof.
  rewrite menuInit_eq. destruct (hamburger_of p) as [h|].
  - destruct (navMenu_of p) as [m|].
    + eexists. reflexivity.
    + exists []. rewrite app_nil_r. destruct p; reflexivity.
  - exists []. rewrite app_nil_r. destruct p; reflexivity.
Qed.

(** The document main.js leaves when DOMContentLoaded has been handled. *)
Definition styled (root : Node) : Node :=
  let d := rewrite (compose_at (tl_updates (select sel_timelineItem [] root))) root in
  rewrite (compose_at (hide_updates (select sel_animated [] d))) d.

Definition targets (root : Node) : list nat :=
  let d := rewrite (compose_at (tl_updates (select sel_timelineItem [] root))) root in
  observe_all (map nid (select sel_animated [] d)) [].

(** The four handlers of main.js, run in order from a page [p] that holds
    the observer. *)
Lemma main_handlers p e :
  observer p = Some [] ->
  exists q,
    run_listeners [mkListener TDocument "DOMContentLoaded" MenuInit;
                   mkListener TDocument "DOMContentLoaded" LearnMoreInit;
                   mkListener TDocument "DOMContentLoaded" TimelineInit;
                   mkListener TDocument "DOMContentLoaded" AnimateInit] e p
    = (q, [mkRun (JListener MenuInit) (Normal tt);
           mkRun (JListener LearnMoreInit) (Normal tt);
           mkRun (JListener TimelineInit) (Normal tt);
           mkRun (JListener AnimateInit) (Normal tt)])
    /\ dom q = styled (dom p)
    /\ observer q = Some (targets (dom p)).
Proof.
  intros Ho. destruct (menuInit_frame p) as [ls E1].
  set (p1 := with_listeners (listeners p ++ ls) p) in *.
  pose proof (learnMoreInit_eq p1) as E2.
  set (p2 := with_listeners _ p1) in E2.
  pose proof (timelineInit_eq p2) as E3.
  set (p3 := with_listeners _ (update_page _ p2)) in E3.
  assert (observer p3 = Some []) as Ho3 by exact Ho.
  pose proof (@animateInit_eq p3 [] Ho3) as E4.
  set (p4 := with_observer _ (update_page _ p3)) in E4.
  exists p4. split; [|split; reflexivity].
  cbn [run_listeners l_handler l_target invoke].
  rewrite (@run_job_normal (JListener MenuInit) _ _ _ E1).
  rewrite (@run_job_normal (JListener LearnMoreInit) _ _ _ E2).
  rewrite (@run_job_normal (JListener TimelineInit) _ _ _ E3).
  rewrite (@run_job_normal (JListener AnimateInit) _ _ _ E4).
  reflexivity.
Qed.

(** Start-up never fails. Whatever the document, with the observer
    available, every DOMContentLoaded handler of main.js completes
    normally, alone or after the one of includes.js, which completes too
    and leaves the document as it was. *)
Theorem startup_completes (root : Node) :
  snd (step DOMContentLoaded (boot_main root true))
  = [mkRun (JListener MenuInit) (Normal tt);
     mkRun (JListener LearnMoreInit) (Normal tt);
     mkRun (JListener TimelineInit) (Normal tt);
     mkRun (JListener AnimateInit) (Normal tt)]
  /\ snd (step DOMContentLoaded (boot_both root true))
     = [mkRun (JListener IncludesInit) (Normal tt);
        mkRun (JListener MenuInit) (Normal tt);
        mkRun (JListener LearnMoreInit) (Normal tt);
        mkRun (JListener TimelineInit) (Normal tt);
        mkRun (JListener AnimateInit) (Normal tt)]
  /\ dom (fst (step DOMContentLoaded (boot_both root true)))
     = dom (fst (step DOMContentLoaded (boot_main root true))).
Proof.
  set (pa := snd (includesInit (boot_both root true))).
  assert (includesInit (boot_both root true) = (Normal tt, pa)) as Ei by reflexivity.
  assert (observer pa = Some []) as Hoa by reflexivity.
  assert (dom pa = root) as Hda by reflexivity.
  destruct (@main_handlers (boot_main root true) DOMContentLoaded eq_refl) as [q [E1 [D1 _]]].
  destruct (@main_handlers pa DOMContentLoaded Hoa) as [q' [E2 [D2 _]]].
  assert (step DOMContentLoaded (boot_main root true)
          = (q, [mkRun (JListener MenuInit) (Normal tt);
                 mkRun (JListener LearnMoreInit) (Normal tt);
                 mkRun (JListener TimelineInit) (Normal tt);
                 mkRun (JListener AnimateInit) (Normal tt)])) as Em.
  { unfold step, dispatch.
    assert (listeners_on [TDocument; TWindow] "DOMContentLoaded" (boot_main root true)
            = [mkListener TDocument "DOMContentLoaded" MenuInit;
               mkListener TDocument "DOMContentLoaded" LearnMoreInit;
               mkListener TDocument "DOMContentLoaded" TimelineInit;
               mkListener TDocument "DOMContentLoaded" AnimateInit]) as -> by reflexivity.
    exact E1. }
  assert (step DOMContentLoaded (boot_both root true)
          = (q', [mkRun (JListener IncludesInit) (Normal tt);
                  mkRun (JListener MenuInit) (Normal tt);
                  mkRun (JListener LearnMoreInit) (Normal tt);
                  mkRun (JListener TimelineInit) (Normal tt);
                  mkRun (JListener AnimateInit) (Normal tt)])) as Eb.
  { unfold step, dispatch.
    assert (listeners_on [TDocument; TWindow] "DOMContentLoaded" (boot_both root true)
            = [mkListener TDocument "DOMContentLoaded" IncludesInit;
               mkListener TDocument "DOMContentLoaded" MenuInit;
               mkListener TDocument "DOMContentLoaded" LearnMoreInit;
               mkListener TDocument "DOMContentLoaded" TimelineInit;
               mkListener TDocument "DOMContentLoaded" AnimateInit]) as -> by reflexivity.
    rewrite run_listeners_cons. cbn [l_handler l_target invoke].
    rewrite (@run_job_normal (JListener IncludesInit) _ _ _ Ei).
    rewrite E2. reflexivity. }
  rewrite Em, Eb. cbn [fst snd]. rewrite D1, D2, Hda.
  split; [reflexivity|split; reflexivity].
Qed.


(** The elements of a document after one style function was written to
    the elements of a list. *)
Lemma restyled f (us : list (nat * (Node -> Node))) d x :
  local f -> (forall y, f (f y) = f y) -> (forall sel, stable sel f) ->
  Forall (fun u => snd u = f) us ->
  In x (subtree (rewrite (compose_at us) d)) ->
  exists x0, In x0 (subtree d)
             /\ style x = style (if existsb (Nat.eqb (nid x0)) (map fst us) then f x0 else x0)
             /\ forall sel, matches sel [] x = matches sel [] x0.
Proof.
  intros L Hi Hst Hs Hx.
  assert (local (compose_at us)) as LG by (apply compose_at_local, (all_local_same L Hs)).
  destruct (@in_subtree_rewrite _ d x LG Hx) as [x0 [Hx0 ->]].
  exists x0. split; [exact Hx0|]. split.
  - rewrite style_rewrite by exact LG. now rewrite (@compose_at_same f us x0 L Hi Hs).
  - intros sel. apply (@matches_rewrite sel (compose_at us) [] x0 LG).
    apply stable_compose_at. eapply Forall_impl; [|exact Hs].
    intros u Eu. rewrite Eu. apply Hst.
Qed.

Lemma hide_idem y : hide (hide y) = hide y.
Proof. destruct y; reflexivity. Qed.

Lemma tl_style_idem y : tl_style (tl_style y) = tl_style y.
Proof. destruct y; reflexivity. Qed.

Lemma simple_timeline : simple sel_timelineItem.
Proof. repeat constructor. Qed.

Lemma timeline_is_animated x :
  matches sel_timelineItem [] x = true -> matches sel_animated [] x = true.
Proof.
  unfold matches, sel_timelineItem, sel_animated. cbn [existsb].
  intros H. rewrite orb_false_r in H. rewrite H. apply orb_true_r.
Qed.

Lemma selected_ids sel d x0 :
  simple sel -> In x0 (subtree d) -> matches sel [] x0 = true ->
  existsb (Nat.eqb (nid x0)) (map nid (select sel [] d)) = true.
Proof.
  intros Hs Hin Hm. apply existsb_exists. exists (nid x0). split; [|apply Nat.eqb_refl].
  apply in_map. rewrite (@select_simple sel d Hs []). apply filter_In. auto.
Qed.

Lemma startup_page root :
  dom (fst (step DOMContentLoaded (boot_main root true))) = styled root
  /\ observer (fst (step DOMContentLoaded (boot_main root true))) = Some (targets root).
Proof.
  destruct (@main_handlers (boot_main root true) DOMContentLoaded eq_refl) as [q [E1 [D1 O1]]].
  assert (step DOMContentLoaded (boot_main root true)
          = (q, [mkRun (JListener MenuInit) (Normal tt);
                 mkRun (JListener LearnMoreInit) (Normal tt);
                 mkRun (JListener TimelineInit) (Normal tt);
                 mkRun (JListener AnimateInit) (Normal tt)])) as Em.
  { unfold step, dispatch.
    assert (listeners_on [TDocument; TWindow] "DOMContentLoaded" (boot_main root true)
            = [mkListener TDocument "DOMContentLoaded" MenuInit;
               mkListener TDocument "DOMContentLoaded" LearnMoreInit;
               mkListener TDocument "DOMContentLoaded" TimelineInit;
               mkListener TDocument "DOMContentLoaded" AnimateInit]) as -> by reflexivity.
    exact E1. }
  rewrite Em. cbn [fst]. split; [exact D1|exact O1].
Qed.

Lemma styled_elements (root : Node) (x : Node) :
  In x (subtree (styled root)) ->
  (matches sel_animated [] x = true ->
   opacity (style x) = "0" /\ transform (style x) = "translateY(20px)"
   /\ transition (style x) = "opacity 0.6s ease, transform 0.6s ease"
   /\ In (nid x) (targets root))
  /\ (matches sel_timelineItem [] x = true ->
      cursor (style x) = "pointer"
      /\ transition (style x) = "opacity 0.6s ease, transform 0.6s ease").
Proof.
  unfold styled, targets. cbv zeta.
  generalize (select sel_timelineItem [] root) (@selected_ids sel_timelineItem root).
  intros items Hitems.
  generalize (rewrite (compose_at (tl_updates items)) root)
             (@restyled tl_style (tl_updates items) root).
  intros d Hd.
  generalize (@selected_ids sel_animated d) (@select_simple sel_animated d simple_animated []).
  generalize (select sel_animated [] d).
  intros els Hels Eels Hx.
  destruct (@restyled hide (hide_updates els) d x hide_local hide_idem hide_stable
              (hide_updates_same els) Hx) as [x1 [Hx1 [Sx Mx]]].
  assert (map fst (hide_updates els) = map nid els) as Eids
      by (unfold hide_updates; rewrite map_map; reflexivity).
  rewrite Eids in Sx.
  assert (matches sel_animated [] x = true ->
          style x = style (hide x1) /\ In (nid x) (observe_all (map nid els) [])) as Hanim.
  { intros Hm. rewrite Mx in Hm.
    pose proof (Hels x1 simple_animated Hx1 Hm) as Hid.
    rewrite Hid in Sx. split; [exact Sx|].
    assert (local (compose_at (hide_updates els))) as LG
        by (apply compose_at_local, (all_local_same hide_local (hide_updates_same els))).
    destruct (@in_subtree_rewrite _ d x LG Hx) as [x1' [Hx1' Ex]].
    apply observe_all_In. rewrite Ex. rewrite nid_rewrite by exact LG.
    apply in_map. rewrite Eels.
    apply filter_In. split; [exact Hx1'|].
    rewrite <- (@matches_rewrite sel_animated (compose_at (hide_updates els)) [] x1' LG).
    - cbn [map]. rewrite <- Ex. now rewrite Mx.
    - apply stable_compose_at. eapply Forall_impl; [|apply hide_updates_same].
      intros u Eu. rewrite Eu. apply hide_stable. }
  split.
  - intros Hm. destruct (Hanim Hm) as [Es Hin]. rewrite Es.
    split; [reflexivity|]. split; [reflexivity|]. split; [reflexivity|exact Hin].
  - intros Hm. destruct (Hanim (timeline_is_animated x Hm)) as [Es _]. rewrite Es.
    split; [|reflexivity].
    rewrite Mx in Hm.
    destruct (Hd x1 tl_style_local tl_style_idem
                tl_style_stable (tl_updates_same items) Hx1) as [x0 [Hx0 [S0 M0]]].
    assert (map fst (tl_updates items) = map nid items) as Ei
        by (unfold tl_updates; rewrite map_map; reflexivity).
    rewrite Ei in S0. rewrite M0 in Hm.
    pose proof (Hitems x0 simple_timeline Hx0 Hm) as Hid.
    rewrite Hid in S0.
    change (cursor (style (hide x1))) with (cursor (style x1)).
    rewrite S0. reflexivity.
Qed.

(* The statement below mentions the start-up run under [In]; implicit
   arguments are not inferred for it. *)
Unset Implicit Arguments.

(** How the two styling handlers compose. After start-up on any document
    every element with one of the classes scenario-card, timeline-item and
    resource-item is hidden (opacity "0", transform "translateY(20px)"),
    carries the 0.6 s transition and is a target of the observer. A
    timeline item keeps the pointer cursor of main.js 95, but the
    "transform 0.2s ease" transition of line 96 is gone: line 122 runs
    later and replaces it. *)
Theorem startup_hides_and_overrides_transition (root : Node) (x : Node) :
  In x (subtree (dom (fst (step DOMContentLoaded (boot_main root true))))) ->
  (matches sel_animated [] x = true ->
   opacity (style x) = "0" /\ transform (style x) = "translateY(20px)"
   /\ transition (style x) = "opacity 0.6s ease, transform 0.6s ease"
   /\ exists l, observer (fst (step DOMContentLoaded (boot_main root true))) = Some l
                /\ In (nid x) l)
  /\ (matches sel_timelineItem [] x = true ->
      cursor (style x) = "pointer"
      /\ transition (style x) = "opacity 0.6s ease, transform 0.6s ease").
Proof.
  destruct (startup_page root) as [Ed Eo].
  generalize dependent (fst (step DOMContentLoaded (boot_main root true))).
  intros q Ed Eo Hx. rewrite Ed in Hx.
  destruct (@styled_elements root x Hx) as [H1 H2].
  split; [|exact H2].
  intros Hm. destruct (H1 Hm) as [Ho [Ht [Htr Hin]]].
  split; [exact Ho|]. split; [exact Ht|]. split; [exact Htr|].
  exists (targets root). split; [exact Eo|exact Hin].
Qed.

Definition the_timeline_item : Node :=
  nth 0 (select sel_timelineItem []
           (dom (fst (step DOMContentLoaded (boot_main index_page true)))))
      (el 0 "" [] [] []).

Lemma startup_hides_and_overrides_transition_witness :
  matches sel_timelineItem [] the_timeline_item = true
  /\ cursor (style the_timeline_item) = "pointer"
  /\ transition (style the_timeline_item) = "opacity 0.6s ease, transform 0.6s ease".
Proof.
  assert (In the_timeline_item
             (subtree (dom (fst (step DOMContentLoaded (boot_main index_page true)))))) as Hin
      by (vm_compute; repeat (first [left; reflexivity | right])).
  assert (matches sel_timelineItem [] the_timeline_item = true) as Ht
      by (vm_compute; reflexivity).
  split; [exact Ht|].
  exact (proj2 (startup_hides_and_overrides_transition index_page the_timeline_item Hin) Ht).
Defined.

Set Implicit Arguments.

End StartupProps.

(* ================================================================== *)
(** ** The wrapper [debounce] on its own (main.js 141-151) *)
(* ================================================================== *)

Module DebounceMore.
Import Dom Js Browser MainJs Loop Pages MonadFacts.

Section Closure.

(** One closure [debounce(func, wait)]: its [timeout] variable is [c]. *)
Variables (c : nat) (func : Handler) (wait : Z).

(** What [clearTimeout(timeout)] of line 148 leaves pending. *)
Definition cleared (p : Page) : list Timer :=
  match cell_lookup c (cells p) with
  | Some i => filter (fun t => negb (Nat.eqb (t_id t) i)) (timers p)
  | None => timers p
  end.

Lemma executedFunction_eq args p :
  executedFunction c func wait args p
  = (Normal tt,
     with_cells ((c, Some (nextTimer p)) :: cells p)
       (with_timers (cleared p ++ [mkTimer (nextTimer p) (now p + wait)%Z (Later c func args)])
                    (S (nextTimer p)) p)).
Proof.
  unfold executedFunction, cleared, read_cell, clearTimeout, setTimeout, write_cell,
    bind, get, modify, ret.
  destruct (cell_lookup c (cells p)); reflexivity.
Qed.

(** A call made [dt] ms after the page was last looked at. *)
Definition call_after (p : Page) (d : Z * Event) : Page :=
  snd (executedFunction c func wait (snd d) (fst (step (Elapse (fst d)) p))).

Definition burst_of (calls : list (Z * Event)) (p : Page) : Page :=
  fold_left call_after calls p.

Definition total (ds : list Z) : Z := fold_right Z.add 0%Z ds.

(** The closure's timer is the only one pending, and [timeout] holds it. *)
Definition held (a : Event) (id : nat) (q : Page) : Prop :=
  timers q = [mkTimer id (now q + wait)%Z (Later c func a)]
  /\ cell_lookup c (cells q) = Some id
  /\ nextTimer q = S id.

(** Nothing is pending, or only the closure's own timer as the last call
    left it. *)
Definition calm (p : Page) : Prop :=
  timers p = []
  \/ exists id a, held a id p.

(** What a call leaves alone. *)
Definition untouched (p q : Page) : Prop :=
  dom q = dom p /\ listeners q = listeners p /\ console q = console p
  /\ alerts q = alerts p.

Lemma untouched_trans p q r : untouched p q -> untouched q r -> untouched p r.
Proof.
  unfold untouched. intros [A [B [C D]]] [A' [B' [C' D']]].
  repeat split; congruence.
Qed.

Lemma quiet_elapse ms p :
  timers p = [] -> step (Elapse ms) p = (with_now (now p + Z.max 0 ms)%Z p, []).
Proof. intros H. unfold step. rewrite H. reflexivity. Qed.

Lemma waiting_elapse ms p id due a :
  timers p = [mkTimer id due a] -> (now p + Z.max 0 ms < due)%Z ->
  step (Elapse ms) p = (with_now (now p + Z.max 0 ms)%Z p, []).
Proof.
  intros H Hlt. unfold step. rewrite H. cbn [List.length run_timers].
  unfold next_due. rewrite H. cbn [earliest t_due].
  destruct (Z.leb_spec due (now p + Z.max 0 ms)%Z); [lia|reflexivity].
Qed.

Lemma firing_elapse ms p id due a :
  timers p = [mkTimer id due a] -> (due <= now p + Z.max 0 ms)%Z ->
  step (Elapse ms) p
  = (with_now (now p + Z.max 0 ms)%Z
       (fst (run_job (JTimer a) (run_timer a)
               (with_now (Z.max (now p) due) (with_timers [] (nextTimer p) p)))),
     snd (run_job (JTimer a) (run_timer a)
            (with_now (Z.max (now p) due) (with_timers [] (nextTimer p) p)))).
Proof.
  intros H Hle. unfold step. rewrite H. cbn [List.length run_timers].
  unfold next_due. rewrite H. cbn [earliest t_due].
  destruct (Z.leb_spec due (now p + Z.max 0 ms)%Z); [|lia].
  cbn [t_action t_id t_due filter]. rewrite Nat.eqb_refl. cbn [negb].
  destruct (run_job (JTimer a) (run_timer a)
              (with_now (Z.max (now p) due) (with_timers [] (nextTimer p) p))) as [p1 r1].
  cbn [fst snd]. now rewrite app_nil_r.
Qed.

(** [later] (lines 144-147) on a page with nothing else pending: its
    [clearTimeout] finds nothing, and [func] is called with the stored
    arguments. *)
Lemma later_eq a t p :
  run_timer (Later c func a) (with_now t (with_timers [] (nextTimer p) p))
  = invoke func TWindow a (with_now t (with_timers [] (nextTimer p) p)).
Proof.
  unfold run_timer, read_cell, clearTimeout, bind, get, modify, ret.
  destruct (cell_lookup c (cells (with_now t (with_timers [] (nextTimer p) p))));
    reflexivity.
Qed.

Lemma calm_elapse dt p :
  calm p -> (0 <= dt < wait)%Z ->
  step (Elapse dt) p = (with_now (now p + dt)%Z p, []).
Proof.
  intros [H | [id [a [H _]]]] Hdt.
  - rewrite (quiet_elapse dt p H). now rewrite Z.max_r by lia.
  - rewrite (@waiting_elapse dt p id (now p + wait)%Z (Later c func a) H) by lia.
    now rewrite Z.max_r by lia.
Qed.

Lemma calm_cleared t p : calm p -> cleared (with_now t p) = [].
Proof.
  unfold cleared. cbn [cells timers with_now].
  intros [H | [id [a [H [Hc _]]]]].
  - rewrite H. destruct (cell_lookup c (cells p)); reflexivity.
  - rewrite H, Hc. cbn [filter t_id]. now rewrite Nat.eqb_refl.
Qed.

Lemma call_after_calm p dt a :
  calm p -> (0 <= dt < wait)%Z ->
  held a (nextTimer p) (call_after p (dt, a))
  /\ now (call_after p (dt, a)) = (now p + dt)%Z
  /\ untouched p (call_after p (dt, a)).
Proof.
  intros Hc Hdt. unfold call_after. cbn [fst snd].
  rewrite (calm_elapse Hc Hdt). cbn [fst].
  rewrite executedFunction_eq. cbn [snd].
  rewrite (calm_cleared (now p + dt)%Z Hc).
  unfold held, untouched. cbn. rewrite Nat.eqb_refl.
  repeat split; reflexivity.
Qed.

Lemma held_calm a id q : held a id q -> calm q.
Proof. intros H. right. exists id, a. exact H. Qed.

Lemma burst_held dt last : forall calls p,
  calm p ->
  Forall (fun d => (0 <= fst d < wait)%Z) (calls ++ [(dt, last)]) ->
  held last (nextTimer p + List.length calls) (burst_of (calls ++ [(dt, last)]) p)
  /\ now (burst_of (calls ++ [(dt, last)]) p) = (now p + total (map fst calls) + dt)%Z
  /\ untouched p (burst_of (calls ++ [(dt, last)]) p).
Proof.
  induction calls as [|[d a] calls IH]; intros p Hc Hok.
  - cbn [app burst_of fold_left List.length map total fold_right].
    inversion Hok as [|? ? Hd _]. cbn [fst] in Hd.
    destruct (@call_after_calm p dt last Hc Hd) as [Hh [Hn Hu]].
    unfold call_after in *. cbn [fst snd] in *.
    rewrite Nat.add_0_r. split; [exact Hh|]. split; [rewrite Hn; lia|exact Hu].
  - inversion Hok as [|? ? Hd Hrest]. cbn [fst] in Hd. subst.
    destruct (@call_after_calm p d a Hc Hd) as [Hh [Hn Hu]].
    destruct (IH (call_after p (d, a)) (held_calm Hh) Hrest) as [Hh' [Hn' Hu']].
    change (burst_of (((d, a) :: calls) ++ [(dt, last)]) p)
      with (burst_of (calls ++ [(dt, last)]) (call_after p (d, a))).
    destruct Hh as [_ [_ Hnx]]. rewrite Hnx in Hh'.
    cbn [List.length map total fold_right fst].
    replace (nextTimer p + S (List.length calls))%nat
      with (S (nextTimer p) + List.length calls)%nat by lia.
    split; [exact Hh'|]. split.
    + rewrite Hn', Hn. fold (total (map fst calls)). lia.
    + exact (untouched_trans Hu Hu').
Qed.

End Closure.

(** What [debounce] is for. A closure [debounce(func, wait)] is called
    again and again, each call less than [wait] ms after the one before,
    on a page where nothing else is pending. Then [func] has not run:
    document, listeners, console and alerts are as before the burst; one
    timer is pending, it carries the arguments of the last call and is due
    [wait] ms after it. Waiting less than [wait] runs nothing; when [wait]
    ms have passed, [later] runs once and calls [func] with the last
    arguments. *)
Theorem debounce_collapses_burst (c : nat) (func : Handler) (wait : Z)
        (calls : list (Z * Event)) (dt : Z) (last : Event) (p : Page) :
  timers p = [] ->
  Forall (fun d => (0 <= fst d < wait)%Z) (calls ++ [(dt, last)]) ->
  timers (burst_of c func wait (calls ++ [(dt, last)]) p)
  = [mkTimer (nextTimer p + List.length calls)
             (now p + total (map fst calls) + dt + wait)%Z (Later c func last)]
  /\ now (burst_of c func wait (calls ++ [(dt, last)]) p)
     = (now p + total (map fst calls) + dt)%Z
  /\ untouched p (burst_of c func wait (calls ++ [(dt, last)]) p)
  /\ (forall ms, (0 <= ms < wait)%Z ->
        snd (step (Elapse ms) (burst_of c func wait (calls ++ [(dt, last)]) p)) = [])
  /\ step (Elapse wait) (burst_of c func wait (calls ++ [(dt, last)]) p)
     = (with_now (now p + total (map fst calls) + dt + wait)%Z
          (fst (run_job (JTimer (Later c func last)) (invoke func TWindow last)
                  (with_now (now p + total (map fst calls) + dt + wait)%Z
                     (with_timers [] (S (nextTimer p + List.length calls))
                        (burst_of c func wait (calls ++ [(dt, last)]) p))))),
        snd (run_job (JTimer (Later c func last)) (invoke func TWindow last)
               (with_now (now p + total (map fst calls) + dt + wait)%Z
                  (with_timers [] (S (nextTimer p + List.length calls))
                     (burst_of c func wait (calls ++ [(dt, last)]) p))))).
Proof.
  intros Hq Hok.
  assert (0 <= dt < wait)%Z as Hdt.
  { apply Forall_app in Hok. destruct Hok as [_ Hl]. now inversion Hl. }
  destruct (@burst_held c func wait dt last calls p (or_introl Hq) Hok)
    as [[Ht [Hc Hnx]] [Hn Hu]].
  set (q := burst_of c func wait (calls ++ [(dt, last)]) p) in *.
  split; [rewrite Ht, Hn; reflexivity|]. split; [exact Hn|]. split; [exact Hu|]. split.
  - intros ms Hms.
    rewrite (@waiting_elapse ms q _ _ _ Ht) by lia. reflexivity.
  - rewrite (@firing_elapse wait q _ _ _ Ht) by lia.
    rewrite Hnx.
    replace (Z.max (now q) (now q + wait))%Z with (now q + wait)%Z by lia.
    replace (now q + Z.max 0 wait)%Z with (now q + wait)%Z by lia.
    rewrite <- Hn.
    unfold run_job.
    rewrite <- Hnx. rewrite (later_eq c func last (now q + wait)%Z q). reflexivity.
Qed.

Lemma debounce_collapses_burst_witness :
  now (burst_of 1 ScrollSpy 100
         ([(0%Z, Scroll 100); (10%Z, Scroll 600)] ++ [(10%Z, Scroll 900)])
         (DebounceProps.debounced_page index_page))
  = (now (DebounceProps.debounced_page index_page)
     + total (map fst [(0%Z, Scroll 100); (10%Z, Scroll 600)]) + 10)%Z.
Proof.
  assert (timers (DebounceProps.debounced_page index_page) = []) as Hq
      by (vm_compute; reflexivity).
  assert (Forall (fun d : Z * Event => (0 <= fst d < 100)%Z)
                 ([(0%Z, Scroll 100); (10%Z, Scroll 600)] ++ [(10%Z, Scroll 900)])) as Hok
      by (repeat constructor; cbn; lia).
  exact (proj1 (proj2 (@debounce_collapses_burst 1%nat ScrollSpy 100%Z
                         [(0%Z, Scroll 100); (10%Z, Scroll 600)] 10%Z (Scroll 900)
                         (DebounceProps.debounced_page index_page) Hq Hok))).
Defined.

End DebounceMore.

(* ================================================================== *)
(** ** The loader when the placeholder is missing (includes.js 9-12) *)
(* ================================================================== *)

Module LoaderMore.
Import Dom Js Browser IncludesJs Loop Pages DomFacts MonadFacts.

(** A fragment arrives and its body is read, but no element matches the
    target selector: the guard of includes.js 10 skips the assignment.
    The load completes, nothing is logged, and the page is what it was but
    for the request being settled; in particular the document and the
    detached nodes are untouched. *)
Theorem load_without_target_changes_nothing
        (p : Page) (url : string) (sel : Selector) (st : Z) (html : Html)
        (rest : list Request) :
  select sel [] (dom p) = [] ->
  take_request url (requests p) = Some (mkRequest url sel, rest) ->
  step (FetchSettled url (Resolved (mkResponse st (BodyText html)))) p
  = (with_requests rest p, [mkRun (JLoadHTML url) (Normal tt)]).
Proof.
  intros Hs Ht. unfold step. rewrite Ht. cbn [r_url r_target].
  assert (loadHTML_resume url sel (Resolved (mkResponse st (BodyText html)))
                          (with_requests rest p)
          = (Normal tt, with_requests rest p)) as E.
  { unfold loadHTML_resume, try_catch. cbn [await_fetch].
    rewrite (bind_normal _ (ret_eq _ _)). cbn [await_text body].
    rewrite (bind_normal _ (ret_eq _ _)).
    rewrite (bind_normal _ (querySelector_eq _ _)).
    cbn [dom with_requests]. rewrite Hs. reflexivity. }
  unfold run_job. rewrite E. reflexivity.
Qed.

(** A page without placeholders that loads includes.js all the same. *)
Definition no_placeholders : Page :=
  fst (step DOMContentLoaded (boot_both index_page true)).

Lemma load_without_target_changes_nothing_witness :
  step (FetchSettled "../includes/header.html"
          (Resolved (mkResponse 200 (BodyText header_html)))) no_placeholders
  = (with_requests [mkRequest "../includes/footer.html" (sel_include "footer")]
                   no_placeholders,
     [mkRun (JLoadHTML "../includes/header.html") (Normal tt)]).
Proof.
  assert (select (sel_include "header") [] (dom no_placeholders) = []) as Hs
      by (vm_compute; reflexivity).
  assert (take_request "../includes/header.html" (requests no_placeholders)
          = Some (mkRequest "../includes/header.html" (sel_include "header"),
                  [mkRequest "../includes/footer.html" (sel_include "footer")])) as Ht
      by (vm_compute; reflexivity).
  exact (@load_without_target_changes_nothing no_placeholders "../includes/header.html"
           (sel_include "header") 200%Z header_html
           [mkRequest "../includes/footer.html" (sel_include "footer")] Hs Ht).
Defined.

End LoaderMore.
